(** * Kinetic: the JSON cleaner, the collaborator calls and the task/session
      state machine of the application, embedded from the TypeScript source.

    The first half of the file holds the model (strings as sequences of
    UTF-16 code units, [cleanJson], the ECMAScript [JSON.stringify] and
    [JSON.parse] built-ins the code calls, the three service functions and
    the handlers of [App]); the second half holds the lemmas and the stated
    properties. *)

From Stdlib Require Import String Ascii.
From Stdlib Require Import List ZArith NArith Bool Lia.
From Stdlib Require DecimalN.
Import ListNotations.

Set Implicit Arguments.
Local Open Scope Z_scope.

(* ================================================================= *)
(** ** Strings *)

(** An ECMAScript string is a sequence of 16-bit code units. *)
Abbreviation code_unit := N (only parsing).
Abbreviation jsstring := (list N) (only parsing).

(** [js "abc"] is the string literal with the code units of its characters. *)
Definition js (s : String.string) : jsstring :=
  map Ascii.N_of_ascii (String.list_ascii_of_string s).
Arguments js s%_string.

(** The same, written with apostrophes where the JavaScript text has double
    quotes: [jsq "{'a':1}"] is the seven code units of [{"a":1}]. *)
Definition jsq (s : String.string) : jsstring :=
  map (fun c => if N.eqb c 39 then 34%N else c) (js s).
Arguments jsq s%_string.

Fixpoint jsstring_eqb (a b : jsstring) : bool :=
  match a, b with
  | [], [] => true
  | x :: a', y :: b' => N.eqb x y && jsstring_eqb a' b'
  | _, _ => false
  end.

(** Truthiness of a string: only the empty string is falsy. *)
Definition truthy (s : jsstring) : bool :=
  match s with [] => false | _ :: _ => true end.

(** [s.startsWith(p)]. *)
Fixpoint starts_with (p s : jsstring) : bool :=
  match p, s with
  | [], _ => true
  | x :: p', y :: s' => N.eqb x y && starts_with p' s'
  | _ :: _, [] => false
  end.

(** [s.replace(/p/g, '')] for a literal, non-empty pattern [p]: the matches
    are found left to right and do not overlap.  [skip] counts the code units
    of the current match still to be dropped. *)
Fixpoint remove_from (p : jsstring) (skip : nat) (s : jsstring) : jsstring :=
  match s with
  | [] => []
  | c :: s' =>
      match skip with
      | S k => remove_from p k s'
      | O => if starts_with p s
             then remove_from p (pred (length p)) s'
             else c :: remove_from p O s'
      end
  end.

Definition remove_all (p s : jsstring) : jsstring := remove_from p O s.

(** [Removed p s out]: [out] is [s] with some occurrences of [p] taken out. *)
Inductive Removed (p : jsstring) : jsstring -> jsstring -> Prop :=
| Removed_nil : Removed p [] []
| Removed_match s out : Removed p s out -> Removed p (p ++ s) out
| Removed_keep c s out : Removed p s out -> Removed p (c :: s) (c :: out).

(** WhiteSpace and LineTerminator code units, as [String.prototype.trim]
    strips them. *)
Definition is_white_space (c : code_unit) : bool :=
  ((9 <=? c) && (c <=? 13) || (c =? 32) || (c =? 160) || (c =? 5760)
   || (8192 <=? c) && (c <=? 8202) || (c =? 8232) || (c =? 8233)
   || (c =? 8239) || (c =? 8287) || (c =? 12288) || (c =? 65279))%N.

Fixpoint trimStart (s : jsstring) : jsstring :=
  match s with
  | [] => []
  | c :: s' => if is_white_space c then trimStart s' else s
  end.

Definition trimEnd (s : jsstring) : jsstring := rev (trimStart (rev s)).

Definition trim (s : jsstring) : jsstring := trimEnd (trimStart s).

(** [s.indexOf(c)] for a one-unit search string, counting from [i]. *)
Fixpoint indexOf_from (c : code_unit) (s : jsstring) (i : Z) : Z :=
  match s with
  | [] => -1
  | x :: s' => if N.eqb x c then i else indexOf_from c s' (i + 1)
  end.

Definition indexOf (c : code_unit) (s : jsstring) : Z := indexOf_from c s 0.

(** [s.lastIndexOf(c)]: [best] is the last position seen so far. *)
Fixpoint lastIndexOf_from (c : code_unit) (s : jsstring) (i best : Z) : Z :=
  match s with
  | [] => best
  | x :: s' => lastIndexOf_from c s' (i + 1) (if N.eqb x c then i else best)
  end.

Definition lastIndexOf (c : code_unit) (s : jsstring) : Z :=
  lastIndexOf_from c s 0 (-1).

(** [s.substring(a, b)]: both ends are clamped to [0 .. length] and swapped
    when the first exceeds the second. *)
Definition clamp (len x : Z) : Z := Z.min (Z.max x 0) len.

Definition substring (s : jsstring) (a b : Z) : jsstring :=
  let len := Z.of_nat (length s) in
  let fs := clamp len a in
  let fe := clamp len b in
  let from := Z.min fs fe in
  let to := Z.max fs fe in
  firstn (Z.to_nat (to - from)) (skipn (Z.to_nat from) s).

(* ================================================================= *)
(** ** cleanJson *)

Definition FENCE_JSON : jsstring := js "```json".
Definition FENCE : jsstring := js "```".
Definition LBRACE : code_unit := 123%N.
Definition RBRACE : code_unit := 125%N.
Definition LBRACKET : code_unit := 91%N.
Definition RBRACKET : code_unit := 93%N.

(** [text.replace(/```json/g, '').replace(/```/g, '').trim()]. *)
Definition strip_fences (text : jsstring) : jsstring :=
  trim (remove_all FENCE (remove_all FENCE_JSON text)).

Definition cleanJson (text : jsstring) : jsstring :=
  if negb (truthy text) then js "{}" else
  let cleaned := strip_fences text in
  let firstBrace := indexOf LBRACE cleaned in
  let lastBrace := lastIndexOf RBRACE cleaned in
  let firstBracket := indexOf LBRACKET cleaned in
  let lastBracket := lastIndexOf RBRACKET cleaned in
  if negb (firstBrace =? -1) && negb (lastBrace =? -1)
     && ((firstBracket =? -1) || (firstBrace <? firstBracket))
  then substring cleaned firstBrace (lastBrace + 1)
  else if negb (firstBracket =? -1) && negb (lastBracket =? -1)
  then substring cleaned firstBracket (lastBracket + 1)
  else cleaned.

(* ================================================================= *)
(** ** Numbers *)

(** A finite Number is kept as the decimal that [Number::toString] prints for
    it: the digits [s] (most significant first, neither a leading nor a
    trailing zero, none at all for zero) and the position [n] of the decimal
    point, the value being [0.s * 10^n].  The sign of zero is not kept. *)
Record decimal := mkDecimal {
  negative : bool;
  digits : list N;
  point : Z
}.

Inductive number :=
| Finite (d : decimal)
| Infinity (neg : bool)
| NaN.

Definition zero : decimal := mkDecimal false [] 0.

Definition digit_chars (ds : list N) : jsstring := map (fun d => (48 + d)%N) ds.

Fixpoint uint_digits (u : Decimal.uint) : list N :=
  match u with
  | Decimal.Nil => []
  | Decimal.D0 u' => 0%N :: uint_digits u'
  | Decimal.D1 u' => 1%N :: uint_digits u'
  | Decimal.D2 u' => 2%N :: uint_digits u'
  | Decimal.D3 u' => 3%N :: uint_digits u'
  | Decimal.D4 u' => 4%N :: uint_digits u'
  | Decimal.D5 u' => 5%N :: uint_digits u'
  | Decimal.D6 u' => 6%N :: uint_digits u'
  | Decimal.D7 u' => 7%N :: uint_digits u'
  | Decimal.D8 u' => 8%N :: uint_digits u'
  | Decimal.D9 u' => 9%N :: uint_digits u'
  end.

Fixpoint digits_uint (ds : list N) : Decimal.uint :=
  match ds with
  | [] => Decimal.Nil
  | d :: ds' =>
      let u := digits_uint ds' in
      match d with
      | 0 => Decimal.D0 u | 1 => Decimal.D1 u | 2 => Decimal.D2 u
      | 3 => Decimal.D3 u | 4 => Decimal.D4 u | 5 => Decimal.D5 u
      | 6 => Decimal.D6 u | 7 => Decimal.D7 u | 8 => Decimal.D8 u
      | _ => Decimal.D9 u
      end%N
  end.

(** The decimal digits of a natural number, and the number a digit sequence
    denotes. *)
Definition N_digits (n : N) : list N := uint_digits (N.to_uint n).
Definition digits_value (ds : list N) : N := N.of_uint (digits_uint ds).

(** Leading and trailing zeros of a digit sequence taken off. *)
Fixpoint drop_zeros (ds : list N) : list N :=
  match ds with
  | [] => []
  | d :: ds' => if N.eqb d 0 then drop_zeros ds' else ds
  end.

Definition drop_trailing_zeros (ds : list N) : list N := rev (drop_zeros (rev ds)).

(** The Number of an integer, as [Date.now()] gives and as estimates
    usually are. *)
Definition of_Z (z : Z) : number :=
  match z with
  | 0 => Finite zero
  | _ => let ds := N_digits (Z.to_N (Z.abs z)) in
         Finite (mkDecimal (z <? 0) (drop_trailing_zeros ds) (Z.of_nat (length ds)))
  end.

(** [Number::toString] in radix 10, for the digits [d1 :: tl] with the
    decimal point at [n]: an integer, a decimal fraction, a fraction below
    one, or the exponent notation. *)
Definition magnitude_toString (d1 : N) (tl : list N) (n : Z) : jsstring :=
  let ds := d1 :: tl in
  let k := Z.of_nat (length ds) in
  if (k <=? n) && (n <=? 21) then
    digit_chars ds ++ digit_chars (repeat 0%N (Z.to_nat (n - k)))
  else if (0 <? n) && (n <=? 21) then
    digit_chars (firstn (Z.to_nat n) ds) ++ js "."
      ++ digit_chars (skipn (Z.to_nat n) ds)
  else if (-6 <? n) && (n <=? 0) then
    js "0." ++ digit_chars (repeat 0%N (Z.to_nat (- n))) ++ digit_chars ds
  else
    digit_chars [d1]
      ++ match tl with [] => [] | _ :: _ => js "." ++ digit_chars tl end
      ++ js "e" ++ (if n - 1 <? 0 then js "-" else js "+")
      ++ digit_chars (N_digits (Z.to_N (Z.abs (n - 1)))).

Definition Number_toString (x : number) : jsstring :=
  match x with
  | NaN => js "NaN"
  | Infinity neg => (if neg then js "-" else []) ++ js "Infinity"
  | Finite d =>
      match digits d with
      | [] => js "0"
      | d1 :: tl =>
          (if negative d then js "-" else []) ++ magnitude_toString d1 tl (point d)
      end
  end.

(** Literals at or above [2^1024 - 2^970] round to Infinity. *)
Definition MAX_BOUND : Z := 2 ^ 1024 - 2 ^ 970.

Definition overflows (ds : list N) (pt : Z) : bool :=
  if 309 <? pt then true
  else if pt <? 309 then false
  else
    let k := Z.of_nat (length ds) in
    let s := Z.of_N (digits_value ds) in
    if k <=? 309 then MAX_BOUND <=? s * 10 ^ (309 - k)
    else MAX_BOUND * 10 ^ (k - 309) <=? s.

(** The Number of a literal with mantissa digits [ds] and decimal point at
    [pt].  The exact decimal is kept; the rounding of a long mantissa to the
    nearest double and underflow to zero are not represented. *)
Definition make_number (neg : bool) (ds : list N) (pt : Z) : number :=
  let lead := drop_zeros ds in
  let pt' := pt - Z.of_nat (length ds - length lead) in
  match drop_trailing_zeros lead with
  | [] => Finite zero
  | s => if overflows s pt' then Infinity neg else Finite (mkDecimal neg s pt')
  end.

(* ================================================================= *)
(** ** JSON values, JSON.stringify and JSON.parse *)

Unset Elimination Schemes.
Inductive json :=
| JNull
| JBool (b : bool)
| JNum (x : number)
| JStr (s : jsstring)
| JArr (items : list json)
| JObj (members : list (jsstring * json)).
Set Elimination Schemes.

(** Property read and write on an object; a property keeps the place of its
    first definition.  (The reordering of integer-like keys is not
    represented: the objects of this program have none, apart from the spread
    of an array, whose keys are already in order.) *)
Fixpoint obj_get (k : jsstring) (o : list (jsstring * json)) : option json :=
  match o with
  | [] => None
  | (k', v) :: o' => if jsstring_eqb k' k then Some v else obj_get k o'
  end.

Fixpoint obj_set (o : list (jsstring * json)) (k : jsstring) (v : json)
  : list (jsstring * json) :=
  match o with
  | [] => [(k, v)]
  | (k', v') :: o' =>
      if jsstring_eqb k' k then (k', v) :: o' else (k', v') :: obj_set o' k v
  end.

Definition field (k : jsstring) (v : json) : option json :=
  match v with JObj o => obj_get k o | _ => None end.

(** *** QuoteJSONString *)

Definition hex_char (n : N) : code_unit :=
  (if n <? 10 then 48 + n else 87 + n)%N.

Definition unicode_escape (c : code_unit) : jsstring :=
  [92; 117; hex_char (c / 4096 mod 16); hex_char (c / 256 mod 16);
   hex_char (c / 16 mod 16); hex_char (c mod 16)]%N.

Definition is_high_surrogate (c : code_unit) : bool :=
  ((55296 <=? c) && (c <=? 56319))%N.
Definition is_low_surrogate (c : code_unit) : bool :=
  ((56320 <=? c) && (c <=? 57343))%N.

Definition quote_unit (c : code_unit) : jsstring :=
  (if c =? 8 then [92; 98]
   else if c =? 9 then [92; 116]
   else if c =? 10 then [92; 110]
   else if c =? 12 then [92; 102]
   else if c =? 13 then [92; 114]
   else if c =? 34 then [92; 34]
   else if c =? 92 then [92; 92]
   else if (c <? 32) || is_high_surrogate c || is_low_surrogate c
   then unicode_escape c
   else [c])%N.

(** A high surrogate followed by a low one is a code point and is copied;
    a lone surrogate is escaped. *)
Fixpoint quote_units (s : jsstring) : jsstring :=
  match s with
  | [] => []
  | c :: tl =>
      match tl with
      | c2 :: tl2 =>
          if is_high_surrogate c && is_low_surrogate c2
          then c :: c2 :: quote_units tl2
          else quote_unit c ++ quote_units tl
      | [] => quote_unit c
      end
  end.

Definition quote (s : jsstring) : jsstring := [34%N] ++ quote_units s ++ [34%N].

(** *** JSON.stringify (no replacer, no indentation) *)

Fixpoint join (sep : jsstring) (parts : list jsstring) : jsstring :=
  match parts with
  | [] => []
  | [p] => p
  | p :: ps => p ++ sep ++ join sep ps
  end.

Fixpoint JSON_stringify (v : json) : jsstring :=
  match v with
  | JNull => js "null"
  | JBool true => js "true"
  | JBool false => js "false"
  | JNum (Finite d) => Number_toString (Finite d)
  | JNum _ => js "null"
  | JStr s => quote s
  | JArr items => js "[" ++ join (js ",") (map JSON_stringify items) ++ js "]"
  | JObj members =>
      js "{"
      ++ join (js ",")
           (map (fun kv => quote (fst kv) ++ js ":" ++ JSON_stringify (snd kv))
                members)
      ++ js "}"
  end.

(** *** JSON.parse (no reviver) *)

Definition is_json_space (c : code_unit) : bool :=
  ((c =? 32) || (c =? 9) || (c =? 10) || (c =? 13))%N.

Fixpoint skip_ws (s : jsstring) : jsstring :=
  match s with
  | [] => []
  | c :: s' => if is_json_space c then skip_ws s' else s
  end.

Definition is_digit (c : code_unit) : bool := ((48 <=? c) && (c <=? 57))%N.

Fixpoint take_digits (s : jsstring) : list N * jsstring :=
  match s with
  | [] => ([], [])
  | c :: s' =>
      if is_digit c
      then let (ds, r) := take_digits s' in ((c - 48)%N :: ds, r)
      else ([], s)
  end.

Definition parse_int_part (s : jsstring) : option (list N * jsstring) :=
  match s with
  | [] => None
  | c :: r =>
      if N.eqb c 48 then Some ([0%N], r)
      else if is_digit c then Some (take_digits s)
      else None
  end.

Definition parse_frac_part (s : jsstring) : option (list N * jsstring) :=
  match s with
  | c :: r =>
      if N.eqb c 46 then
        match take_digits r with
        | ([], _) => None
        | (fs, r') => Some (fs, r')
        end
      else Some ([], s)
  | [] => Some ([], s)
  end.

Definition parse_exp_part (s : jsstring) : option (Z * jsstring) :=
  match s with
  | c :: r =>
      if N.eqb c 101 || N.eqb c 69 then
        let (eneg, r1) :=
          match r with
          | c1 :: r' =>
              if N.eqb c1 45 then (true, r')
              else if N.eqb c1 43 then (false, r')
              else (false, r)
          | [] => (false, r)
          end in
        match take_digits r1 with
        | ([], _) => None
        | (es, r2) =>
            let e := Z.of_N (digits_value es) in
            Some (if eneg then - e else e, r2)
        end
      else Some (0, s)
  | [] => Some (0, s)
  end.

(** The literal after its sign: integer part, fraction, exponent. *)
Definition parse_magnitude (neg : bool) (s : jsstring) : option (number * jsstring) :=
  match parse_int_part s with
  | None => None
  | Some (ip, s2) =>
      match parse_frac_part s2 with
      | None => None
      | Some (fp, s3) =>
          match parse_exp_part s3 with
          | None => None
          | Some (ex, s4) =>
              Some (make_number neg (ip ++ fp) (Z.of_nat (length ip) + ex), s4)
          end
      end
  end.

Definition parse_number (s : jsstring) : option (number * jsstring) :=
  match s with
  | c :: r => if N.eqb c 45 then parse_magnitude true r else parse_magnitude false s
  | [] => None
  end.

Definition hex_value (c : code_unit) : option N :=
  (if (48 <=? c) && (c <=? 57) then Some (c - 48)
   else if (97 <=? c) && (c <=? 102) then Some (c - 87)
   else if (65 <=? c) && (c <=? 70) then Some (c - 55)
   else None)%N.

Definition hex4_value (h1 h2 h3 h4 : code_unit) : option code_unit :=
  match hex_value h1, hex_value h2, hex_value h3, hex_value h4 with
  | Some a, Some b, Some c, Some d => Some (4096 * a + 256 * b + 16 * c + d)%N
  | _, _, _, _ => None
  end.

Definition unescape (e : code_unit) : option code_unit :=
  (if e =? 34 then Some 34
   else if e =? 92 then Some 92
   else if e =? 47 then Some 47
   else if e =? 98 then Some 8
   else if e =? 102 then Some 12
   else if e =? 110 then Some 10
   else if e =? 114 then Some 13
   else if e =? 116 then Some 9
   else None)%N.

Definition cons_unit (c : code_unit) (r : option (jsstring * jsstring))
  : option (jsstring * jsstring) :=
  match r with
  | Some (str, rest) => Some (c :: str, rest)
  | None => None
  end.

(** The characters of a string literal after its opening quote, up to and
    including the closing one. *)
Fixpoint parse_chars (s : jsstring) : option (jsstring * jsstring) :=
  match s with
  | [] => None
  | c :: s1 =>
      if N.eqb c 34 then Some ([], s1)
      else if N.eqb c 92 then
        match s1 with
        | [] => None
        | e :: s2 =>
            if N.eqb e 117 then
              match s2 with
              | h1 :: h2 :: h3 :: h4 :: s3 =>
                  match hex4_value h1 h2 h3 h4 with
                  | Some u => cons_unit u (parse_chars s3)
                  | None => None
                  end
              | _ => None
              end
            else
              match unescape e with
              | Some u => cons_unit u (parse_chars s2)
              | None => None
              end
        end
      else if N.ltb c 32 then None
      else cons_unit c (parse_chars s1)
  end.

Definition parse_literal (lit : jsstring) (v : json) (s : jsstring)
  : option (json * jsstring) :=
  if starts_with lit s then Some (v, skipn (length lit) s) else None.

(** Recursive descent; [fuel] bounds the nesting and the number of elements
    and is taken larger than the text is long. *)
Fixpoint parse_value (fuel : nat) (s : jsstring) : option (json * jsstring) :=
  match fuel with
  | O => None
  | S f =>
      match skip_ws s with
      | [] => None
      | c :: r =>
          if N.eqb c 123 then
            match skip_ws r with
            | c' :: r' =>
                if N.eqb c' 125 then Some (JObj [], r')
                else parse_members f [] (c' :: r')
            | [] => None
            end
          else if N.eqb c 91 then
            match skip_ws r with
            | c' :: r' =>
                if N.eqb c' 93 then Some (JArr [], r')
                else parse_elements f [] (c' :: r')
            | [] => None
            end
          else if N.eqb c 34 then
            match parse_chars r with
            | Some (str, r') => Some (JStr str, r')
            | None => None
            end
          else if N.eqb c 116 then parse_literal (js "true") (JBool true) (c :: r)
          else if N.eqb c 102 then parse_literal (js "false") (JBool false) (c :: r)
          else if N.eqb c 110 then parse_literal (js "null") JNull (c :: r)
          else if N.eqb c 45 || is_digit c then
            match parse_number (c :: r) with
            | Some (x, r') => Some (JNum x, r')
            | None => None
            end
          else None
      end
  end

with parse_elements (fuel : nat) (acc : list json) (s : jsstring)
  : option (json * jsstring) :=
  match fuel with
  | O => None
  | S f =>
      match parse_value f s with
      | None => None
      | Some (v, s1) =>
          match skip_ws s1 with
          | c :: r =>
              if N.eqb c 44 then parse_elements f (v :: acc) r
              else if N.eqb c 93 then Some (JArr (rev (v :: acc)), r)
              else None
          | [] => None
          end
      end
  end

with parse_members (fuel : nat) (acc : list (jsstring * json)) (s : jsstring)
  : option (json * jsstring) :=
  match fuel with
  | O => None
  | S f =>
      match skip_ws s with
      | c :: r =>
          if N.eqb c 34 then
            match parse_chars r with
            | None => None
            | Some (k, s1) =>
                match skip_ws s1 with
                | c1 :: r1 =>
                    if N.eqb c1 58 then
                      match parse_value f r1 with
                      | None => None
                      | Some (v, s2) =>
                          match skip_ws s2 with
                          | c2 :: r2 =>
                              if N.eqb c2 44 then parse_members f (obj_set acc k v) r2
                              else if N.eqb c2 125 then Some (JObj (obj_set acc k v), r2)
                              else None
                          | [] => None
                          end
                      end
                    else None
                | [] => None
                end
            end
          else None
      | [] => None
      end
  end.

(** [JSON.parse(text)]; [None] stands for the SyntaxError it throws. *)
Definition JSON_parse (text : jsstring) : option json :=
  match parse_value (S (length text)) text with
  | Some (v, rest) =>
      match skip_ws rest with
      | [] => Some v
      | _ :: _ => None
      end
  | None => None
  end.

(* ================================================================= *)
(** ** Data model (types.ts) *)

Inductive AppState := IDLE | DNA_EXTRACTION | DASHBOARD | WORKING | SUMMARY.

Module TaskStatus.
Inductive t := PENDING | DRAFTING | READY | IN_PROGRESS | COMPLETED.
End TaskStatus.

Module VerificationStatus.
Inductive t := PENDING | REVIEWING | NEEDS_REVISION | APPROVED.
End VerificationStatus.

Inductive AgentType := RESEARCHER | CODER | WRITER | STRATEGIST.
Inductive AgentPersonality := SKEPTIC | HYPE_MAN | VC | DEFAULT.

Record ProjectDNA := mkDNA {
  audience : jsstring;
  problem : jsstring;
  tone : jsstring;
  antiGoals : jsstring;
  stakes : jsstring;
  rawContext : jsstring
}.

Module ChatMessage.
Inductive Role := user | ai.
Record t := mk {
  id : jsstring;
  role : Role;
  text : jsstring;
  timestamp : number;
  senderName : option jsstring;
  personality : option AgentPersonality
}.
End ChatMessage.

Record MicroTask := mkTask {
  id : jsstring;
  title : jsstring;
  description : jsstring;
  estimatedMinutes : number;
  status : TaskStatus.t;
  verificationStatus : VerificationStatus.t;
  agentType : AgentType;
  content : option jsstring;
  visualCode : option jsstring;
  chatHistory : list ChatMessage.t
}.

(** [Omit<MicroTask, 'id' | 'status' | 'content' | 'chatHistory' |
    'verificationStatus'>], the element type of a generated plan. *)
Module Descriptor.
Record t := mk {
  title : jsstring;
  description : jsstring;
  estimatedMinutes : number;
  agentType : AgentType;
  visualCode : option jsstring
}.
End Descriptor.

(* ================================================================= *)
(** ** The values of the data model as JavaScript objects *)

Definition AppState_name (a : AppState) : jsstring :=
  match a with
  | IDLE => js "IDLE" | DNA_EXTRACTION => js "DNA_EXTRACTION"
  | DASHBOARD => js "DASHBOARD" | WORKING => js "WORKING" | SUMMARY => js "SUMMARY"
  end.

Definition TaskStatus_name (x : TaskStatus.t) : jsstring :=
  match x with
  | TaskStatus.PENDING => js "PENDING" | TaskStatus.DRAFTING => js "DRAFTING"
  | TaskStatus.READY => js "READY" | TaskStatus.IN_PROGRESS => js "IN_PROGRESS"
  | TaskStatus.COMPLETED => js "COMPLETED"
  end.

Definition VerificationStatus_name (x : VerificationStatus.t) : jsstring :=
  match x with
  | VerificationStatus.PENDING => js "PENDING"
  | VerificationStatus.REVIEWING => js "REVIEWING"
  | VerificationStatus.NEEDS_REVISION => js "NEEDS_REVISION"
  | VerificationStatus.APPROVED => js "APPROVED"
  end.

Definition AgentType_name (x : AgentType) : jsstring :=
  match x with
  | RESEARCHER => js "RESEARCHER" | CODER => js "CODER"
  | WRITER => js "WRITER" | STRATEGIST => js "STRATEGIST"
  end.

Definition AgentPersonality_name (x : AgentPersonality) : jsstring :=
  match x with
  | SKEPTIC => js "SKEPTIC" | HYPE_MAN => js "HYPE_MAN"
  | VC => js "VC" | DEFAULT => js "DEFAULT"
  end.

Definition Role_name (x : ChatMessage.Role) : jsstring :=
  match x with ChatMessage.user => js "user" | ChatMessage.ai => js "ai" end.

(** The inverse readings: a string that names no member is outside the type. *)
Definition first_named {A : Type} (name : A -> jsstring) (all : list A) (s : jsstring)
  : option A :=
  find (fun x => jsstring_eqb (name x) s) all.

Definition TaskStatus_of : jsstring -> option TaskStatus.t :=
  first_named TaskStatus_name
    [TaskStatus.PENDING; TaskStatus.DRAFTING; TaskStatus.READY;
     TaskStatus.IN_PROGRESS; TaskStatus.COMPLETED].

Definition VerificationStatus_of : jsstring -> option VerificationStatus.t :=
  first_named VerificationStatus_name
    [VerificationStatus.PENDING; VerificationStatus.REVIEWING;
     VerificationStatus.NEEDS_REVISION; VerificationStatus.APPROVED].

Definition AgentType_of : jsstring -> option AgentType :=
  first_named AgentType_name [RESEARCHER; CODER; WRITER; STRATEGIST].

Definition AgentPersonality_of : jsstring -> option AgentPersonality :=
  first_named AgentPersonality_name [SKEPTIC; HYPE_MAN; VC; DEFAULT].

Definition Role_of : jsstring -> option ChatMessage.Role :=
  first_named Role_name [ChatMessage.user; ChatMessage.ai].

(** An optional property is written only when it is defined. *)
Definition optional (k : jsstring) (v : option json) : list (jsstring * json) :=
  match v with Some x => [(k, x)] | None => [] end.

Definition ProjectDNA_value (d : ProjectDNA) : json :=
  JObj [(js "audience", JStr (audience d)); (js "problem", JStr (problem d));
        (js "tone", JStr (tone d)); (js "antiGoals", JStr (antiGoals d));
        (js "stakes", JStr (stakes d)); (js "rawContext", JStr (rawContext d))].

Definition ChatMessage_value (m : ChatMessage.t) : json :=
  JObj ([(js "id", JStr (ChatMessage.id m));
         (js "role", JStr (Role_name (ChatMessage.role m)));
         (js "text", JStr (ChatMessage.text m));
         (js "timestamp", JNum (ChatMessage.timestamp m))]
        ++ optional (js "senderName") (option_map JStr (ChatMessage.senderName m))
        ++ optional (js "personality")
             (option_map (fun x => JStr (AgentPersonality_name x))
                         (ChatMessage.personality m))).

(** The properties of a task in the order [handleLaunch] and the later
    updates create them: those of the descriptor, then [id], [status],
    [verificationStatus], [chatHistory], then [content] once it is set. *)
Definition MicroTask_value (t : MicroTask) : json :=
  JObj ([(js "title", JStr (title t));
         (js "description", JStr (description t));
         (js "estimatedMinutes", JNum (estimatedMinutes t));
         (js "agentType", JStr (AgentType_name (agentType t)))]
        ++ optional (js "visualCode") (option_map JStr (visualCode t))
        ++ [(js "id", JStr (id t));
            (js "status", JStr (TaskStatus_name (status t)));
            (js "verificationStatus",
              JStr (VerificationStatus_name (verificationStatus t)));
            (js "chatHistory", JArr (map ChatMessage_value (chatHistory t)))]
        ++ optional (js "content") (option_map JStr (content t))).

(** Reading a value at a declared type.  TypeScript does not check these
    readings at run time; they are defined on the values that have the type. *)
Definition as_string (v : option json) : option jsstring :=
  match v with Some (JStr s) => Some s | _ => None end.

Definition as_number (v : option json) : option number :=
  match v with Some (JNum x) => Some x | _ => None end.

Definition as_optional {A : Type} (read : option json -> option A) (v : option json)
  : option (option A) :=
  match v with
  | None => Some None
  | Some _ => option_map Some (read v)
  end.

Definition bind {A B : Type} (x : option A) (f : A -> option B) : option B :=
  match x with Some a => f a | None => None end.

Notation "x <- a ;; b" := (bind a (fun x => b))
  (at level 61, a at next level, right associativity).

Fixpoint traverse {A B : Type} (f : A -> option B) (l : list A) : option (list B) :=
  match l with
  | [] => Some []
  | a :: l' =>
      b <- f a ;;
      bs <- traverse f l' ;;
      Some (b :: bs)
  end.

Definition as_array {A : Type} (read : json -> option A) (v : option json)
  : option (list A) :=
  match v with Some (JArr items) => traverse read items | _ => None end.

Definition as_enum {A : Type} (of_name : jsstring -> option A) (v : option json)
  : option A :=
  s <- as_string v ;; of_name s.

Definition ProjectDNA_of (v : json) : option ProjectDNA :=
  a <- as_string (field (js "audience") v) ;;
  p <- as_string (field (js "problem") v) ;;
  t <- as_string (field (js "tone") v) ;;
  g <- as_string (field (js "antiGoals") v) ;;
  k <- as_string (field (js "stakes") v) ;;
  r <- as_string (field (js "rawContext") v) ;;
  Some (mkDNA a p t g k r).

Definition ChatMessage_of (v : json) : option ChatMessage.t :=
  i <- as_string (field (js "id") v) ;;
  r <- as_enum Role_of (field (js "role") v) ;;
  x <- as_string (field (js "text") v) ;;
  ts <- as_number (field (js "timestamp") v) ;;
  sn <- as_optional as_string (field (js "senderName") v) ;;
  pe <- as_optional (as_enum AgentPersonality_of) (field (js "personality") v) ;;
  Some (ChatMessage.mk i r x ts sn pe).

Definition MicroTask_of (v : json) : option MicroTask :=
  i <- as_string (field (js "id") v) ;;
  ti <- as_string (field (js "title") v) ;;
  de <- as_string (field (js "description") v) ;;
  em <- as_number (field (js "estimatedMinutes") v) ;;
  st <- as_enum TaskStatus_of (field (js "status") v) ;;
  vs <- as_enum VerificationStatus_of (field (js "verificationStatus") v) ;;
  ag <- as_enum AgentType_of (field (js "agentType") v) ;;
  co <- as_optional as_string (field (js "content") v) ;;
  vc <- as_optional as_string (field (js "visualCode") v) ;;
  ch <- as_array ChatMessage_of (field (js "chatHistory") v) ;;
  Some (mkTask i ti de em st vs ag co vc ch).

Definition Descriptor_of (v : json) : option Descriptor.t :=
  ti <- as_string (field (js "title") v) ;;
  de <- as_string (field (js "description") v) ;;
  em <- as_number (field (js "estimatedMinutes") v) ;;
  ag <- as_enum AgentType_of (field (js "agentType") v) ;;
  vc <- as_optional as_string (field (js "visualCode") v) ;;
  Some (Descriptor.mk ti de em ag vc).

(** The record kept under the storage key: [{ dna, tasks }]. *)
Record Persisted := mkPersisted {
  saved_dna : ProjectDNA;
  saved_tasks : list MicroTask
}.

Definition Persisted_value (p : Persisted) : json :=
  JObj [(js "dna", ProjectDNA_value (saved_dna p));
        (js "tasks", JArr (map MicroTask_value (saved_tasks p)))].

Definition Persisted_of (v : json) : option Persisted :=
  d <- bind (field (js "dna") v) ProjectDNA_of ;;
  ts <- as_array MicroTask_of (field (js "tasks") v) ;;
  Some (mkPersisted d ts).

(** [JSON.stringify({ dna, tasks })] and the reading of the stored text by the
    load effect ([JSON.parse(saved)], then [data.dna] and [data.tasks]). *)
Definition serialize (p : Persisted) : jsstring := JSON_stringify (Persisted_value p).

Definition deserialize (saved : jsstring) : option Persisted :=
  bind (JSON_parse saved) Persisted_of.

(* ================================================================= *)
(** ** The collaborator calls (geminiService) *)

Inductive Error :=
| CallFailed          (* the request to the service was rejected *)
| NoPlanGenerated     (* [new Error("No plan generated")] *)
| SyntaxError.        (* thrown by [JSON.parse] *)

(** What an awaited promise gives. *)
Inductive outcome (A : Type) :=
| Resolved (a : A)
| Rejected (e : Error).
Arguments Resolved {A} a.
Arguments Rejected {A} e.

(** [response.text] of a resolved [generateContent] call; the prompt that was
    sent is not represented. *)
Definition Response := option jsstring.

(** [response.text || dflt]. *)
Definition text_or (r : Response) (dflt : jsstring) : jsstring :=
  match r with
  | Some t => if truthy t then t else dflt
  | None => dflt
  end.

Record QA := mkQA { question : jsstring; answer : jsstring }.

(** The own enumerable properties an object spread copies. *)
Fixpoint indexed (i : N) (vs : list json) : list (jsstring * json) :=
  match vs with
  | [] => []
  | v :: vs' => (digit_chars (N_digits i), v) :: indexed (i + 1) vs'
  end.

Definition spread (v : json) : list (jsstring * json) :=
  match v with
  | JObj o => o
  | JArr items => indexed 0 items
  | JStr s => indexed 0 (map (fun c => JStr [c]) s)
  | _ => []
  end.

Definition FALLBACK_DNA (rawContext : jsstring) : json :=
  JObj [(js "audience", JStr (js "General Audience"));
        (js "problem", JStr (js "Undefined Problem"));
        (js "tone", JStr (js "Professional"));
        (js "antiGoals", JStr (js "Generic content"));
        (js "stakes", JStr (js "High"));
        (js "rawContext", JStr rawContext)].

(** [synthesizeDNA]: the object [{ ...parsed, rawContext }] on success, the
    fixed object of the [catch] branch when the call or the parse throws. *)
Definition synthesizeDNA (history : list QA) (rawContext : jsstring)
    (response : outcome Response) : json :=
  match response with
  | Rejected _ => FALLBACK_DNA rawContext
  | Resolved r =>
      match JSON_parse (cleanJson (text_or r (js "{}"))) with
      | Some parsed => JObj (obj_set (spread parsed) (js "rawContext") (JStr rawContext))
      | None => FALLBACK_DNA rawContext
      end
  end.

(** [generatePlan]: the [catch] branch logs and throws the error again. *)
Definition generatePlan (dna : ProjectDNA) (response : outcome Response)
  : outcome json :=
  match response with
  | Rejected e => Rejected e
  | Resolved r =>
      if negb (truthy (text_or r [])) then Rejected NoPlanGenerated
      else
        match JSON_parse (cleanJson (text_or r [])) with
        | Some plan => Resolved plan
        | None => Rejected SyntaxError
        end
  end.

(** The plan at the type the signature of [generatePlan] declares. *)
Definition typed_plan (r : outcome json) : option (outcome (list Descriptor.t)) :=
  match r with
  | Rejected e => Some (Rejected e)
  | Resolved v => option_map Resolved (as_array Descriptor_of (Some v))
  end.

(* ================================================================= *)
(** ** The application state and its handlers (App.tsx) *)

Inductive ViewMode := EDIT | PREVIEW | VISUAL.

(** The [useState] cells of [App] the handlers touch, the item of
    [localStorage] under the key ['kinetic_state'], and the messages shown
    with [alert]. *)
Record App := mkApp {
  appState : AppState;
  dna : ProjectDNA;
  tasks : list MicroTask;
  currentTaskId : option jsstring;
  editorContent : jsstring;
  viewMode : ViewMode;
  isGenerating : bool;
  showMissionBrief : bool;
  audioEnabled : bool;
  kinetic_state : option jsstring;
  alerts : list jsstring
}.

Definition EMPTY_DNA : ProjectDNA := mkDNA [] [] [] [] [] [].

Definition initial (stored : option jsstring) : App :=
  mkApp IDLE EMPTY_DNA [] None [] EDIT false false false stored [].

Definition setAppState (x : AppState) (a : App) : App :=
  mkApp x (dna a) (tasks a) (currentTaskId a) (editorContent a) (viewMode a)
        (isGenerating a) (showMissionBrief a) (audioEnabled a) (kinetic_state a)
        (alerts a).
Definition setDna (x : ProjectDNA) (a : App) : App :=
  mkApp (appState a) x (tasks a) (currentTaskId a) (editorContent a) (viewMode a)
        (isGenerating a) (showMissionBrief a) (audioEnabled a) (kinetic_state a)
        (alerts a).
Definition setTasks (x : list MicroTask) (a : App) : App :=
  mkApp (appState a) (dna a) x (currentTaskId a) (editorContent a) (viewMode a)
        (isGenerating a) (showMissionBrief a) (audioEnabled a) (kinetic_state a)
        (alerts a).
Definition setCurrentTaskId (x : option jsstring) (a : App) : App :=
  mkApp (appState a) (dna a) (tasks a) x (editorContent a) (viewMode a)
        (isGenerating a) (showMissionBrief a) (audioEnabled a) (kinetic_state a)
        (alerts a).
Definition setEditorContent (x : jsstring) (a : App) : App :=
  mkApp (appState a) (dna a) (tasks a) (currentTaskId a) x (viewMode a)
        (isGenerating a) (showMissionBrief a) (audioEnabled a) (kinetic_state a)
        (alerts a).
Definition setViewMode (x : ViewMode) (a : App) : App :=
  mkApp (appState a) (dna a) (tasks a) (currentTaskId a) (editorContent a) x
        (isGenerating a) (showMissionBrief a) (audioEnabled a) (kinetic_state a)
        (alerts a).
Definition setIsGenerating (x : bool) (a : App) : App :=
  mkApp (appState a) (dna a) (tasks a) (currentTaskId a) (editorContent a)
        (viewMode a) x (showMissionBrief a) (audioEnabled a) (kinetic_state a)
        (alerts a).
Definition setShowMissionBrief (x : bool) (a : App) : App :=
  mkApp (appState a) (dna a) (tasks a) (currentTaskId a) (editorContent a)
        (viewMode a) (isGenerating a) x (audioEnabled a) (kinetic_state a)
        (alerts a).
Definition setAudioEnabled (x : bool) (a : App) : App :=
  mkApp (appState a) (dna a) (tasks a) (currentTaskId a) (editorContent a)
        (viewMode a) (isGenerating a) (showMissionBrief a) x (kinetic_state a)
        (alerts a).
(** [localStorage.setItem('kinetic_state', x)] and [removeItem]. *)
Definition localStorage_set (x : option jsstring) (a : App) : App :=
  mkApp (appState a) (dna a) (tasks a) (currentTaskId a) (editorContent a)
        (viewMode a) (isGenerating a) (showMissionBrief a) (audioEnabled a) x
        (alerts a).
Definition alert (message : jsstring) (a : App) : App :=
  mkApp (appState a) (dna a) (tasks a) (currentTaskId a) (editorContent a)
        (viewMode a) (isGenerating a) (showMissionBrief a) (audioEnabled a)
        (kinetic_state a) (alerts a ++ [message]).

(** [if (currentTaskId)]: neither [null] nor the empty string. *)
Definition has_current (a : App) : bool :=
  match currentTaskId a with Some c => truthy c | None => false end.

(** [t.id === currentTaskId]. *)
Definition is_current (a : App) (t : MicroTask) : bool :=
  match currentTaskId a with Some c => jsstring_eqb (id t) c | None => false end.

Definition with_content (c : jsstring) (t : MicroTask) : MicroTask :=
  mkTask (id t) (title t) (description t) (estimatedMinutes t) (status t)
         (verificationStatus t) (agentType t) (Some c) (visualCode t)
         (chatHistory t).

Definition with_status (x : TaskStatus.t) (t : MicroTask) : MicroTask :=
  mkTask (id t) (title t) (description t) (estimatedMinutes t) x
         (verificationStatus t) (agentType t) (content t) (visualCode t)
         (chatHistory t).

(** [ts.map(t => t.id === currentTaskId ? { ...t, content: editorContent } : t)]. *)
Definition flush (a : App) (ts : list MicroTask) : list MicroTask :=
  map (fun t => if is_current a t then with_content (editorContent a) t else t) ts.

(** [!task.content] and [task.content || '']. *)
Definition no_content (t : MicroTask) : bool :=
  match content t with Some c => negb (truthy c) | None => true end.
Definition content_or_empty (t : MicroTask) : jsstring :=
  match content t with Some c => c | None => [] end.

Definition DRAFT_ERROR : jsstring :=
  js "// Error generating draft. Please use the chat to request a new one.".

(** [enterTask(taskId, currentTaskList)].  [draft] is what the awaited
    [draftTaskContent] call gives; it is taken to arrive before the next
    event. *)
Definition enterTask (taskId : jsstring) (currentTaskList : list MicroTask)
    (draft : outcome jsstring) (a : App) : App :=
  let updatedTasks := flush a currentTaskList in
  let a1 := if has_current a then setTasks updatedTasks a else a in
  let currentTaskList := if has_current a then updatedTasks else currentTaskList in
  match find (fun t => jsstring_eqb (id t) taskId) currentTaskList with
  | None => a1
  | Some task =>
      let a2 :=
        setAudioEnabled true
          (setViewMode EDIT
             (setAppState WORKING
                (setEditorContent (content_or_empty task)
                   (setCurrentTaskId (Some taskId) a1)))) in
      if no_content task then
        let a3 := setIsGenerating true a2 in
        match draft with
        | Resolved d =>
            setIsGenerating false
              (setTasks
                 (map (fun t => if jsstring_eqb (id t) taskId
                                then with_status TaskStatus.IN_PROGRESS (with_content d t)
                                else t)
                      (tasks a3))
                 (setEditorContent d a3))
        | Rejected _ => setIsGenerating false (setEditorContent DRAFT_ERROR a3)
        end
      else a2
  end.

(** The record written by exit, completion and autosave. *)
Definition persist (updated : list MicroTask) (a : App) : App :=
  localStorage_set (Some (serialize (mkPersisted (dna a) updated))) a.

(** The [setTasks] updater of [handleExitTask]: the list is updated and
    the record is written. *)
Definition save_current (a : App) : App :=
  let updated := flush a (tasks a) in
  setTasks updated (persist updated a).

Definition handleExitTask (a : App) : App :=
  setAppState DASHBOARD (if has_current a then save_current a else a).

Definition complete_current (a : App) : App :=
  let updated :=
    map (fun t => if is_current a t
                  then with_status TaskStatus.COMPLETED (with_content (editorContent a) t)
                  else t)
        (tasks a) in
  setTasks updated (persist updated a).

Definition handleCompleteTask (a : App) : App :=
  if has_current a then setAppState DASHBOARD (complete_current a) else a.

(** The autosave effect, when its one-second timer fires. *)
Definition autosave (a : App) : App :=
  match appState a with
  | WORKING => if has_current a then save_current a else a
  | _ => a
  end.

(** The task made of a descriptor: [{ ...p, id: crypto.randomUUID(), status,
    verificationStatus, chatHistory: [], agentType }]. *)
Definition new_task (uuid : jsstring) (p : Descriptor.t) : MicroTask :=
  mkTask uuid (Descriptor.title p) (Descriptor.description p)
         (Descriptor.estimatedMinutes p) TaskStatus.PENDING
         VerificationStatus.PENDING (Descriptor.agentType p) None
         (Descriptor.visualCode p) [].

(** [plan.map(p => ...)]; [randomUUID i] is what the [i]-th call of
    [crypto.randomUUID()] returns. *)
Fixpoint materialize (randomUUID : nat -> jsstring) (i : nat) (plan : list Descriptor.t)
  : list MicroTask :=
  match plan with
  | [] => []
  | p :: plan' => new_task (randomUUID i) p :: materialize randomUUID (S i) plan'
  end.

Definition RETRY_PROMPT : jsstring := js "Mission Generation Failed. Please Retry.".

(** [handleLaunch], up to the timer it sets: the state, and the task the
    timer will enter. *)
Definition handleLaunch (plan : outcome (list Descriptor.t))
    (randomUUID : nat -> jsstring) (a : App) : App * option jsstring :=
  let a1 := setIsGenerating true a in
  match plan with
  | Resolved ds =>
      let newTasks := materialize randomUUID 0 ds in
      let a2 := setShowMissionBrief false (setTasks newTasks a1) in
      match newTasks with
      | first :: _ => (setIsGenerating false a2, Some (id first))
      | [] => (setIsGenerating false (setAppState DASHBOARD a2), None)
      end
  | Rejected _ => (setIsGenerating false (alert RETRY_PROMPT a1), None)
  end.

(** [handleLaunch] followed by the [enterTask(newTasks[0].id, newTasks)] of
    its timer. *)
Definition launch (plan : outcome (list Descriptor.t)) (randomUUID : nat -> jsstring)
    (draft : outcome jsstring) (a : App) : App :=
  match handleLaunch plan randomUUID a with
  | (a', Some first) => enterTask first (tasks a') draft a'
  | (a', None) => a'
  end.

(** [resetApp]; [confirmed] is the answer to [window.confirm]. *)
Definition resetApp (confirmed : bool) (a : App) : App :=
  if confirmed then
    setEditorContent []
      (setCurrentTaskId None
         (setTasks []
            (setDna EMPTY_DNA
               (setAppState IDLE (localStorage_set None a)))))
  else a.

(** The load effect at start-up; [None] when [JSON.parse] throws or the
    stored record is not of the declared type. *)
Definition load (a : App) : option App :=
  match kinetic_state a with
  | None => Some a
  | Some saved =>
      if negb (truthy saved) then Some a
      else
        data <- deserialize saved ;;
        let a1 := setTasks (saved_tasks data) (setDna (saved_dna data) a) in
        Some (match saved_tasks data with
              | [] => a1
              | _ :: _ => setAppState DASHBOARD a1
              end)
  end.

(** The events of a session and the screens that offer them. *)
Inductive Event :=
| Initiate
| Synthesized (finalDNA : ProjectDNA)
| Launch (plan : outcome (list Descriptor.t)) (randomUUID : nat -> jsstring)
         (draft : outcome jsstring)
| Enter (taskId : jsstring) (draft : outcome jsstring)
| Edit (value : jsstring)
| Autosave
| ExitTask
| CompleteTask
| Reset (confirmed : bool).

Definition AppState_eqb (x y : AppState) : bool :=
  match x, y with
  | IDLE, IDLE | DNA_EXTRACTION, DNA_EXTRACTION | DASHBOARD, DASHBOARD
  | WORKING, WORKING | SUMMARY, SUMMARY => true
  | _, _ => false
  end.

Definition offered (e : Event) (a : App) : bool :=
  match e with
  | Initiate => AppState_eqb (appState a) IDLE
  | Synthesized _ =>
      AppState_eqb (appState a) DNA_EXTRACTION && negb (showMissionBrief a)
  | Launch _ _ _ => AppState_eqb (appState a) DNA_EXTRACTION && showMissionBrief a
  | Enter taskId _ =>
      AppState_eqb (appState a) DASHBOARD
      && existsb (fun t => jsstring_eqb (id t) taskId) (tasks a)
  | Reset _ => AppState_eqb (appState a) DASHBOARD
  | Edit _ | Autosave | ExitTask | CompleteTask =>
      AppState_eqb (appState a) WORKING || AppState_eqb (appState a) SUMMARY
  end.

Definition handle (e : Event) (a : App) : App :=
  match e with
  | Initiate => setAppState DNA_EXTRACTION a
  | Synthesized finalDNA => setShowMissionBrief true (setDna finalDNA a)
  | Launch plan randomUUID draft => launch plan randomUUID draft a
  | Enter taskId draft => enterTask taskId (tasks a) draft a
  | Edit value => setEditorContent value a
  | Autosave => autosave a
  | ExitTask => handleExitTask a
  | CompleteTask => handleCompleteTask a
  | Reset confirmed => resetApp confirmed a
  end.

(** The states of a session: from the first render with an empty store,
    each event is one the current screen offers. *)
Inductive reachable : App -> Prop :=
| reachable_initial : reachable (initial None)
| reachable_step e a : reachable a -> offered e a = true -> reachable (handle e a).

Definition run (es : list Event) (a : App) : App :=
  fold_left (fun s e => handle e s) es a.


(** The events of a list are offered one after the other. *)
Fixpoint offered_all (es : list Event) (a : App) : bool :=
  match es with
  | [] => true
  | e :: es' => offered e a && offered_all es' (handle e a)
  end.


(** The record an application state holds. *)
Definition persisted (a : App) : Persisted := mkPersisted (dna a) (tasks a).

(* ================================================================= *)
(** ** The other cleaners: cleanMermaid and extractCodeBlock *)

(** [s.includes(p)]: [p] occurs in [s] at some position. *)
Fixpoint includes (s p : jsstring) : bool :=
  starts_with p s
  || match s with
     | [] => false
     | _ :: s' => includes s' p
     end.

(** [\w] of a regular expression without flags; [\s] is [is_white_space]
    and a greedy [\s*] at the head of a text is [trimStart]. *)
Definition is_word_char (c : code_unit) : bool :=
  ((48 <=? c) && (c <=? 57) || (65 <=? c) && (c <=? 90) || (c =? 95)
   || (97 <=? c) && (c <=? 122))%N.

Fixpoint skip_word (s : jsstring) : jsstring :=
  match s with
  | [] => []
  | c :: s' => if is_word_char c then skip_word s' else s
  end.

Definition BACKTICK : code_unit := 96%N.
Definition NEWLINE : code_unit := 10%N.
Definition FENCE_MERMAID : jsstring := js "```mermaid".

(** [s.replace(/^p\s*/, '')] for a literal [p]: the pattern is tried at the
    start of the text only. *)
Definition remove_leading (p s : jsstring) : jsstring :=
  if starts_with p s then trimStart (skipn (length p) s) else s.

(** [s.replace(/```\s*$/, '')]: the first place where a fence is followed
    by white space up to the end of the text; the match runs to the end. *)
Fixpoint remove_trailing_fence (s : jsstring) : jsstring :=
  match s with
  | [] => []
  | c :: s' =>
      if starts_with FENCE s && forallb is_white_space (skipn (length FENCE) s)
      then []
      else c :: remove_trailing_fence s'
  end.

Definition cleanMermaid (text : jsstring) : jsstring :=
  trim (remove_trailing_fence
          (remove_leading FENCE (remove_leading FENCE_MERMAID text))).

Definition VISUAL_ERROR : jsstring := js "graph TD
A[Error] --> B[Could not visualize]".

(** [generateVisual]: the cleaned answer, or the fixed diagram of the
    [catch] branch. *)
Definition generateVisual (content : jsstring) (response : outcome Response)
  : jsstring :=
  match response with
  | Resolved r => cleanMermaid (text_or r [])
  | Rejected _ => VISUAL_ERROR
  end.

(** The text up to and including the first occurrence of [p]. *)
Fixpoint through_first (p s : jsstring) : option jsstring :=
  if starts_with p s then Some p
  else match s with
       | [] => None
       | c :: s' => option_map (cons c) (through_first p s')
       end.

(** [text.match(/```[\s\S]*?```/)]: at the first fence that has another
    fence after it, the text from the one through the other, the nearest. *)
Fixpoint match_fenced (s : jsstring) : option jsstring :=
  match s with
  | [] => None
  | c :: s' =>
      if starts_with FENCE s then
        match through_first FENCE (skipn (length FENCE) s) with
        | Some m => Some (FENCE ++ m)
        | None => match_fenced s'
        end
      else match_fenced s'
  end.

(** [s.replace(/```\w*\n?/, '')]: the first fence, the word characters
    after it and one line feed if it follows. *)
Definition skip_newline (s : jsstring) : jsstring :=
  match s with
  | [] => []
  | c :: s' => if N.eqb c NEWLINE then s' else s
  end.

Fixpoint remove_opening_fence (s : jsstring) : jsstring :=
  match s with
  | [] => []
  | c :: s' =>
      if starts_with FENCE s
      then skip_newline (skip_word (skipn (length FENCE) s))
      else c :: remove_opening_fence s'
  end.

(** [s.replace(/```$/, '')]: a fence that ends the text. *)
Fixpoint remove_final_fence (s : jsstring) : jsstring :=
  match s with
  | [] => []
  | c :: s' =>
      if starts_with FENCE s && (length s =? length FENCE)%nat
      then []
      else c :: remove_final_fence s'
  end.

(** [extractCodeBlock]; [None] is [null]. *)
Definition extractCodeBlock (text : jsstring) : option jsstring :=
  match match_fenced text with
  | Some m => Some (trim (remove_final_fence (remove_opening_fence m)))
  | None => None
  end.

(** [applyCodeBlock]: an empty code is falsy and is not applied. *)
Definition applyCodeBlock (text : jsstring) (a : App) : App :=
  match extractCodeBlock text with
  | Some code =>
      if truthy code then setViewMode EDIT (setEditorContent code a) else a
  | None => a
  end.

(* ================================================================= *)
(** ** The interview: generateFollowUp and Onboarding *)

Definition FALLBACK_QUESTIONS : list jsstring :=
  [js "Who specifically loses money or time if this problem isn't solved?";
   js "What is the one 'Unfair Advantage' you have over competitors?";
   js "Describe the 'Magic Moment' when a user realizes the value.";
   js "What is the biggest risk that could kill this project?"].

(** [generateFollowUp]: the trimmed answer of the service, or, when the call
    fails, the answer is empty or it occurs in the questions already asked,
    the stock question at [history.length % 4]. *)
Definition generateFollowUp (history : list QA) (response : outcome Response)
  : jsstring :=
  let previousQuestions := join (js " | ") (map question history) in
  let fallback :=
    nth (length history mod length FALLBACK_QUESTIONS)%nat FALLBACK_QUESTIONS [] in
  match response with
  | Resolved (Some t) =>
      let text := trim t in
      if negb (truthy text) || includes previousQuestions text
      then fallback
      else text
  | Resolved None => fallback
  | Rejected _ => fallback
  end.

(** The cells of the [Onboarding] component. *)
Module Onboarding.
Record t := mk {
  history : list QA;
  currentQ : jsstring;
  answer : jsstring;
  loading : bool
}.
End Onboarding.

Definition FIRST_QUESTION : jsstring := js "What is the core problem you are solving?".
Definition AUDIENCE_QUESTION : jsstring := js "Who is the specific target audience?".
Definition SYNTHESIZING : jsstring := js "Synthesizing Project DNA...".

Definition Onboarding_initial : Onboarding.t :=
  Onboarding.mk [] FIRST_QUESTION [] false.

(** What [handleNext] asks of its parent: nothing, [onComplete()] alone, or
    [setDna(finalDNA)] and then [onComplete()]. *)
Inductive Completion :=
| NotComplete
| Complete (finalDNA : option json).

(** [handleNext]; [followUp] and [synthesis] are what the awaited
    [generateFollowUp] and [synthesizeDNA] calls give. *)
Definition handleNext (followUp : list QA -> outcome jsstring)
    (synthesis : list QA -> jsstring -> outcome json) (rawContext : jsstring)
    (o : Onboarding.t) : Onboarding.t * Completion :=
  if negb (truthy (trim (Onboarding.answer o))) then (o, NotComplete)
  else
    let newHist :=
      Onboarding.history o ++ [mkQA (Onboarding.currentQ o) (Onboarding.answer o)] in
    if (length newHist <? 3)%nat then
      let next :=
        match followUp newHist with
        | Resolved q => q
        | Rejected _ => AUDIENCE_QUESTION
        end in
      (Onboarding.mk newHist next [] false, NotComplete)
    else
      (Onboarding.mk newHist SYNTHESIZING [] true,
       Complete (match synthesis newHist rawContext with
                 | Resolved finalDNA => Some finalDNA
                 | Rejected _ => None
                 end)).

(** The user types an answer and presses NEXT, one answer after the other,
    until the component hands over to its parent. *)
Fixpoint interview (followUp : list QA -> outcome jsstring)
    (synthesis : list QA -> jsstring -> outcome json) (rawContext : jsstring)
    (answers : list jsstring) (o : Onboarding.t) : Onboarding.t * Completion :=
  match answers with
  | [] => (o, NotComplete)
  | a :: answers' =>
      let typed :=
        Onboarding.mk (Onboarding.history o) (Onboarding.currentQ o) a
                      (Onboarding.loading o) in
      match handleNext followUp synthesis rawContext typed with
      | (o', NotComplete) => interview followUp synthesis rawContext answers' o'
      | (o', Complete d) => (o', Complete d)
      end
  end.


(** The two services as the component calls them. *)
Definition followUp_of (responses : list QA -> outcome Response)
  : list QA -> outcome jsstring :=
  fun h => Resolved (generateFollowUp h (responses h)).

Definition synthesis_of (responses : list QA -> outcome Response)
  : list QA -> jsstring -> outcome json :=
  fun h raw => Resolved (synthesizeDNA h raw (responses h)).

(* ================================================================= *)
(** ** Drafting: draftTaskContent *)

(** What the function reads of a [generateContent] answer: its text and the
    grounding chunks of its first candidate. *)
Module Web.
Record t := mk { title : option jsstring; uri : option jsstring }.
End Web.

Record GroundingChunk := mkChunk { web : option Web.t }.

Record GroundedResponse := mkGrounded {
  response_text : Response;
  groundingChunks : option (list GroundingChunk)
}.

(** A string, or [undefined], inside a template literal. *)
Definition interpolate (v : option jsstring) : jsstring :=
  match v with Some s => s | None => js "undefined" end.

(** [c.web?.uri ? `[${c.web.title}](${c.web.uri})` : null]. *)
Definition source_link (c : GroundingChunk) : option jsstring :=
  match web c with
  | Some w =>
      match Web.uri w with
      | Some u =>
          if truthy u
          then Some (js "[" ++ interpolate (Web.title w) ++ js "](" ++ u ++ js ")")
          else None
      | None => None
      end
  | None => None
  end.

(** The chunk gives a link: it has a [web] part whose [uri] is not empty. *)
Definition has_link (c : GroundingChunk) : bool :=
  match source_link c with Some _ => true | None => false end.

(** [.filter(Boolean)] on strings and [null]. *)
Fixpoint filter_Boolean (l : list (option jsstring)) : list jsstring :=
  match l with
  | [] => []
  | Some s :: l' => if truthy s then s :: filter_Boolean l' else filter_Boolean l'
  | None :: l' => filter_Boolean l'
  end.

Definition NO_CONTENT : jsstring := js "// No content generated. Please try again.".
Definition DRAFT_FAILED : jsstring :=
  js "Error generating draft. Please check your API key or connection.".
Definition SOURCES_HEADER : jsstring := js "

### Sources
".

Definition is_researcher (x : AgentType) : bool :=
  match x with RESEARCHER => true | _ => false end.

Definition draftTaskContent (task : MicroTask) (dna : ProjectDNA)
    (previousContext : jsstring) (response : outcome GroundedResponse) : jsstring :=
  match response with
  | Rejected _ => DRAFT_FAILED
  | Resolved r =>
      let text := text_or (response_text r) [] in
      if negb (truthy text) then NO_CONTENT
      else
        match groundingChunks r with
        | Some chunks =>
            if is_researcher (agentType task) then
              let links := join [NEWLINE] (filter_Boolean (map source_link chunks)) in
              if truthy links then text ++ SOURCES_HEADER ++ links else text
            else text
        | None => text
        end
  end.

(** [currentTaskList.filter(t => t.status === COMPLETED).map(t => t.content)
    .join('\n---\n')]: an undefined content joins as the empty string. *)
Definition is_completed (t : MicroTask) : bool :=
  match status t with TaskStatus.COMPLETED => true | _ => false end.

Definition previousWork (currentTaskList : list MicroTask) : jsstring :=
  join (js "
---
") (map content_or_empty (filter is_completed currentTaskList)).

(** The list [enterTask] searches: the given list with the editor flushed
    into it when there is a current task. *)
Definition entered_list (a : App) (currentTaskList : list MicroTask) : list MicroTask :=
  if has_current a then flush a currentTaskList else currentTaskList.

(** [enterTask] with the draft that [draftTaskContent] gives for the task
    it finds; when it finds none it returns before the draft is asked for,
    so the outcome passed there is never read. *)
Definition enterTask_drafting (taskId : jsstring) (currentTaskList : list MicroTask)
    (response : outcome GroundedResponse) (a : App) : App :=
  match find (fun t => jsstring_eqb (id t) taskId) (entered_list a currentTaskList) with
  | Some task =>
      enterTask taskId currentTaskList
        (Resolved (draftTaskContent task (dna a)
                     (previousWork (entered_list a currentTaskList)) response))
        a
  | None => enterTask taskId currentTaskList (Rejected CallFailed) a
  end.

(* ================================================================= *)
(** ** Interventions and the chat *)

(** A literal below or at half the smallest double reads as zero: the
    value [0.ds * 10^pt] is at most [2^-1075]. *)
Definition rounds_to_zero (ds : list N) (pt : Z) : bool :=
  let k := Z.of_nat (length ds) in
  if pt <? -400 then true
  else if k <=? pt then false
  else Z.of_N (digits_value ds) * 2 ^ 1075 <=? 10 ^ (k - pt).

(** ToBoolean of a parsed value; [None] is [undefined]. *)
Definition ToBoolean (v : option json) : bool :=
  match v with
  | None => false
  | Some JNull => false
  | Some (JBool b) => b
  | Some (JNum (Finite d)) =>
      match digits d with
      | [] => false
      | _ :: _ => negb (rounds_to_zero (digits d) (point d))
      end
  | Some (JNum (Infinity _)) => true
  | Some (JNum NaN) => false
  | Some (JStr s) => truthy s
  | Some (JArr _) => true
  | Some (JObj _) => true
  end.

(** [result.key] for a property name that no prototype defines: a TypeError
    on [null], the own property of an object, [undefined] otherwise. *)
Definition get_property (k : jsstring) (v : json) : option (option json) :=
  match v with
  | JNull => None
  | JObj o => Some (obj_get k o)
  | _ => Some None
  end.

(** What [generateIntervention] returns when it does not return [null]:
    [{ shouldInterrupt: true, message, agentPersona }]. *)
Record Intervention := mkIntervention {
  message : option json;
  agentPersona : option json
}.

Definition generateIntervention (currentContent : jsstring) (dna : ProjectDNA)
    (response : outcome Response) : option Intervention :=
  match response with
  | Rejected _ => None
  | Resolved r =>
      if negb (truthy (text_or r [])) then None
      else
        match JSON_parse (cleanJson (text_or r [])) with
        | None => None
        | Some result =>
            match get_property (js "shouldInterrupt") result with
            | None => None
            | Some flag =>
                if negb (ToBoolean flag) then None
                else Some (mkIntervention (field (js "message") result)
                                          (field (js "agentPersona") result))
            end
        end
  end.

Definition LISTENING : jsstring := js "I'm listening...".
Definition UNSTABLE : jsstring := js "Connection unstable.".

Definition chatWithAgent (message : jsstring) (task : MicroTask)
    (currentContent : jsstring) (dna : ProjectDNA) (personality : AgentPersonality)
    (response : outcome Response) : jsstring :=
  match response with
  | Resolved r => text_or r LISTENING
  | Rejected _ => UNSTABLE
  end.

(** The cells of [App] that belong to the chat panel and the toast. *)
Record Toast := mkToast {
  toast_message : jsstring;
  persona : AgentPersonality
}.

Record Panel := mkPanel {
  chatInput : jsstring;
  isChatting : bool;
  showChat : bool;
  showToast : option Toast
}.

(** [{ ...t, chatHistory: [...t.chatHistory, msg] }]. *)
Definition with_message (msg : ChatMessage.t) (t : MicroTask) : MicroTask :=
  mkTask (id t) (title t) (description t) (estimatedMinutes t) (status t)
         (verificationStatus t) (agentType t) (content t) (visualCode t)
         (chatHistory t ++ [msg]).

(** [prev.map(t => t.id === currentTaskId ? {...} : t)], with the pointer
    of the render [a] that made the closure. *)
Definition post (a : App) (msg : ChatMessage.t) (prev : list MicroTask)
  : list MicroTask :=
  map (fun t => if is_current a t then with_message msg t else t) prev.

(** [handleChatSubmit]; [reply] is what the awaited [chatWithAgent] gives
    for the task found, [uuid1], [uuid2], [now1], [now2] what the calls of
    [crypto.randomUUID()] and [Date.now()] give. *)
Definition handleChatSubmit (uuid1 uuid2 : jsstring) (now1 now2 : Z)
    (reply : MicroTask -> outcome jsstring) (s : App * Panel) : App * Panel :=
  let (a, p) := s in
  if negb (truthy (trim (chatInput p))) || negb (has_current a) then s
  else
    match find (is_current a) (tasks a) with
    | None => s
    | Some task =>
        let userMsg :=
          ChatMessage.mk uuid1 ChatMessage.user (chatInput p) (of_Z now1)
                         (Some (js "You")) None in
        let a1 := setTasks (post a userMsg (tasks a)) a in
        let a2 :=
          match reply task with
          | Resolved response =>
              let aiMsg :=
                ChatMessage.mk uuid2 ChatMessage.ai response (of_Z now2)
                               (Some (AgentType_name (agentType task)))
                               (Some DEFAULT) in
              setTasks (post a aiMsg (tasks a1)) a1
          | Rejected _ => a1
          end in
        (a2, mkPanel [] false (showChat p) (showToast p))
    end.

(** The reply as the handler asks for it. *)
Definition reply_of (a : App) (p : Panel) (response : outcome Response)
  : MicroTask -> outcome jsstring :=
  fun task =>
    Resolved (chatWithAgent (chatInput p) task (editorContent a) (dna a) DEFAULT
                            response).

(** The test of the intervention interval, on the cells of the render
    [armed] that set it. *)
Definition intervention_due (armed : App) (combo : nat) : bool :=
  (combo <? 3)%nat && (100 <? length (editorContent armed))%nat
  && negb (isGenerating armed).

(** The callback of the intervention interval.  The message and the persona
    are read at their declared types, [string] and [AgentPersonality];
    [None] when the answer of the service is not of these types. *)
Definition intervene (armed : App) (combo : nat) (now : Z) (uuid : jsstring)
    (response : outcome Response) (s : App * Panel) : option (App * Panel) :=
  let (a, p) := s in
  if intervention_due armed combo then
    match generateIntervention (editorContent armed) (dna armed) response with
    | None => Some s
    | Some i =>
        m <- as_string (message i) ;;
        name <- as_string (agentPersona i) ;;
        pe <- AgentPersonality_of name ;;
        let msg :=
          ChatMessage.mk uuid ChatMessage.ai m (of_Z now) (Some name) (Some pe) in
        Some (setTasks (post armed msg (tasks a)) a,
              mkPanel (chatInput p) (isChatting p) (showChat p)
                      (Some (mkToast m pe)))
    end
  else Some s.

(* ================================================================= *)
(** ** The autosave timer and the render that set it *)

(** The callback of the autosave timer reads [currentTaskId],
    [editorContent], [dna] and [tasks] of the render [armed] that set it; the
    [setTasks] updater works on the list of the moment. *)
Definition autosave_fired (armed a : App) : App :=
  setTasks (flush armed (tasks a))
    (localStorage_set
       (Some (serialize (mkPersisted (dna armed) (flush armed (tasks armed))))) a).

(** The effect sets the timer in the Working view with a current task. *)
Definition autosave_armed (a : App) : bool :=
  AppState_eqb (appState a) WORKING && has_current a.

(* ================================================================= *)
(** ** The velocity loop and the chart *)

Record VelocityPoint := mkPoint { time : jsstring; score : Z }.

(** A score the chart can show. *)
Definition in_range (p : VelocityPoint) : Prop := 0 <= score p <= 100.

(** The cells and refs of the flow state. *)
Record Flow := mkFlow {
  velocityData : list VelocityPoint;
  flowState : bool;
  combo : nat;
  keystrokesRef : nat;
  lastKeystrokeRef : Z
}.

Definition Flow_initial : Flow := mkFlow [] false 0 0 0.

(** [l.slice(-n)]. *)
Definition slice_last {A : Type} (n : nat) (l : list A) : list A :=
  skipn (length l - n) l.

(** The callback of the one-second interval; [stamp] and [now] are what
    its two calls of [Date.now()] give.  The updater of [setVelocityData]
    is taken to run when it is passed, before the counter is cleared. *)
Definition tick (stamp now : Z) (f : Flow) : Flow :=
  let score := Z.min 100 (Z.of_nat (keystrokesRef f) * 12) in
  let newPoints := velocityData f ++ [mkPoint (Number_toString (of_Z stamp)) score] in
  let idle := 3000 <? now - lastKeystrokeRef f in
  mkFlow (slice_last 50 newPoints)
         (if idle then false else flowState f)
         (if idle then 0%nat else combo f)
         0
         (lastKeystrokeRef f).

Definition handleKeystroke (now : Z) (f : Flow) : Flow :=
  let newCombo := S (combo f) in
  mkFlow (velocityData f)
         (if (15 <? newCombo)%nat then true else flowState f)
         newCombo
         (S (keystrokesRef f))
         now.

Inductive FlowEvent :=
| Keystroke (now : Z)
| Tick (stamp now : Z).

Definition flow_step (f : Flow) (e : FlowEvent) : Flow :=
  match e with
  | Keystroke now => handleKeystroke now f
  | Tick stamp now => tick stamp now f
  end.

Definition flow_run (es : list FlowEvent) (f : Flow) : Flow :=
  fold_left flow_step es f.

(** [VelocityChart]: the series given to the chart. *)
Definition safeData (data : list VelocityPoint) : list VelocityPoint :=
  match data with
  | [] => [mkPoint (js "0") 0; mkPoint (js "1") 0]
  | _ :: _ => data
  end.

(* ================================================================= *)
(** ** Tasks kept in place *)

(** [t'] is the task [t] after some handler: the identity and the fields
    that come from the plan are the same, the status is the same or has
    become IN_PROGRESS or COMPLETED, a content once set is still set, and
    the chat history has only grown. *)
Definition same_task (t t' : MicroTask) : Prop :=
  id t' = id t /\ title t' = title t /\ description t' = description t
  /\ estimatedMinutes t' = estimatedMinutes t
  /\ verificationStatus t' = verificationStatus t
  /\ agentType t' = agentType t /\ visualCode t' = visualCode t
  /\ (status t' = status t \/ status t' = TaskStatus.IN_PROGRESS
      \/ status t' = TaskStatus.COMPLETED)
  /\ (content t' = None -> content t = None)
  /\ exists more, chatHistory t' = chatHistory t ++ more.

Definition kept (ts ts' : list MicroTask) : Prop := Forall2 same_task ts ts'.

(** The statuses the handlers give. *)
Definition settled (t : MicroTask) : Prop :=
  (status t = TaskStatus.PENDING \/ status t = TaskStatus.IN_PROGRESS
   \/ status t = TaskStatus.COMPLETED)
  /\ verificationStatus t = VerificationStatus.PENDING.

(** What holds of every state of a session. *)
Record session_invariant (a : App) : Prop := mkInvariant {
  never_summary : appState a <> SUMMARY;
  working_on_listed :
    appState a = WORKING ->
    exists t, In t (tasks a) /\ currentTaskId a = Some (id t);
  no_tasks_before_launch :
    appState a = IDLE \/ appState a = DNA_EXTRACTION -> tasks a = [];
  all_settled : Forall settled (tasks a);
  not_generating : isGenerating a = false
}.

(* ================================================================= *)
(** ** The audio engine *)

(** The fields of [AudioEngine] that its methods test ([ctx] and [gainNode]
    are created together), the noise sources that were started and not yet
    stopped, the number of sources created so far, which names the next
    one, and the number of [setTimeout] callbacks of [stop] still to run.
    The samples of the buffer and the gain ramps are not represented. *)
Record AudioEngine := mkAudio {
  ctx : bool;
  noiseNode : option nat;
  isPlaying : bool;
  sounding : list nat;
  created : nat;
  fading : nat
}.

Definition sonicCortex : AudioEngine := mkAudio false None false [] 0 0.

Definition playFocusNoise (e : AudioEngine) : AudioEngine :=
  if isPlaying e then e
  else mkAudio true (Some (created e)) true (created e :: sounding e)
               (S (created e)) (fading e).

Definition stop (e : AudioEngine) : AudioEngine :=
  if negb (isPlaying e) || negb (ctx e) then e
  else mkAudio (ctx e) (noiseNode e) (isPlaying e) (sounding e) (created e)
               (S (fading e)).

(** One callback of [stop] runs, 1100 ms after the call that set it:
    [noiseNode?.stop(); noiseNode = null; isPlaying = false]. *)
Definition stop_timeout (e : AudioEngine) : AudioEngine :=
  match fading e with
  | O => e
  | S k =>
      mkAudio (ctx e) None false
              (match noiseNode e with
               | Some n => filter (fun m => negb (Nat.eqb m n)) (sounding e)
               | None => sounding e
               end)
              (created e) k
  end.

Inductive AudioEvent := Play | Stop | StopTimeout.

Definition audio_step (e : AudioEngine) (x : AudioEvent) : AudioEngine :=
  match x with
  | Play => playFocusNoise e
  | Stop => stop e
  | StopTimeout => stop_timeout e
  end.

Definition audio_run (xs : list AudioEvent) (e : AudioEngine) : AudioEngine :=
  fold_left audio_step xs e.

(** The audio effect of [App], run when [appState] or [audioEnabled]
    changes. *)
Definition audio_effect (a : App) (e : AudioEngine) : AudioEngine :=
  if AppState_eqb (appState a) WORKING && audioEnabled a
  then playFocusNoise e
  else stop e.

(** [toggleAudio]. *)
Definition toggleAudio (a : App) : App := setAudioEnabled (negb (audioEnabled a)) a.

(** The engine holds one source while it plays and none otherwise. *)
Definition one_source (e : AudioEngine) : Prop :=
  if isPlaying e
  then ctx e = true /\ exists n, noiseNode e = Some n /\ sounding e = [n]
  else noiseNode e = None /\ sounding e = [].

(* ================================================================= *)
(** ** The moves of the view *)

(** The moves of the view that the screens allow. *)
Definition view_move (x y : AppState) : bool :=
  match x, y with
  | IDLE, DNA_EXTRACTION => true
  | DNA_EXTRACTION, (DNA_EXTRACTION | DASHBOARD | WORKING) => true
  | DASHBOARD, (DASHBOARD | WORKING | IDLE) => true
  | WORKING, (WORKING | DASHBOARD) => true
  | SUMMARY, (SUMMARY | DASHBOARD) => true
  | _, _ => false
  end.

(* ================================================================= *)
(** ** Well-formed values *)

(** The decimal of a Number: digits below ten, no leading and no trailing
    zero, and the one representation of zero. *)
Definition canonical (d : decimal) : bool :=
  match digits d with
  | [] => negb (negative d) && (point d =? 0)
  | d1 :: _ =>
      forallb (fun x => N.ltb x 10) (digits d)
      && negb (N.eqb d1 0) && negb (N.eqb (last (digits d) 1%N) 0)
  end.

(** A finite Number: a canonical decimal within the range of the doubles. *)
Definition finite_number (x : number) : bool :=
  match x with
  | Finite d => canonical d && negb (overflows (digits d) (point d))
  | _ => false
  end.

Fixpoint distinct (ks : list jsstring) : bool :=
  match ks with
  | [] => true
  | k :: ks' => negb (existsb (jsstring_eqb k) ks') && distinct ks'
  end.

(** Values that [JSON.stringify] writes without loss: finite numbers, and
    objects whose property names are pairwise distinct. *)
Fixpoint plain (v : json) : bool :=
  match v with
  | JNum x => finite_number x
  | JArr items => forallb plain items
  | JObj members =>
      distinct (map fst members) && forallb (fun kv => plain (snd kv)) members
  | _ => true
  end.

(** The fuel that reading a printed value takes. *)
Fixpoint weight (v : json) : nat :=
  match v with
  | JArr items => S (list_sum (map (fun x => S (weight x)) items))
  | JObj members => S (list_sum (map (fun kv => S (weight (snd kv))) members))
  | _ => 1%nat
  end.

(** What may follow a number in a text. *)
Definition ends_number (rest : jsstring) : bool :=
  match rest with
  | [] => true
  | c :: _ => negb (is_digit c || N.eqb c 46 || N.eqb c 101 || N.eqb c 69)
  end.

Definition finite_message (m : ChatMessage.t) : bool :=
  finite_number (ChatMessage.timestamp m).

Definition finite_task (t : MicroTask) : bool :=
  finite_number (estimatedMinutes t) && forallb finite_message (chatHistory t).

(** Every estimate and every time stamp of the record is a finite Number. *)
Definition finite_numbers (p : Persisted) : bool :=
  forallb finite_task (saved_tasks p).

(** *** Reading a printed value back *)

(** Reading back what was printed, whatever follows it and with any fuel
    above the weight. *)
Definition reads_back (v : json) : Prop :=
  plain v = true ->
  forall fuel rest,
    (weight v <= fuel)%nat -> ends_number rest = true ->
    parse_value fuel (JSON_stringify v ++ rest) = Some (v, rest).

Definition member_text (kv : jsstring * json) : jsstring :=
  quote (fst kv) ++ js ":" ++ JSON_stringify (snd kv).

Definition set_member (o : list (jsstring * json)) (kv : jsstring * json)
  : list (jsstring * json) := obj_set o (fst kv) (snd kv).

(* ================================================================= *)
(** ** A sample session *)

Definition demo_uuid (i : nat) : jsstring :=
  js "task-" ++ digit_chars (N_digits (N.of_nat i)).

Definition demo_plan : list Descriptor.t :=
  [Descriptor.mk (js "Compile pricing matrix") (js "A table of five competitors")
                 (of_Z 30) RESEARCHER None;
   Descriptor.mk (js "Write launch note") (js "One page") (of_Z 20) WRITER None].

Definition demo_dna : ProjectDNA :=
  mkDNA (js "Founders") (js "Slow starts") (js "Direct") (js "Fluff") (js "High") [].

(** The interview ends, the plan is launched and its first task drafted,
    and the user leaves that task. *)
Definition demo_events : list Event :=
  [Initiate; Synthesized demo_dna;
   Launch (Resolved demo_plan) demo_uuid (Resolved (js "draft A"));
   ExitTask].

Definition demo_dashboard : App := run demo_events (initial None).

(** The user then opens the second task. *)
Definition demo_second : Event := Enter (demo_uuid 1) (Resolved (js "draft B")).

Definition demo_entered : App := handle demo_second demo_dashboard.

Definition demo_second_task : MicroTask :=
  nth 1 (tasks demo_entered) (new_task [] (Descriptor.mk [] [] NaN WRITER None)).

(** A plan response of five descriptors, as text and as read. *)
Definition demo_plan_text : jsstring :=
  jsq "```json
[{'title':'Map the buyers','description':'List ten named accounts','estimatedMinutes':25,'agentType':'RESEARCHER'},
 {'title':'Draft the pitch','description':'One page, no jargon','estimatedMinutes':40,'agentType':'WRITER'},
 {'title':'Build the demo','description':'A script that runs end to end','estimatedMinutes':90,'agentType':'CODER'},
 {'title':'Price the offer','description':'Three tiers with margins','estimatedMinutes':30,'agentType':'STRATEGIST'},
 {'title':'Write the follow-up','description':'Two emails','estimatedMinutes':15,'agentType':'WRITER'}]
```".

Definition demo_plan5 : list Descriptor.t :=
  [Descriptor.mk (js "Map the buyers") (js "List ten named accounts") (of_Z 25) RESEARCHER None;
   Descriptor.mk (js "Draft the pitch") (js "One page, no jargon") (of_Z 40) WRITER None;
   Descriptor.mk (js "Build the demo") (js "A script that runs end to end") (of_Z 90) CODER None;
   Descriptor.mk (js "Price the offer") (js "Three tiers with margins") (of_Z 30) STRATEGIST None;
   Descriptor.mk (js "Write the follow-up") (js "Two emails") (of_Z 15) WRITER None].

Definition demo_brief : App := run [Initiate; Synthesized demo_dna] (initial None).

(** An answer of the synthesis call: prose around a fenced object. *)
Definition demo_answer_pre : jsstring := js "Here is the DNA:

".
Definition demo_answer_mid : jsstring := jsq "'audience':'Founders','tone':'Direct'".
Definition demo_answer_post : jsstring := js "

Hope it helps.".
Definition demo_answer : jsstring :=
  js "  Here is the DNA:
```json
" ++ [LBRACE] ++ demo_answer_mid ++ [RBRACE] ++ js "
```
Hope it helps.
".

(** An answer that holds no object at all, inside a fence. *)
Definition demo_plain_text : jsstring :=
  js "   ```json
no plan today
```  ".

Definition demo_history : list QA :=
  [mkQA (js "What is the core problem you are solving?") (js "Slow starts");
   mkQA (js "Who loses time?") (js "Founders");
   mkQA (js "What is the biggest risk?") (js "Fluff")].

(** A plan whose estimate is beyond the range of the doubles. *)
Definition demo_huge_text : jsstring :=
  jsq "[{'title':'Ship','description':'All of it','estimatedMinutes':1e999,'agentType':'CODER'}]".

Definition demo_huge_plan : list Descriptor.t :=
  [Descriptor.mk (js "Ship") (js "All of it") (Infinity false) CODER None].

Definition demo_huge : App :=
  run [Initiate; Synthesized demo_dna;
       Launch (Resolved demo_huge_plan) demo_uuid (Resolved (js "draft"));
       ExitTask]
      (initial None).

(** *** More sample data *)

(** The second task of the sample session, before it is opened. *)
Definition demo_pending_task : MicroTask := new_task (demo_uuid 1) (nth 1 demo_plan
  (Descriptor.mk [] [] NaN WRITER None)).

Definition demo_intervention_text : jsstring :=
  jsq "{'shouldInterrupt': true, 'message': 'Too generic.', 'agentPersona': 'SKEPTIC'}".

(** A text whose closing brace comes before its opening brace. *)
Definition demo_reversed : jsstring := js "done} and {open".

Definition demo_diagram : jsstring := js "  graph TD
A-->B
 ".

Definition demo_fenced_body : jsstring := js "graph TD
A-->B
".

Definition demo_reply_pre : jsstring := js "Try this: ".

Definition demo_reply_code : jsstring := js "let x = 1;
".

Definition demo_inline_rest : jsstring := js " x = 1".

Definition demo_chunks : list GroundingChunk :=
  [mkChunk (Some (Web.mk (Some (js "Pricing")) (Some (js "https://a.example/p"))));
   mkChunk None;
   mkChunk (Some (Web.mk None (Some (js "https://b.example"))));
   mkChunk (Some (Web.mk (Some (js "No address")) (Some [])))].

Definition demo_grounded : GroundedResponse :=
  mkGrounded (Some (js "Five competitors.")) (Some demo_chunks).

Definition demo_research_task : MicroTask := new_task (js "task-0") (nth 0 demo_plan5
  (Descriptor.mk [] [] NaN RESEARCHER None)).

Definition demo_panel : Panel := mkPanel (js "Shorter, please") false true None.

Definition demo_chat_message : ChatMessage.t :=
  ChatMessage.mk (js "m-1") ChatMessage.user (js "Shorter, please") (of_Z 1700000000000)
                 (Some (js "You")) None.

Definition demo_chatted : App :=
  setTasks (post demo_entered demo_chat_message (tasks demo_entered)) demo_entered.


(* ================================================================= *)
(** * Properties *)

Example cleanJson_fenced :
  cleanJson (jsq "```json
{'a':1}
```") = jsq "{'a':1}".
Proof. reflexivity. Qed.

Example cleanJson_preamble :
  cleanJson (jsq "Here is the plan: [1,2] thanks") = jsq "[1,2]".
Proof. reflexivity. Qed.

Example parse_plan_text :
  JSON_parse (jsq "[{'title':'T','estimatedMinutes':25, 'x':[true,null,-1.5e3]}]")
  = Some (JArr [JObj [(js "title", JStr (js "T"));
                      (js "estimatedMinutes", JNum (Finite (mkDecimal false [2;5]%N 2)));
                      (js "x", JArr [JBool true; JNull;
                                     JNum (Finite (mkDecimal true [1;5]%N 4))])]]).
Proof. vm_compute. reflexivity. Qed.

Example parse_overflow :
  JSON_parse (js "1e999") = Some (JNum (Infinity false)).
Proof. vm_compute. reflexivity. Qed.

Example parse_rejects_prose :
  JSON_parse (jsq "{is} the JSON: {'a':1}") = None.
Proof. vm_compute. reflexivity. Qed.

Example stringify_sample :
  JSON_stringify (JObj [(js "a", JNum (of_Z 1500)); (js "b", JStr [10; 55357; 34]%N);
                        (js "c", JArr [JNum (Finite (mkDecimal false [5]%N (-7)));
                                       JNum (Finite (mkDecimal true [1;2;5]%N 1));
                                       JNum (Infinity false)])])
  = jsq "{'a':1500,'b':'\n\ud83d\'','c':[5e-8,-1.25,null]}".
Proof. vm_compute. reflexivity. Qed.

(* ----------------------------------------------------------------- *)
(** ** Strings *)

Lemma jsstring_eqb_eq (a b : jsstring) : jsstring_eqb a b = true <-> a = b.
Proof.
  revert b; induction a as [|x a IH]; intros [|y b]; simpl; split;
    try congruence; try reflexivity.
  - intros H. apply andb_true_iff in H as [Hx Hab].
    apply N.eqb_eq in Hx. apply IH in Hab. congruence.
  - intros H. injection H as -> ->. rewrite N.eqb_refl. simpl. now apply IH.
Qed.

Lemma jsstring_eqb_refl (a : jsstring) : jsstring_eqb a a = true.
Proof. now apply jsstring_eqb_eq. Qed.

Lemma jsstring_eqb_neq (a b : jsstring) : jsstring_eqb a b = false <-> a <> b.
Proof.
  split.
  - intros H E. apply jsstring_eqb_eq in E. congruence.
  - intros H. destruct (jsstring_eqb a b) eqn:E; [|reflexivity].
    apply jsstring_eqb_eq in E. contradiction.
Qed.

Lemma truthy_true (s : jsstring) : truthy s = true <-> s <> [].
Proof. destruct s; simpl; split; congruence. Qed.

(* ----------------------------------------------------------------- *)
(** ** The session state machine *)

Lemma reachable_run (es : list Event) (a : App) :
  reachable a -> offered_all es a = true -> reachable (run es a).
Proof.
  revert a; induction es as [|e es IH]; intros a Ha Hes; simpl in *.
  - exact Ha.
  - apply andb_true_iff in Hes as [He Hes].
    apply IH; [now apply reachable_step | exact Hes].
Qed.

Lemma has_current_spec (a : App) :
  has_current a = true <-> exists c, currentTaskId a = Some c /\ c <> [].
Proof.
  unfold has_current. destruct (currentTaskId a) as [c|].
  - rewrite truthy_true. split.
    + intros H. now exists c.
    + intros (c' & E & H). congruence.
  - split; [discriminate | intros (c & E & _); discriminate].
Qed.

Lemma is_current_spec (a : App) (t : MicroTask) :
  is_current a t = true <-> currentTaskId a = Some (id t).
Proof.
  unfold is_current. destruct (currentTaskId a) as [c|].
  - rewrite jsstring_eqb_eq. split; congruence.
  - split; discriminate.
Qed.


Lemma flush_ids (a : App) (ts : list MicroTask) :
  map id (flush a ts) = map id ts.
Proof.
  unfold flush. rewrite map_map. apply map_ext.
  intros t. destruct (is_current a t); reflexivity.
Qed.







(* ----------------------------------------------------------------- *)
(** ** Leaving and completing a task *)

(** C3: when the current-task pointer holds an id, leaving or completing
    the task first produces a state in which the view is still unchanged,
    every task with that id has the editor content (and, on completion, the
    status COMPLETED), and the storage key holds the serialization of
    [{dna, tasks}] with those tasks; the view is set to DASHBOARD on top of
    that state. *)
Theorem exit_and_complete_persist (a : App) (c : jsstring) :
  currentTaskId a = Some c -> c <> [] ->
  (exists saved,
      handleExitTask a = setAppState DASHBOARD saved
      /\ appState saved = appState a
      /\ tasks saved
         = map (fun t => if jsstring_eqb (id t) c
                         then with_content (editorContent a) t else t) (tasks a)
      /\ (forall t, In t (tasks saved) -> id t = c ->
                    content t = Some (editorContent a))
      /\ kinetic_state saved
         = Some (JSON_stringify (Persisted_value (mkPersisted (dna a) (tasks saved)))))
  /\ (exists saved,
      handleCompleteTask a = setAppState DASHBOARD saved
      /\ appState saved = appState a
      /\ tasks saved
         = map (fun t => if jsstring_eqb (id t) c
                         then with_status TaskStatus.COMPLETED
                                (with_content (editorContent a) t)
                         else t) (tasks a)
      /\ (forall t, In t (tasks saved) -> id t = c ->
                    content t = Some (editorContent a)
                    /\ status t = TaskStatus.COMPLETED)
      /\ kinetic_state saved
         = Some (JSON_stringify (Persisted_value (mkPersisted (dna a) (tasks saved)))))
  /\ appState (handleExitTask a) = DASHBOARD
  /\ appState (handleCompleteTask a) = DASHBOARD.
Proof.
  intros Hc Hne.
  assert (Hhas : has_current a = true) by (apply has_current_spec; eauto).
  assert (Hcur : forall t, is_current a t = jsstring_eqb (id t) c).
  { intros t. unfold is_current. now rewrite Hc. }
  unfold handleExitTask, handleCompleteTask. rewrite Hhas.
  split; [|split; [|split; reflexivity]].
  - exists (save_current a). split; [reflexivity|]. split; [reflexivity|].
    assert (Ht : tasks (save_current a)
                 = map (fun t => if jsstring_eqb (id t) c
                                 then with_content (editorContent a) t else t)
                       (tasks a)).
    { simpl. unfold flush. apply map_ext. intros t. now rewrite Hcur. }
    split; [exact Ht|]. split; [|reflexivity].
    intros t Hin Hid. rewrite Ht in Hin. apply in_map_iff in Hin as (t0 & <- & _).
    destruct (jsstring_eqb (id t0) c) eqn:E; [reflexivity|].
    apply jsstring_eqb_neq in E. contradiction.
  - exists (complete_current a). split; [reflexivity|]. split; [reflexivity|].
    assert (Ht : tasks (complete_current a)
                 = map (fun t => if jsstring_eqb (id t) c
                                 then with_status TaskStatus.COMPLETED
                                        (with_content (editorContent a) t)
                                 else t)
                       (tasks a)).
    { simpl. apply map_ext. intros t. now rewrite Hcur. }
    split; [exact Ht|]. split; [|reflexivity].
    intros t Hin Hid. rewrite Ht in Hin. apply in_map_iff in Hin as (t0 & <- & _).
    destruct (jsstring_eqb (id t0) c) eqn:E; [split; reflexivity|].
    apply jsstring_eqb_neq in E. contradiction.
Qed.

Lemma exit_and_complete_persist_witness :
  currentTaskId demo_entered = Some (demo_uuid 1)
  /\ demo_uuid 1 <> []
  /\ appState (handleExitTask demo_entered) = DASHBOARD
  /\ appState (handleCompleteTask demo_entered) = DASHBOARD.
Proof.
  assert (H1 : currentTaskId demo_entered = Some (demo_uuid 1))
    by (vm_compute; reflexivity).
  assert (H2 : demo_uuid 1 <> []) by (vm_compute; discriminate).
  split; [exact H1|]. split; [exact H2|].
  exact (proj2 (proj2 (@exit_and_complete_persist demo_entered (demo_uuid 1) H1 H2))).
Defined.

(* ----------------------------------------------------------------- *)
(** ** Launching a plan *)

Lemma materialize_nth (uuid : nat -> jsstring) (plan : list Descriptor.t) (k i : nat) :
  nth_error (materialize uuid k plan) i
  = option_map (new_task (uuid (k + i)%nat)) (nth_error plan i).
Proof.
  revert k i; induction plan as [|p plan IH]; intros k [|i]; simpl; try reflexivity.
  - now rewrite Nat.add_0_r.
  - rewrite IH. now rewrite Nat.add_succ_r.
Qed.

Lemma materialize_length (uuid : nat -> jsstring) (plan : list Descriptor.t) (k : nat) :
  length (materialize uuid k plan) = length plan.
Proof. revert k; induction plan; intros k; simpl; auto. Qed.

Lemma materialize_ids (uuid : nat -> jsstring) (plan : list Descriptor.t) (k : nat) :
  map id (materialize uuid k plan) = map uuid (seq k (length plan)).
Proof. revert k; induction plan as [|p plan IH]; intros k; simpl; [|rewrite IH]; auto. Qed.

Lemma NoDup_map_seq (uuid : nat -> jsstring) (k n : nat) :
  (forall i j, (k <= i < k + n)%nat -> (k <= j < k + n)%nat -> uuid i = uuid j -> i = j) ->
  NoDup (map uuid (seq k n)).
Proof.
  revert k; induction n as [|n IH]; intros k Hinj; simpl; constructor.
  - intros Hin. apply in_map_iff in Hin as (j & Hj & Hseq).
    apply in_seq in Hseq. apply Hinj in Hj; lia.
  - apply IH. intros i j Hi Hj. apply Hinj; lia.
Qed.

Lemma handleLaunch_tasks (plan : list Descriptor.t) (uuid : nat -> jsstring) (a : App) :
  tasks (fst (handleLaunch (Resolved plan) uuid a)) = materialize uuid 0 plan.
Proof.
  unfold handleLaunch. destruct (materialize uuid 0 plan); reflexivity.
Qed.

(** C4: a resolved plan of [n] descriptors becomes [n] tasks in the same
    order; the [i]-th task has the id the [i]-th call of the generator
    returned, the statuses PENDING, an empty chat history and the title,
    description, estimate and agent of the [i]-th descriptor; the ids are
    pairwise distinct when the generator does not repeat itself. *)
Theorem launch_materializes_plan
    (plan : list Descriptor.t) (uuid : nat -> jsstring) (a : App) :
  (forall i j, (i < length plan)%nat -> (j < length plan)%nat ->
               uuid i = uuid j -> i = j) ->
  let newTasks := tasks (fst (handleLaunch (Resolved plan) uuid a)) in
  length newTasks = length plan
  /\ NoDup (map id newTasks)
  /\ forall i p, nth_error plan i = Some p ->
       exists t, nth_error newTasks i = Some t
                 /\ id t = uuid i
                 /\ status t = TaskStatus.PENDING
                 /\ verificationStatus t = VerificationStatus.PENDING
                 /\ chatHistory t = []
                 /\ title t = Descriptor.title p
                 /\ description t = Descriptor.description p
                 /\ estimatedMinutes t = Descriptor.estimatedMinutes p
                 /\ agentType t = Descriptor.agentType p.
Proof.
  intros Hinj newTasks. unfold newTasks. rewrite handleLaunch_tasks.
  split; [apply materialize_length|]. split.
  - rewrite materialize_ids. apply NoDup_map_seq.
    intros i j Hi Hj. apply Hinj; lia.
  - intros i p Hp. exists (new_task (uuid i) p).
    rewrite materialize_nth, Hp. simpl. repeat split; reflexivity.
Qed.

(** C5: when the call is rejected, or answers with no text, or with text
    that does not parse after cleaning, [generatePlan] rejects with that
    error; [handleLaunch] then keeps the task list, shows the retry prompt
    and schedules no task. *)
Theorem plan_failure_is_surfaced
    (d : ProjectDNA) (response : outcome Response) (uuid : nat -> jsstring)
    (draft : outcome jsstring) (a : App) :
  (exists e, response = Rejected e)
  \/ (exists r, response = Resolved r
                /\ (text_or r [] = []
                    \/ JSON_parse (cleanJson (text_or r [])) = None)) ->
  exists e,
    generatePlan d response = Rejected e
    /\ typed_plan (generatePlan d response) = Some (Rejected e)
    /\ tasks (fst (handleLaunch (Rejected e) uuid a)) = tasks a
    /\ alerts (fst (handleLaunch (Rejected e) uuid a)) = alerts a ++ [RETRY_PROMPT]
    /\ appState (fst (handleLaunch (Rejected e) uuid a)) = appState a
    /\ isGenerating (fst (handleLaunch (Rejected e) uuid a)) = false
    /\ snd (handleLaunch (Rejected e) uuid a) = None
    /\ tasks (launch (Rejected e) uuid draft a) = tasks a.
Proof.
  intros [[e ->] | (r & -> & Hr)].
  - exists e. repeat split; reflexivity.
  - unfold generatePlan. destruct Hr as [Hr | Hr].
    + rewrite Hr. simpl. exists NoPlanGenerated. repeat split; reflexivity.
    + destruct (truthy (text_or r [])); simpl.
      * rewrite Hr. exists SyntaxError. repeat split; reflexivity.
      * exists NoPlanGenerated. repeat split; reflexivity.
Qed.

(* ----------------------------------------------------------------- *)
(** ** Reset *)

(** C6: a confirmed reset removes the stored record, returns the view to
    IDLE, empties the task list, clears the current-task pointer and the
    editor and restores the all-empty DNA, so that the next start finds
    nothing to load; a declined one changes nothing. *)
Theorem reset_clears_or_keeps (a : App) :
  kinetic_state (resetApp true a) = None
  /\ appState (resetApp true a) = IDLE
  /\ tasks (resetApp true a) = []
  /\ currentTaskId (resetApp true a) = None
  /\ editorContent (resetApp true a) = []
  /\ dna (resetApp true a) = mkDNA [] [] [] [] [] []
  /\ load (initial (kinetic_state (resetApp true a))) = Some (initial None)
  /\ resetApp false a = a.
Proof.
  unfold resetApp.
  repeat match goal with |- _ /\ _ => split end; reflexivity.
Qed.

(* ----------------------------------------------------------------- *)
(** ** Entering a task that is not in the list *)

Lemma find_absent (taskId : jsstring) (ts : list MicroTask) :
  (forall t, In t ts -> id t <> taskId) ->
  find (fun t => jsstring_eqb (id t) taskId) ts = None.
Proof.
  intros H. destruct (find _ ts) as [t|] eqn:E; [|reflexivity].
  apply find_some in E as [Hin Heq]. apply jsstring_eqb_eq in Heq.
  now apply H in Hin.
Qed.

Lemma absent_by_test (taskId : jsstring) (ts : list MicroTask) :
  forallb (fun t => negb (jsstring_eqb (id t) taskId)) ts = true ->
  forall t, In t ts -> id t <> taskId.
Proof.
  intros H t Hin. rewrite forallb_forall in H. apply H in Hin.
  apply negb_true_iff in Hin. now apply jsstring_eqb_neq.
Qed.

(** C9: entering an id that no task of the list has leaves the view, the
    pointer and the editor as they were; the task list is either untouched
    or the given list with the editor content written into the tasks the
    pointer names, and nothing else of the state changes. *)
Theorem enterTask_unknown_id
    (taskId : jsstring) (currentTaskList : list MicroTask)
    (draft : outcome jsstring) (a : App) :
  (forall t, In t currentTaskList -> id t <> taskId) ->
  let a' := enterTask taskId currentTaskList draft a in
  appState a' = appState a
  /\ currentTaskId a' = currentTaskId a
  /\ editorContent a' = editorContent a
  /\ a' = setTasks (tasks a') a
  /\ (tasks a' = tasks a \/ tasks a' = flush a currentTaskList)
  /\ Forall2 (fun t t' =>
                t' = t \/ (currentTaskId a = Some (id t)
                           /\ t' = with_content (editorContent a) t))
             currentTaskList (flush a currentTaskList).
Proof.
  intros Habsent a'. unfold a', enterTask.
  assert (Hf : find (fun t => jsstring_eqb (id t) taskId)
                 (if has_current a then flush a currentTaskList else currentTaskList)
               = None).
  { apply find_absent. destruct (has_current a); [|exact Habsent].
    intros t Hin. unfold flush in Hin. apply in_map_iff in Hin as (t0 & <- & Hin).
    apply Habsent in Hin. destruct (is_current a t0); exact Hin. }
  rewrite Hf.
  repeat split; try (destruct (has_current a); reflexivity).
  - destruct a; destruct (has_current _); reflexivity.
  - destruct (has_current a); [right | left]; reflexivity.
  - clear Hf a'. unfold flush.
    induction currentTaskList as [|t ts IH]; simpl; constructor.
    + destruct (is_current a t) eqn:E; [right | left; reflexivity].
      split; [now apply is_current_spec | reflexivity].
    + apply IH. intros u Hu. apply Habsent. now right.
Qed.

Example demo_plan_is_read :
  typed_plan (generatePlan demo_dna (Resolved (Some demo_plan_text)))
  = Some (Resolved demo_plan5).
Proof. vm_compute. reflexivity. Qed.

Lemma launch_materializes_plan_witness :
  (forall i j, (i < length demo_plan5)%nat -> (j < length demo_plan5)%nat ->
               demo_uuid i = demo_uuid j -> i = j)
  /\ length (tasks (fst (handleLaunch (Resolved demo_plan5) demo_uuid demo_brief))) = 5%nat
  /\ NoDup (map id (tasks (fst (handleLaunch (Resolved demo_plan5) demo_uuid demo_brief)))).
Proof.
  assert (H : forall i j, (i < length demo_plan5)%nat -> (j < length demo_plan5)%nat ->
                          demo_uuid i = demo_uuid j -> i = j).
  { intros i j Hi Hj E. simpl in Hi, Hj.
    destruct i as [|[|[|[|[|i]]]]]; try lia;
      destruct j as [|[|[|[|[|j]]]]]; try lia; vm_compute in E; discriminate. }
  split; [exact H|].
  pose proof (@launch_materializes_plan demo_plan5 demo_uuid demo_brief H) as (Hl & Hn & _).
  split; [exact Hl | exact Hn].
Defined.

Lemma plan_failure_is_surfaced_witness :
  JSON_parse (cleanJson (js "I could not produce a plan.")) = None
  /\ exists e,
       generatePlan demo_dna (Resolved (Some (js "I could not produce a plan."))) = Rejected e
       /\ tasks (fst (handleLaunch (Rejected e) demo_uuid demo_brief)) = tasks demo_brief
       /\ alerts (fst (handleLaunch (Rejected e) demo_uuid demo_brief)) = [RETRY_PROMPT].
Proof.
  assert (H : JSON_parse (cleanJson (js "I could not produce a plan.")) = None)
    by (vm_compute; reflexivity).
  split; [exact H|].
  destruct (@plan_failure_is_surfaced demo_dna
              (Resolved (Some (js "I could not produce a plan."))) demo_uuid
              (Rejected CallFailed) demo_brief)
    as (e & Hg & _ & Ht & Ha & _).
  - right. exists (Some (js "I could not produce a plan.")).
    split; [reflexivity | right; exact H].
  - exists e. split; [exact Hg|]. split; [exact Ht | exact Ha].
Defined.

Lemma enterTask_unknown_id_witness :
  (forall t, In t (tasks demo_dashboard) -> id t <> js "task-9")
  /\ appState (enterTask (js "task-9") (tasks demo_dashboard) (Resolved (js "draft"))
                 demo_dashboard) = DASHBOARD
  /\ currentTaskId (enterTask (js "task-9") (tasks demo_dashboard) (Resolved (js "draft"))
                      demo_dashboard) = Some (demo_uuid 0).
Proof.
  assert (H : forall t, In t (tasks demo_dashboard) -> id t <> js "task-9").
  { apply absent_by_test. vm_compute. reflexivity. }
  split; [exact H|].
  pose proof (@enterTask_unknown_id (js "task-9") (tasks demo_dashboard)
                (Resolved (js "draft")) demo_dashboard H) as (Hs & Hc & _).
  split.
  - rewrite Hs. vm_compute. reflexivity.
  - rewrite Hc. vm_compute. reflexivity.
Defined.

(* ----------------------------------------------------------------- *)
(** ** Searching and slicing *)

Lemma remove_from_In (p : jsstring) (k : nat) (s : jsstring) (c : code_unit) :
  In c (remove_from p k s) -> In c s.
Proof.
  revert k; induction s as [|x s IH]; intros k; simpl; [tauto|].
  destruct k as [|k].
  - destruct (starts_with p (x :: s)).
    + intros H. right. eapply IH; eauto.
    + intros [H|H]; [now left | right; eapply IH; eauto].
  - intros H. right. eapply IH; eauto.
Qed.

Lemma trimStart_In (s : jsstring) (c : code_unit) : In c (trimStart s) -> In c s.
Proof.
  induction s as [|x s IH]; simpl; [tauto|].
  destruct (is_white_space x); [intros H; right; auto | tauto].
Qed.

Lemma trim_In (s : jsstring) (c : code_unit) : In c (trim s) -> In c s.
Proof.
  unfold trim, trimEnd. intros H. apply in_rev in H. apply trimStart_In in H.
  apply in_rev in H. now apply trimStart_In.
Qed.

Lemma strip_fences_In (s : jsstring) (c : code_unit) : In c (strip_fences s) -> In c s.
Proof.
  unfold strip_fences, remove_all. intros H.
  apply trim_In in H. apply remove_from_In in H. now apply remove_from_In in H.
Qed.

Lemma indexOf_from_absent (c : code_unit) (s : jsstring) (i : Z) :
  ~ In c s -> indexOf_from c s i = -1.
Proof.
  revert i; induction s as [|x s IH]; intros i H; simpl; [reflexivity|].
  destruct (N.eqb x c) eqn:E.
  - apply N.eqb_eq in E. exfalso. apply H. now left.
  - apply IH. intros Hin. apply H. now right.
Qed.

Lemma indexOf_from_found (c : code_unit) (pre rest : jsstring) (i : Z) :
  ~ In c pre -> indexOf_from c (pre ++ c :: rest) i = i + Z.of_nat (length pre).
Proof.
  revert i; induction pre as [|x pre IH]; intros i H; simpl.
  - rewrite N.eqb_refl. lia.
  - destruct (N.eqb x c) eqn:E.
    + apply N.eqb_eq in E. exfalso. apply H. now left.
    + rewrite IH; [lia|]. intros Hin. apply H. now right.
Qed.

Lemma indexOf_from_range (c : code_unit) (s : jsstring) (i : Z) :
  indexOf_from c s i = -1 \/ i <= indexOf_from c s i.
Proof.
  revert i; induction s as [|x s IH]; intros i; simpl; [now left|].
  destruct (N.eqb x c); [right; lia|].
  destruct (IH (i + 1)) as [H|H]; [now left | right; lia].
Qed.

(** A unit that is not in [pre] and is not [x] is found after [x], if at all. *)
Lemma indexOf_from_later (c x : code_unit) (pre rest : jsstring) (i : Z) :
  ~ In c pre -> x <> c ->
  indexOf_from c (pre ++ x :: rest) i = -1
  \/ i + Z.of_nat (length pre) < indexOf_from c (pre ++ x :: rest) i.
Proof.
  revert i; induction pre as [|y pre IH]; intros i H Hx; simpl.
  - apply N.eqb_neq in Hx. rewrite Hx.
    destruct (indexOf_from_range c rest (i + 1)) as [E|E]; [now left | right; lia].
  - destruct (N.eqb y c) eqn:E.
    + apply N.eqb_eq in E. exfalso. apply H. now left.
    + destruct (IH (i + 1)) as [R|R]; try assumption.
      * intros Hin. apply H. now right.
      * now left.
      * right. lia.
Qed.

Lemma lastIndexOf_from_absent (c : code_unit) (s : jsstring) (i best : Z) :
  ~ In c s -> lastIndexOf_from c s i best = best.
Proof.
  revert i best; induction s as [|x s IH]; intros i best H; simpl; [reflexivity|].
  destruct (N.eqb x c) eqn:E.
  - apply N.eqb_eq in E. exfalso. apply H. now left.
  - apply IH. intros Hin. apply H. now right.
Qed.

Lemma lastIndexOf_from_found (c : code_unit) (pre post : jsstring) (i best : Z) :
  ~ In c post ->
  lastIndexOf_from c (pre ++ c :: post) i best = i + Z.of_nat (length pre).
Proof.
  revert i best; induction pre as [|x pre IH]; intros i best H; simpl.
  - rewrite N.eqb_refl. rewrite lastIndexOf_from_absent by assumption. lia.
  - rewrite IH by assumption. lia.
Qed.

Lemma substring_middle (a b c : jsstring) :
  substring (a ++ b ++ c) (Z.of_nat (length a)) (Z.of_nat (length a) + Z.of_nat (length b))
  = b.
Proof.
  unfold substring, clamp. rewrite !length_app.
  replace (Z.min (Z.max (Z.of_nat (length a)) 0)
                 (Z.of_nat (length a + (length b + length c))))
    with (Z.of_nat (length a)) by lia.
  replace (Z.min (Z.max (Z.of_nat (length a) + Z.of_nat (length b)) 0)
                 (Z.of_nat (length a + (length b + length c))))
    with (Z.of_nat (length a) + Z.of_nat (length b)) by lia.
  replace (Z.min (Z.of_nat (length a)) (Z.of_nat (length a) + Z.of_nat (length b)))
    with (Z.of_nat (length a)) by lia.
  replace (Z.max (Z.of_nat (length a)) (Z.of_nat (length a) + Z.of_nat (length b))
           - Z.of_nat (length a))
    with (Z.of_nat (length b)) by lia.
  rewrite !Nat2Z.id. rewrite skipn_app, skipn_all, Nat.sub_diag. simpl.
  rewrite firstn_app, firstn_all, Nat.sub_diag. simpl. apply app_nil_r.
Qed.

(* ----------------------------------------------------------------- *)
(** ** Removing a pattern and trimming *)

Lemma starts_with_app (p s : jsstring) :
  starts_with p s = true -> exists r, s = p ++ r.
Proof.
  revert s; induction p as [|x p IH]; intros s H; simpl in *; [eauto|].
  destruct s as [|y s]; [discriminate|].
  apply andb_true_iff in H as [Hx Hp]. apply N.eqb_eq in Hx. subst y.
  destruct (IH _ Hp) as (r & ->). eauto.
Qed.

Lemma remove_from_skip (p : jsstring) (k : nat) (a s : jsstring) :
  length a = k -> remove_from p k (a ++ s) = remove_from p O s.
Proof.
  revert k; induction a as [|x a IH]; intros k H; simpl in *.
  - now subst k.
  - destruct k as [|k]; [discriminate|]. apply IH. now injection H.
Qed.

(** The result of [remove_all] is the text with occurrences of the pattern
    taken out and every other unit kept in place. *)
Lemma remove_all_Removed (p s : jsstring) :
  p <> [] -> Removed p s (remove_all p s).
Proof.
  intros Hp. unfold remove_all.
  assert (H : forall n s, (length s <= n)%nat -> Removed p s (remove_from p O s)).
  { clear s. induction n as [|n IH]; intros s Hlen.
    - destruct s; [constructor | simpl in Hlen; lia].
    - destruct s as [|c s]; [constructor|]. cbn [remove_from].
      destruct (starts_with p (c :: s)) eqn:E.
      + destruct (starts_with_app _ _ E) as (r & Er).
        destruct p as [|x p']; [contradiction|].
        cbn [app] in Er. injection Er as Ec Es. subst c s.
        cbn [length pred]. rewrite (@remove_from_skip (x :: p') (length p') p' r eq_refl).
        apply (@Removed_match (x :: p') r). apply IH.
        simpl in Hlen. rewrite length_app in Hlen. lia.
      + constructor. apply IH. simpl in Hlen. lia. }
  apply (H (length s)). lia.
Qed.

Lemma trimStart_spec (s : jsstring) :
  exists l, s = l ++ trimStart s
            /\ forallb is_white_space l = true
            /\ match trimStart s with
               | [] => True
               | c :: _ => is_white_space c = false
               end.
Proof.
  induction s as [|c s (l & E & Hl & Hh)]; simpl.
  - exists []. auto.
  - destruct (is_white_space c) eqn:W.
    + exists (c :: l). simpl. rewrite W, Hl. split; [now f_equal | auto].
    + exists []. simpl. auto.
Qed.

Lemma trimStart_keeps_last (a : jsstring) (c : N) :
  is_white_space c = false -> exists a', trimStart (a ++ [c]) = a' ++ [c].
Proof.
  intros W. induction a as [|x a (a' & IH)]; simpl.
  - rewrite W. now exists [].
  - destruct (is_white_space x); [eauto|]. now exists (x :: a).
Qed.

(** [trim] takes white space, and only white space, from both ends. *)
Lemma trim_spec (s : jsstring) :
  exists l r, s = l ++ trim s ++ r
              /\ forallb is_white_space l = true
              /\ forallb is_white_space r = true
              /\ match trim s with
                 | [] => True
                 | c :: _ => is_white_space c = false
                 end
              /\ match rev (trim s) with
                 | [] => True
                 | c :: _ => is_white_space c = false
                 end.
Proof.
  destruct (trimStart_spec s) as (l & El & Hl & Hhead).
  destruct (trimStart_spec (rev (trimStart s))) as (r' & Er & Hr & Hlast).
  exists l, (rev r'). unfold trim, trimEnd.
  split; [|split; [exact Hl|split; [|split]]].
  - rewrite <- rev_app_distr, <- Er, rev_involutive. exact El.
  - rewrite forallb_forall in *. intros x Hx. apply Hr. now apply in_rev.
  - destruct (trimStart s) as [|c t] eqn:Et; [exact I|].
    simpl rev. destruct (trimStart_keeps_last (rev t) _ Hhead) as (a' & ->).
    rewrite rev_app_distr. simpl. exact Hhead.
  - rewrite rev_involutive. exact Hlast.
Qed.

(* ----------------------------------------------------------------- *)
(** ** cleanJson *)

(** C10: [cleanJson] is a total function; on the empty string it gives
    ["{}"]; on a non-empty string without ['{'] and without ['['] it gives
    the text with the two fences removed and the surrounding white space
    trimmed: the result is what is left of the text once occurrences of the
    fences are taken out, between two runs of white space, and it neither
    starts nor ends with white space. *)
Theorem cleanJson_plain_text :
  (forall text, exists out, cleanJson text = out)
  /\ cleanJson [] = js "{}"
  /\ forall text,
       text <> [] -> ~ In LBRACE text -> ~ In LBRACKET text ->
       cleanJson text = trim (remove_all FENCE (remove_all FENCE_JSON text))
       /\ exists unfenced stripped l r,
            Removed FENCE_JSON text unfenced
            /\ Removed FENCE unfenced stripped
            /\ stripped = l ++ cleanJson text ++ r
            /\ forallb is_white_space l = true
            /\ forallb is_white_space r = true
            /\ match cleanJson text with
               | [] => True
               | c :: _ => is_white_space c = false
               end
            /\ match rev (cleanJson text) with
               | [] => True
               | c :: _ => is_white_space c = false
               end.
Proof.
  split; [intros text; eexists; reflexivity|]. split; [reflexivity|].
  intros text Hne Hbrace Hbracket.
  assert (E : cleanJson text = trim (remove_all FENCE (remove_all FENCE_JSON text))).
  { unfold cleanJson. apply truthy_true in Hne. rewrite Hne. simpl negb. cbv iota.
    fold (strip_fences text).
    assert (H1 : indexOf LBRACE (strip_fences text) = -1).
    { apply indexOf_from_absent. intros H. now apply strip_fences_In in H. }
    assert (H2 : indexOf LBRACKET (strip_fences text) = -1).
    { apply indexOf_from_absent. intros H. now apply strip_fences_In in H. }
    rewrite H1, H2. reflexivity. }
  split; [exact E|].
  destruct (trim_spec (remove_all FENCE (remove_all FENCE_JSON text)))
    as (l & r & Hsplit & Hl & Hr & Hfirst & Hlast).
  exists (remove_all FENCE_JSON text), (remove_all FENCE (remove_all FENCE_JSON text)), l, r.
  rewrite E.
  repeat match goal with |- _ /\ _ => split end; try assumption;
    apply remove_all_Removed; intros Hfence;
    apply (f_equal (@length N)) in Hfence; discriminate Hfence.
Qed.

Lemma cleanJson_plain_text_witness :
  demo_plain_text <> []
  /\ ~ In LBRACE demo_plain_text
  /\ ~ In LBRACKET demo_plain_text
  /\ cleanJson demo_plain_text = js "no plan today".
Proof.
  assert (H0 : demo_plain_text <> []) by discriminate.
  assert (H1 : ~ In LBRACE demo_plain_text) by (vm_compute; intuition discriminate).
  assert (H2 : ~ In LBRACKET demo_plain_text) by (vm_compute; intuition discriminate).
  split; [exact H0|]. split; [exact H1|]. split; [exact H2|].
  destruct (proj2 (proj2 cleanJson_plain_text) demo_plain_text H0 H1 H2) as [E _].
  rewrite E. vm_compute. reflexivity.
Defined.

(** C2, as stated, fails: a brace in the prose is taken for the start of
    the object, and the slice from it to the last ['}'] is not JSON. *)
Lemma cleanJson_prose_with_brace :
  ~ (forall pre obj post members,
        JSON_parse obj = Some (JObj members) ->
        exists v, JSON_parse (cleanJson (pre ++ obj ++ post)) = Some v).
Proof.
  intros H.
  destruct (H (js "Result {draft}: ") (jsq "{'a':1}") (js " Done.")
              [(js "a", JNum (of_Z 1))]) as [v Hv].
  - vm_compute. reflexivity.
  - assert (E : JSON_parse (cleanJson (js "Result {draft}: " ++ jsq "{'a':1}" ++ js " Done."))
                = None) by (vm_compute; reflexivity).
    rewrite E in Hv. discriminate.
Qed.

Example cleanJson_prose_with_brace_slice :
  cleanJson (js "Result {draft}: " ++ jsq "{'a':1}" ++ js " Done.")
  = jsq "{draft}: {'a':1}".
Proof. vm_compute. reflexivity. Qed.

(** C2 (amended): when the fence-stripped, trimmed text is [pre], an
    opening brace, [mid], a closing brace and [post], with neither ['{'] nor
    ['['] in [pre] and no ['}'] in [post], [cleanJson] returns exactly the
    braces and what they enclose, so the result parses whenever that slice
    does; likewise for brackets.  Nothing is promised when the prose itself
    holds a brace or a bracket. *)
Theorem cleanJson_extracts (array : bool) (text pre mid post : jsstring) :
  let opening := if array then LBRACKET else LBRACE in
  let closing := if array then RBRACKET else RBRACE in
  text <> [] ->
  strip_fences text = pre ++ opening :: mid ++ closing :: post ->
  ~ In LBRACE pre -> ~ In LBRACKET pre -> ~ In closing post ->
  cleanJson text = opening :: mid ++ [closing]
  /\ forall v, JSON_parse (opening :: mid ++ [closing]) = Some v ->
               JSON_parse (cleanJson text) = Some v.
Proof.
  intros opening closing Hne Hshape Hbrace Hbracket Hpost.
  assert (Hres : cleanJson text = opening :: mid ++ [closing]).
  { unfold cleanJson. apply truthy_true in Hne. rewrite Hne. simpl negb. cbv iota.
    rewrite Hshape.
    assert (Hslice : substring (pre ++ opening :: mid ++ closing :: post)
                       (Z.of_nat (length pre))
                       (Z.of_nat (length pre) + Z.of_nat (length mid) + 1 + 1)
                     = opening :: mid ++ [closing]).
    { replace (pre ++ opening :: mid ++ closing :: post)
        with (pre ++ (opening :: mid ++ [closing]) ++ post)
        by (simpl; now rewrite <- app_assoc).
      replace (Z.of_nat (length pre) + Z.of_nat (length mid) + 1 + 1)
        with (Z.of_nat (length pre) + Z.of_nat (length (opening :: mid ++ [closing])))
        by (simpl length; rewrite length_app; simpl length; lia).
      apply substring_middle. }
    assert (Hlast : lastIndexOf closing (pre ++ opening :: mid ++ closing :: post)
                    = Z.of_nat (length pre) + Z.of_nat (length mid) + 1).
    { unfold lastIndexOf.
      replace (pre ++ opening :: mid ++ closing :: post)
        with ((pre ++ opening :: mid) ++ closing :: post)
        by (now rewrite <- app_assoc).
      rewrite lastIndexOf_from_found by assumption.
      rewrite length_app. simpl length. lia. }
    destruct array; unfold opening, closing in *.
    - (* brackets: no brace can come first *)
      assert (Hfirst : indexOf LBRACKET (pre ++ LBRACKET :: mid ++ RBRACKET :: post)
                       = Z.of_nat (length pre)).
      { unfold indexOf. now rewrite indexOf_from_found. }
      rewrite Hfirst, Hlast.
      destruct (@indexOf_from_later LBRACE LBRACKET pre (mid ++ RBRACKET :: post) 0 Hbrace)
        as [E|E]; [discriminate | | ].
      + unfold indexOf. rewrite E. simpl.
        replace (Z.of_nat (length pre) =? -1) with false by (symmetry; apply Z.eqb_neq; lia).
        replace (Z.of_nat (length pre) + Z.of_nat (length mid) + 1 =? -1) with false
          by (symmetry; apply Z.eqb_neq; lia).
        simpl. exact Hslice.
      + unfold indexOf.
        replace (indexOf_from LBRACE (pre ++ LBRACKET :: mid ++ RBRACKET :: post) 0
                 <? Z.of_nat (length pre)) with false
          by (symmetry; apply Z.ltb_ge; lia).
        replace (Z.of_nat (length pre) =? -1) with false by (symmetry; apply Z.eqb_neq; lia).
        replace (Z.of_nat (length pre) + Z.of_nat (length mid) + 1 =? -1) with false
          by (symmetry; apply Z.eqb_neq; lia).
        rewrite andb_false_r. simpl. exact Hslice.
    - (* braces: no bracket comes before the first brace *)
      assert (Hfirst : indexOf LBRACE (pre ++ LBRACE :: mid ++ RBRACE :: post)
                       = Z.of_nat (length pre)).
      { unfold indexOf. now rewrite indexOf_from_found. }
      rewrite Hfirst, Hlast.
      replace (Z.of_nat (length pre) =? -1) with false by (symmetry; apply Z.eqb_neq; lia).
      replace (Z.of_nat (length pre) + Z.of_nat (length mid) + 1 =? -1) with false
        by (symmetry; apply Z.eqb_neq; lia).
      destruct (@indexOf_from_later LBRACKET LBRACE pre (mid ++ RBRACE :: post) 0 Hbracket)
        as [E|E]; [discriminate | | ].
      + unfold indexOf. rewrite E. simpl. exact Hslice.
      + unfold indexOf.
        replace (Z.of_nat (length pre)
                 <? indexOf_from LBRACKET (pre ++ LBRACE :: mid ++ RBRACE :: post) 0)
          with true by (symmetry; apply Z.ltb_lt; lia).
        rewrite orb_true_r. simpl. exact Hslice. }
  split; [exact Hres|]. intros v Hv. now rewrite Hres.
Qed.

Lemma cleanJson_extracts_witness :
  demo_answer <> []
  /\ strip_fences demo_answer
     = demo_answer_pre ++ LBRACE :: demo_answer_mid ++ RBRACE :: demo_answer_post
  /\ cleanJson demo_answer = LBRACE :: demo_answer_mid ++ [RBRACE]
  /\ JSON_parse (cleanJson demo_answer)
     = Some (JObj [(js "audience", JStr (js "Founders")); (js "tone", JStr (js "Direct"))]).
Proof.
  assert (H0 : demo_answer <> []) by discriminate.
  assert (H1 : strip_fences demo_answer
               = demo_answer_pre ++ LBRACE :: demo_answer_mid ++ RBRACE :: demo_answer_post)
    by (vm_compute; reflexivity).
  assert (H2 : ~ In LBRACE demo_answer_pre) by (vm_compute; intuition discriminate).
  assert (H3 : ~ In LBRACKET demo_answer_pre) by (vm_compute; intuition discriminate).
  assert (H4 : ~ In RBRACE demo_answer_post) by (vm_compute; intuition discriminate).
  pose proof (@cleanJson_extracts false demo_answer demo_answer_pre demo_answer_mid
                demo_answer_post H0 H1 H2 H3 H4) as [Hc Hp].
  split; [exact H0|]. split; [exact H1|]. split; [exact Hc|].
  apply Hp. vm_compute. reflexivity.
Defined.

(* ----------------------------------------------------------------- *)
(** ** synthesizeDNA *)

Lemma obj_get_set_same (o : list (jsstring * json)) (k : jsstring) (v : json) :
  obj_get k (obj_set o k v) = Some v.
Proof.
  induction o as [|[k' v'] o IH]; simpl.
  - now rewrite jsstring_eqb_refl.
  - destruct (jsstring_eqb k' k) eqn:E; simpl; rewrite E; auto.
Qed.

Lemma obj_get_set_other (o : list (jsstring * json)) (k k0 : jsstring) (v : json) :
  k0 <> k -> obj_get k0 (obj_set o k v) = obj_get k0 o.
Proof.
  intros Hk. induction o as [|[k' v'] o IH]; simpl.
  - apply not_eq_sym in Hk. apply jsstring_eqb_neq in Hk. now rewrite Hk.
  - destruct (jsstring_eqb k' k) eqn:E; simpl.
    + apply jsstring_eqb_eq in E. subst k'.
      assert (F : jsstring_eqb k k0 = false) by (apply jsstring_eqb_neq; congruence).
      now rewrite F.
    + now rewrite IH.
Qed.

(** C8, as stated, fails: an answer without text is read as the empty
    object, and the result then has no audience at all. *)
Lemma synthesizeDNA_empty_answer :
  ~ (forall history rawContext response,
        exists s, field (js "audience") (synthesizeDNA history rawContext response)
                  = Some (JStr s) /\ s <> []).
Proof.
  intros H.
  destruct (H demo_history (js "notes") (Resolved None)) as (s & Hs & _).
  assert (E : field (js "audience") (synthesizeDNA demo_history (js "notes") (Resolved None))
              = None) by (vm_compute; reflexivity).
  rewrite E in Hs. discriminate.
Qed.

Example synthesizeDNA_empty_fields :
  synthesizeDNA demo_history (js "notes")
    (Resolved (Some (jsq "{'audience':'','problem':'','tone':'','antiGoals':'','stakes':''}")))
  = ProjectDNA_value (mkDNA [] [] [] [] [] (js "notes")).
Proof. vm_compute. reflexivity. Qed.

(** C8 (amended): when the call is rejected or its answer does not parse
    after cleaning, [synthesizeDNA] returns the five fixed fallback strings
    with the given raw context; when the answer parses, it returns the
    properties of the parsed value, unchecked, with [rawContext] set to the
    given raw context.  In every case [rawContext] is the given one. *)
Theorem synthesizeDNA_result
    (history : list QA) (rawContext : jsstring) (response : outcome Response) :
  ((exists e, response = Rejected e)
   \/ (exists r, response = Resolved r
                 /\ JSON_parse (cleanJson (text_or r (js "{}"))) = None) ->
   ProjectDNA_of (synthesizeDNA history rawContext response)
   = Some (mkDNA (js "General Audience") (js "Undefined Problem") (js "Professional")
                 (js "Generic content") (js "High") rawContext))
  /\ (forall r parsed,
        response = Resolved r ->
        JSON_parse (cleanJson (text_or r (js "{}"))) = Some parsed ->
        forall k, k <> js "rawContext" ->
                  field k (synthesizeDNA history rawContext response)
                  = obj_get k (spread parsed))
  /\ field (js "rawContext") (synthesizeDNA history rawContext response)
     = Some (JStr rawContext).
Proof.
  split; [|split].
  - intros [[e ->] | (r & -> & Hr)]; simpl.
    + reflexivity.
    + rewrite Hr. reflexivity.
  - intros r parsed -> Hp k Hk. simpl. rewrite Hp. simpl.
    now apply obj_get_set_other.
  - destruct response as [r|e]; simpl; [|reflexivity].
    destruct (JSON_parse _); simpl; [apply obj_get_set_same | reflexivity].
Qed.

Lemma synthesizeDNA_result_witness :
  JSON_parse (cleanJson (text_or (Some (js "Sorry, I cannot help with that."))
                                 (js "{}"))) = None
  /\ ProjectDNA_of (synthesizeDNA demo_history (js "notes")
                      (Resolved (Some (js "Sorry, I cannot help with that."))))
     = Some (mkDNA (js "General Audience") (js "Undefined Problem") (js "Professional")
                   (js "Generic content") (js "High") (js "notes"))
  /\ field (js "tone") (synthesizeDNA demo_history (js "notes") (Resolved (Some demo_answer)))
     = Some (JStr (js "Direct")).
Proof.
  assert (H : JSON_parse (cleanJson (text_or (Some (js "Sorry, I cannot help with that."))
                                             (js "{}"))) = None)
    by (vm_compute; reflexivity).
  pose proof (@synthesizeDNA_result demo_history (js "notes")
                (Resolved (Some (js "Sorry, I cannot help with that."))))
    as (Hfail & _ & _).
  pose proof (@synthesizeDNA_result demo_history (js "notes")
                (Resolved (Some demo_answer))) as (_ & Hok & _).
  split; [exact H|]. split.
  - apply Hfail. right. eexists. split; [reflexivity | exact H].
  - rewrite (Hok (Some demo_answer)
               (JObj [(js "audience", JStr (js "Founders")); (js "tone", JStr (js "Direct"))])
               eq_refl).
    + vm_compute. reflexivity.
    + vm_compute. reflexivity.
    + discriminate.
Defined.

(* ----------------------------------------------------------------- *)
(** ** Digits *)

Lemma digits_uint_digits (u : Decimal.uint) : digits_uint (uint_digits u) = u.
Proof. induction u; simpl; congruence. Qed.

Lemma digits_value_N_digits (n : N) : digits_value (N_digits n) = n.
Proof.
  unfold digits_value, N_digits. rewrite digits_uint_digits.
  apply DecimalN.Unsigned.of_to.
Qed.

Lemma uint_digits_below_ten (u : Decimal.uint) :
  forallb (fun x => N.ltb x 10) (uint_digits u) = true.
Proof. induction u; simpl; auto. Qed.

Lemma N_digits_not_empty (n : N) : N_digits n <> [].
Proof.
  unfold N_digits, N.to_uint. destruct n as [|p]; [discriminate|].
  pose proof (DecimalPos.Unsigned.to_uint_nonnil p) as H.
  destruct (Pos.to_uint p); simpl; congruence.
Qed.

Lemma is_digit_char (d : N) : N.ltb d 10 = true -> is_digit (48 + d)%N = true.
Proof.
  intros H. apply N.ltb_lt in H. unfold is_digit.
  apply andb_true_iff. split; apply N.leb_le; lia.
Qed.

Lemma take_digits_chars (ds : list N) (rest : jsstring) :
  forallb (fun x => N.ltb x 10) ds = true ->
  match rest with [] => true | c :: _ => negb (is_digit c) end = true ->
  take_digits (digit_chars ds ++ rest) = (ds, rest).
Proof.
  intros Hds Hrest. induction ds as [|d ds IH].
  - simpl. destruct rest as [|c rest]; [reflexivity|].
    simpl. apply negb_true_iff in Hrest. now rewrite Hrest.
  - cbn [forallb] in Hds. apply andb_true_iff in Hds as [Hd Hds].
    cbn [digit_chars map app take_digits].
    rewrite (is_digit_char _ Hd). fold (digit_chars ds). rewrite (IH Hds).
    f_equal. f_equal. lia.
Qed.

Lemma drop_zeros_head (d : N) (ds : list N) :
  N.eqb d 0 = false -> drop_zeros (d :: ds) = d :: ds.
Proof. intros H. simpl. now rewrite H. Qed.

Lemma drop_zeros_repeat (n : nat) (ds : list N) :
  drop_zeros (repeat 0%N n ++ ds) = drop_zeros ds.
Proof. induction n; simpl; auto. Qed.

Lemma last_rev_head (ds : list N) (x : N) :
  ds <> [] -> exists tl, rev ds = last ds x :: tl.
Proof.
  intros H. destruct (exists_last H) as (l & a & ->).
  rewrite last_last, rev_app_distr. simpl. eauto.
Qed.

Lemma rev_repeat_zero (n : nat) : rev (repeat 0%N n) = repeat 0%N n.
Proof.
  induction n; simpl; [reflexivity|]. rewrite IHn.
  clear IHn. induction n; simpl; [reflexivity|]. now rewrite IHn.
Qed.

Lemma drop_trailing_zeros_app (ds : list N) (n : nat) :
  ds <> [] -> N.eqb (last ds 1%N) 0 = false ->
  drop_trailing_zeros (ds ++ repeat 0%N n) = ds.
Proof.
  intros Hne Hlast. unfold drop_trailing_zeros.
  rewrite rev_app_distr, rev_repeat_zero, drop_zeros_repeat.
  destruct (last_rev_head 1%N Hne) as (tl & E). rewrite E.
  rewrite drop_zeros_head by assumption. rewrite <- E. apply rev_involutive.
Qed.

Lemma drop_trailing_zeros_id (ds : list N) :
  ds <> [] -> N.eqb (last ds 1%N) 0 = false -> drop_trailing_zeros ds = ds.
Proof.
  intros Hne Hlast. rewrite <- (app_nil_r ds) at 1.
  now apply (drop_trailing_zeros_app 0).
Qed.

(* ----------------------------------------------------------------- *)
(** ** Numbers: reading what [Number::toString] prints *)

Lemma digit_chars_app (a b : list N) : digit_chars (a ++ b) = digit_chars a ++ digit_chars b.
Proof. apply map_app. Qed.

Lemma forallb_repeat_zero (n : nat) : forallb (fun x => N.ltb x 10) (repeat 0%N n) = true.
Proof. induction n; simpl; auto. Qed.

Lemma not_digit_next (rest : jsstring) :
  ends_number rest = true ->
  match rest with [] => true | c :: _ => negb (is_digit c) end = true.
Proof.
  destruct rest as [|c rest]; simpl; [reflexivity|].
  intros H. apply negb_true_iff in H. apply negb_true_iff.
  repeat (apply orb_false_iff in H as [H _]). exact H.
Qed.

Lemma parse_int_part_digits (d1 : N) (tl : list N) (rest : jsstring) :
  forallb (fun x => N.ltb x 10) (d1 :: tl) = true ->
  N.eqb d1 0 = false ->
  match rest with [] => true | c :: _ => negb (is_digit c) end = true ->
  parse_int_part (digit_chars (d1 :: tl) ++ rest) = Some (d1 :: tl, rest).
Proof.
  intros Hds Hd1 Hrest. unfold parse_int_part.
  rewrite (take_digits_chars _ _ Hds Hrest).
  cbn [digit_chars map app]. cbn [forallb] in Hds.
  apply andb_true_iff in Hds as [Hlt _].
  rewrite (is_digit_char _ Hlt).
  replace (N.eqb (48 + d1) 48) with false; [reflexivity|].
  symmetry. apply N.eqb_neq. apply N.eqb_neq in Hd1. lia.
Qed.

Lemma parse_frac_part_none (rest : jsstring) :
  ends_number rest = true -> parse_frac_part rest = Some ([], rest).
Proof.
  destruct rest as [|c rest]; simpl; [reflexivity|].
  intros H. apply negb_true_iff in H.
  apply orb_false_iff in H as [H _]. apply orb_false_iff in H as [H _].
  apply orb_false_iff in H as [_ H]. now rewrite H.
Qed.

Lemma parse_frac_part_digits (fs : list N) (rest : jsstring) :
  fs <> [] -> forallb (fun x => N.ltb x 10) fs = true ->
  match rest with [] => true | c :: _ => negb (is_digit c) end = true ->
  parse_frac_part (46%N :: digit_chars fs ++ rest) = Some (fs, rest).
Proof.
  intros Hne Hfs Hrest. unfold parse_frac_part. rewrite N.eqb_refl.
  rewrite (take_digits_chars _ _ Hfs Hrest).
  destruct fs; [contradiction | reflexivity].
Qed.

Lemma parse_exp_part_none (rest : jsstring) :
  ends_number rest = true -> parse_exp_part rest = Some (0, rest).
Proof.
  destruct rest as [|c rest]; simpl; [reflexivity|].
  intros H. apply negb_true_iff in H.
  apply orb_false_iff in H as [H H69]. apply orb_false_iff in H as [_ H101].
  now rewrite H101, H69.
Qed.

Lemma parse_exp_part_value (e : Z) (rest : jsstring) :
  match rest with [] => true | c :: _ => negb (is_digit c) end = true ->
  parse_exp_part (101%N :: (if e <? 0 then [45%N] else [43%N])
                    ++ digit_chars (N_digits (Z.to_N (Z.abs e))) ++ rest)
  = Some (e, rest).
Proof.
  intros Hrest. unfold parse_exp_part. rewrite N.eqb_refl. cbn [orb].
  pose proof (N_digits_not_empty (Z.to_N (Z.abs e))) as Hne.
  pose proof (uint_digits_below_ten (N.to_uint (Z.to_N (Z.abs e)))) as Hlt.
  fold (N_digits (Z.to_N (Z.abs e))) in Hlt.
  destruct (e <? 0) eqn:Hneg; cbn [app N.eqb Pos.eqb];
    rewrite (take_digits_chars _ _ Hlt Hrest);
    destruct (N_digits (Z.to_N (Z.abs e))) eqn:E; try contradiction;
    rewrite <- E, digits_value_N_digits; f_equal; f_equal.
  - apply Z.ltb_lt in Hneg. lia.
  - apply Z.ltb_ge in Hneg. lia.
Qed.

(** A mantissa padded with zeros on both sides. *)
Lemma make_number_padded (neg : bool) (ds : list N) (a b : nat) (pt : Z) :
  canonical (mkDecimal neg ds (pt - Z.of_nat a)) = true ->
  ds <> [] ->
  overflows ds (pt - Z.of_nat a) = false ->
  make_number neg (repeat 0%N a ++ ds ++ repeat 0%N b) pt
  = Finite (mkDecimal neg ds (pt - Z.of_nat a)).
Proof.
  unfold canonical. cbn [digits]. intros Hc Hne Hov.
  destruct ds as [|d1 tl]; [contradiction|].
  apply andb_true_iff in Hc as [Hc Hlast]. apply andb_true_iff in Hc as [_ Hd1].
  apply negb_true_iff in Hd1, Hlast.
  unfold make_number.
  rewrite drop_zeros_repeat.
  change ((d1 :: tl) ++ repeat 0%N b) with (d1 :: (tl ++ repeat 0%N b)).
  rewrite drop_zeros_head by assumption.
  change (d1 :: (tl ++ repeat 0%N b)) with ((d1 :: tl) ++ repeat 0%N b).
  rewrite drop_trailing_zeros_app by (assumption || discriminate).
  replace (pt - Z.of_nat (length (repeat 0%N a ++ (d1 :: tl) ++ repeat 0%N b)
                          - length ((d1 :: tl) ++ repeat 0%N b)))
    with (pt - Z.of_nat a)
    by (rewrite !length_app, repeat_length; f_equal; f_equal; lia).
  now rewrite Hov.
Qed.

Lemma canonical_parts (neg : bool) (d1 : N) (tl : list N) (n : Z) :
  canonical (mkDecimal neg (d1 :: tl) n) = true ->
  forallb (fun x => N.ltb x 10) (d1 :: tl) = true /\ N.eqb d1 0 = false.
Proof.
  unfold canonical. cbn [digits]. intros H.
  apply andb_true_iff in H as [H _]. apply andb_true_iff in H as [H1 H2].
  apply negb_true_iff in H2. auto.
Qed.

Lemma forallb_firstn (n : nat) (ds : list N) :
  forallb (fun x => N.ltb x 10) ds = true ->
  forallb (fun x => N.ltb x 10) (firstn n ds) = true.
Proof.
  revert n; induction ds as [|d ds IH]; intros [|n] H; simpl in *; auto.
  apply andb_true_iff in H as [H1 H2]. rewrite H1. simpl. auto.
Qed.

Lemma forallb_skipn (n : nat) (ds : list N) :
  forallb (fun x => N.ltb x 10) ds = true ->
  forallb (fun x => N.ltb x 10) (skipn n ds) = true.
Proof.
  revert n; induction ds as [|d ds IH]; intros [|n] H; simpl in *; auto.
  apply andb_true_iff in H as [H1 H2]. auto.
Qed.

(** The four notations of [Number::toString], each read back after its
    sign, for one canonical decimal in range and one continuation. *)
Section ReadingMagnitude.

Variables (neg : bool) (d1 : N) (tl : list N) (n : Z) (rest : jsstring).

Let ds : list N := d1 :: tl.
Let k : Z := Z.of_nat (length ds).

Hypothesis Hcanonical : canonical (mkDecimal neg ds n) = true.
Hypothesis Hrange : overflows ds n = false.
Hypothesis Hrest : ends_number rest = true.

Lemma digits_below_ten : forallb (fun x => N.ltb x 10) ds = true.
Proof. exact (proj1 (canonical_parts _ _ _ _ Hcanonical)). Qed.

Lemma first_digit_not_zero : N.eqb d1 0 = false.
Proof. exact (proj2 (canonical_parts _ _ _ _ Hcanonical)). Qed.

Lemma no_digit_follows :
  match rest with [] => true | c :: _ => negb (is_digit c) end = true.
Proof. exact (not_digit_next _ Hrest). Qed.

(** The mantissa [ds], padded with [a] zeros before and [b] after, with the
    point such that [a] of the positions are the padding. *)
Lemma padded_mantissa (a b : nat) (pt : Z) :
  pt - Z.of_nat a = n ->
  make_number neg (repeat 0%N a ++ ds ++ repeat 0%N b) pt
  = Finite (mkDecimal neg ds n).
Proof.
  intros E. rewrite <- E. apply make_number_padded; rewrite ?E; try assumption.
  discriminate.
Qed.

Lemma leading_zeros (a : nat) (pt : Z) :
  pt - Z.of_nat a = n ->
  make_number neg (repeat 0%N a ++ ds) pt = Finite (mkDecimal neg ds n).
Proof.
  intros E. rewrite <- (app_nil_r ds) at 1. now apply (padded_mantissa a 0).
Qed.

Lemma bare_mantissa (pt : Z) :
  pt = n -> make_number neg ds pt = Finite (mkDecimal neg ds n).
Proof. intros E. apply (leading_zeros 0). simpl. lia. Qed.

(** [k <= n <= 21]: the digits, then [n - k] zeros. *)
Lemma read_integer :
  k <= n ->
  parse_magnitude neg
    ((digit_chars ds ++ digit_chars (repeat 0%N (Z.to_nat (n - k)))) ++ rest)
  = Some (Finite (mkDecimal neg ds n), rest).
Proof.
  intros Hkn. unfold parse_magnitude. rewrite <- digit_chars_app.
  assert (Hall : forallb (fun x => N.ltb x 10) (ds ++ repeat 0%N (Z.to_nat (n - k))) = true).
  { rewrite forallb_app, digits_below_ten. apply forallb_repeat_zero. }
  change (ds ++ repeat 0%N (Z.to_nat (n - k)))
    with (d1 :: (tl ++ repeat 0%N (Z.to_nat (n - k)))) in *.
  rewrite (parse_int_part_digits _ _ _ Hall first_digit_not_zero no_digit_follows).
  rewrite (parse_frac_part_none _ Hrest), (parse_exp_part_none _ Hrest).
  f_equal. f_equal. rewrite app_nil_r.
  apply (padded_mantissa 0 (Z.to_nat (n - k))).
  cbn [length]. rewrite length_app, repeat_length.
  unfold k, ds in *. cbn [length] in *. lia.
Qed.

(** [0 < n < k], [n <= 21]: [n] digits, the point, the other digits. *)
Lemma read_fraction :
  0 < n < k ->
  parse_magnitude neg
    ((digit_chars (firstn (Z.to_nat n) ds) ++ js "."
        ++ digit_chars (skipn (Z.to_nat n) ds)) ++ rest)
  = Some (Finite (mkDecimal neg ds n), rest).
Proof.
  intros [Hn0 Hnk]. unfold parse_magnitude.
  assert (Hfirst : exists tl1, firstn (Z.to_nat n) ds = d1 :: tl1).
  { destruct (Z.to_nat n) eqn:En; [lia|]. simpl. eauto. }
  destruct Hfirst as (tl1 & Hfirst).
  assert (Hskip : skipn (Z.to_nat n) ds <> []).
  { intros E. apply (f_equal (@length N)) in E. rewrite length_skipn in E.
    unfold k in Hnk. cbn [length] in E, Hnk. lia. }
  rewrite <- !app_assoc. rewrite Hfirst.
  rewrite parse_int_part_digits;
    [ | rewrite <- Hfirst; apply forallb_firstn, digits_below_ten
      | exact first_digit_not_zero | reflexivity].
  change (js "." ++ ?x) with (46%N :: x).
  rewrite (@parse_frac_part_digits (skipn (Z.to_nat n) ds) rest Hskip
             (@forallb_skipn (Z.to_nat n) ds digits_below_ten) no_digit_follows).
  rewrite (parse_exp_part_none _ Hrest).
  f_equal. f_equal.
  change (d1 :: tl1 ++ skipn (Z.to_nat n) ds) with ((d1 :: tl1) ++ skipn (Z.to_nat n) ds).
  rewrite <- Hfirst, firstn_skipn.
  apply bare_mantissa. rewrite length_firstn. unfold k in Hnk. lia.
Qed.

(** [-6 < n <= 0]: a zero, the point, [-n] zeros, the digits. *)
Lemma read_small :
  n <= 0 ->
  parse_magnitude neg
    ((js "0." ++ digit_chars (repeat 0%N (Z.to_nat (- n))) ++ digit_chars ds) ++ rest)
  = Some (Finite (mkDecimal neg ds n), rest).
Proof.
  intros Hn0. unfold parse_magnitude.
  change (js "0." ++ ?x) with (48%N :: 46%N :: x).
  cbn [app parse_int_part N.eqb Pos.eqb].
  rewrite <- digit_chars_app.
  rewrite parse_frac_part_digits;
    [ | destruct (repeat 0%N (Z.to_nat (- n))); discriminate
      | rewrite forallb_app, forallb_repeat_zero; exact digits_below_ten
      | exact no_digit_follows ].
  rewrite (parse_exp_part_none _ Hrest).
  f_equal. f_equal.
  apply (leading_zeros (S (Z.to_nat (- n)))). cbn [length]. lia.
Qed.

(** Otherwise: one digit, the others after the point, and the exponent
    [n - 1] with its sign. *)
Lemma read_exponent :
  parse_magnitude neg
    ((digit_chars [d1]
        ++ match tl with [] => [] | _ :: _ => js "." ++ digit_chars tl end
        ++ js "e" ++ (if n - 1 <? 0 then js "-" else js "+")
        ++ digit_chars (N_digits (Z.to_N (Z.abs (n - 1))))) ++ rest)
  = Some (Finite (mkDecimal neg ds n), rest).
Proof.
  unfold parse_magnitude.
  pose proof digits_below_ten as Hlt. unfold ds in Hlt. cbn [forallb] in Hlt.
  apply andb_true_iff in Hlt as [Hlt1 Hlttl].
  rewrite <- !app_assoc.
  rewrite (parse_int_part_digits d1 [] _);
    [ | cbn [forallb]; now rewrite Hlt1 | exact first_digit_not_zero
      | destruct tl; reflexivity ].
  assert (Hfrac : parse_frac_part
                    (match tl with [] => [] | _ :: _ => js "." ++ digit_chars tl end
                     ++ js "e" ++ (if n - 1 <? 0 then js "-" else js "+")
                     ++ digit_chars (N_digits (Z.to_N (Z.abs (n - 1)))) ++ rest)
                  = Some (tl, js "e" ++ (if n - 1 <? 0 then js "-" else js "+")
                     ++ digit_chars (N_digits (Z.to_N (Z.abs (n - 1)))) ++ rest)).
  { destruct tl as [|d2 tl2]; [reflexivity|].
    rewrite <- app_assoc. change (js "." ++ ?x) with (46%N :: x).
    apply parse_frac_part_digits; [discriminate | exact Hlttl | reflexivity]. }
  rewrite Hfrac.
  change (js "e" ++ ?x) with (101%N :: x).
  replace (if n - 1 <? 0 then js "-" else js "+")
    with (if n - 1 <? 0 then [45%N] else [43%N]) by (destruct (n - 1 <? 0); reflexivity).
  rewrite (parse_exp_part_value (n - 1) _ no_digit_follows).
  f_equal. f_equal.
  apply bare_mantissa. cbn [length]. lia.
Qed.

Lemma parse_magnitude_toString :
  parse_magnitude neg (magnitude_toString d1 tl n ++ rest)
  = Some (Finite (mkDecimal neg ds n), rest).
Proof.
  unfold magnitude_toString. fold ds. fold k.
  destruct ((k <=? n) && (n <=? 21)) eqn:CA.
  { apply andb_true_iff in CA as [Hkn _]. apply Z.leb_le in Hkn.
    now apply read_integer. }
  destruct ((0 <? n) && (n <=? 21)) eqn:CB.
  { apply andb_true_iff in CB as [Hn0 Hn21].
    apply Z.ltb_lt in Hn0. apply Z.leb_le in Hn21.
    apply read_fraction.
    apply andb_false_iff in CA as [CA|CA]; apply Z.leb_gt in CA; lia. }
  destruct ((-6 <? n) && (n <=? 0)) eqn:CC.
  { apply andb_true_iff in CC as [_ Hn0]. apply Z.leb_le in Hn0.
    now apply read_small. }
  apply read_exponent.
Qed.

End ReadingMagnitude.

(* ----------------------------------------------------------------- *)
(** ** The numbers of a parsed text *)

Lemma drop_zeros_spec (ds : list N) :
  forallb (fun x => N.ltb x 10) ds = true ->
  forallb (fun x => N.ltb x 10) (drop_zeros ds) = true
  /\ match drop_zeros ds with
     | [] => True
     | d :: _ => N.eqb d 0 = false
     end.
Proof.
  induction ds as [|d ds IH]; intros H; simpl in *; [auto|].
  apply andb_true_iff in H as [H1 H2].
  destruct (N.eqb d 0) eqn:E; [auto|]. simpl. rewrite H1, H2, E. auto.
Qed.

Lemma drop_zeros_keeps_last (a : list N) (h : N) :
  N.eqb h 0 = false -> exists a', drop_zeros (a ++ [h]) = a' ++ [h].
Proof.
  intros Hh. induction a as [|x a (a' & IH)]; simpl.
  - rewrite Hh. now exists [].
  - destruct (N.eqb x 0); [eauto|]. now exists (x :: a).
Qed.

Lemma forallb_rev (f : N -> bool) (l : list N) :
  forallb f l = true -> forallb f (rev l) = true.
Proof.
  rewrite !forallb_forall. intros H x Hx. apply H. now apply in_rev.
Qed.

(** The number of a literal is Infinity or a canonical decimal in range. *)
Lemma make_number_cases (neg : bool) (ds : list N) (pt : Z) :
  forallb (fun x => N.ltb x 10) ds = true ->
  make_number neg ds pt = Infinity neg
  \/ finite_number (make_number neg ds pt) = true.
Proof.
  intros Hds. unfold make_number.
  destruct (drop_zeros_spec ds Hds) as [Hlead Hhead].
  set (lead := drop_zeros ds) in *.
  set (pt' := pt - Z.of_nat (length ds - length lead)).
  destruct (drop_trailing_zeros lead) as [|d1 tl] eqn:Es; [right; reflexivity|].
  destruct (overflows (d1 :: tl) pt') eqn:Hov; [now left|]. right.
  cbn [finite_number digits point]. rewrite Hov, andb_true_r.
  unfold canonical. cbn [digits].
  unfold drop_trailing_zeros in Es.
  destruct (drop_zeros_spec (rev lead) (forallb_rev _ _ Hlead)) as [Hu Hu0].
  assert (Hall : forallb (fun x => N.ltb x 10) (d1 :: tl) = true).
  { rewrite <- Es. now apply forallb_rev. }
  rewrite Hall. cbn [andb].
  destruct lead as [|h t] eqn:El; [discriminate|].
  simpl rev in Es, Hu0.
  destruct (drop_zeros_keeps_last (rev t) _ Hhead) as (a' & Ea).
  rewrite Ea in Es. rewrite rev_app_distr in Es. simpl in Es.
  injection Es as <- <-. rewrite Hhead. cbn [negb andb].
  rewrite Ea in Hu0.
  destruct a' as [|y a'].
  - simpl. now rewrite Hhead.
  - assert (Hy : N.eqb y 0 = false) by exact Hu0.
    replace (last (h :: rev (y :: a')) 1%N) with y; [now rewrite Hy|].
    simpl rev. change (h :: (rev a' ++ [y])) with ((h :: rev a') ++ [y]).
    now rewrite last_last.
Qed.

(* ----------------------------------------------------------------- *)
(** ** Strings: reading what [QuoteJSONString] prints *)

Lemma hex_value_hex_char (n : N) : (n < 16)%N -> hex_value (hex_char n) = Some n.
Proof.
  intros H. unfold hex_char, hex_value.
  destruct (N.ltb n 10) eqn:E.
  - apply N.ltb_lt in E.
    replace ((48 <=? 48 + n) && (48 + n <=? 57))%N with true
      by (symmetry; apply andb_true_iff; split; apply N.leb_le; lia).
    f_equal. lia.
  - apply N.ltb_ge in E.
    replace ((48 <=? 87 + n) && (87 + n <=? 57))%N with false
      by (symmetry; apply andb_false_iff; right; apply N.leb_gt; lia).
    replace ((97 <=? 87 + n) && (87 + n <=? 102))%N with true
      by (symmetry; apply andb_true_iff; split; apply N.leb_le; lia).
    f_equal. lia.
Qed.

Lemma hex4_value_escape (c : N) :
  (c < 65536)%N ->
  hex4_value (hex_char (c / 4096 mod 16)) (hex_char (c / 256 mod 16))
             (hex_char (c / 16 mod 16)) (hex_char (c mod 16)) = Some c.
Proof.
  intros H. unfold hex4_value.
  rewrite !hex_value_hex_char by (apply N.mod_lt; discriminate).
  f_equal.
  pose proof (N.div_mod c 16 ltac:(discriminate)) as E1.
  pose proof (N.div_mod (c / 16) 16 ltac:(discriminate)) as E2.
  pose proof (N.div_mod (c / 256) 16 ltac:(discriminate)) as E3.
  assert (D2 : (c / 16 / 16 = c / 256)%N) by (rewrite N.Div0.div_div; reflexivity).
  assert (D3 : (c / 256 / 16 = c / 4096)%N) by (rewrite N.Div0.div_div; reflexivity).
  rewrite D2 in E2. rewrite D3 in E3.
  assert (Hsmall : (c / 4096 < 16)%N).
  { apply N.Div0.div_lt_upper_bound. exact H. }
  rewrite (N.mod_small (c / 4096) 16) by exact Hsmall.
  lia.
Qed.

Lemma parse_chars_escape (c : N) (r : jsstring) :
  (c < 65536)%N ->
  parse_chars (unicode_escape c ++ r) = cons_unit c (parse_chars r).
Proof.
  intros H. unfold unicode_escape. cbn [app parse_chars N.eqb Pos.eqb].
  now rewrite hex4_value_escape.
Qed.

Lemma parse_chars_raw (c : N) (r : jsstring) :
  N.eqb c 34 = false -> N.eqb c 92 = false -> N.ltb c 32 = false ->
  parse_chars (c :: r) = cons_unit c (parse_chars r).
Proof. intros H1 H2 H3. cbn [parse_chars]. now rewrite H1, H2, H3. Qed.

Lemma parse_chars_quote_unit (c : N) (r : jsstring) :
  parse_chars (quote_unit c ++ r) = cons_unit c (parse_chars r).
Proof.
  unfold quote_unit.
  destruct (N.eqb c 8) eqn:E8; [apply N.eqb_eq in E8; subst; reflexivity|].
  destruct (N.eqb c 9) eqn:E9; [apply N.eqb_eq in E9; subst; reflexivity|].
  destruct (N.eqb c 10) eqn:E10; [apply N.eqb_eq in E10; subst; reflexivity|].
  destruct (N.eqb c 12) eqn:E12; [apply N.eqb_eq in E12; subst; reflexivity|].
  destruct (N.eqb c 13) eqn:E13; [apply N.eqb_eq in E13; subst; reflexivity|].
  destruct (N.eqb c 34) eqn:E34; [apply N.eqb_eq in E34; subst; reflexivity|].
  destruct (N.eqb c 92) eqn:E92; [apply N.eqb_eq in E92; subst; reflexivity|].
  destruct ((c <? 32)%N || is_high_surrogate c || is_low_surrogate c) eqn:E.
  - apply parse_chars_escape.
    unfold is_high_surrogate, is_low_surrogate in E.
    apply orb_true_iff in E as [E|E]; [apply orb_true_iff in E as [E|E]|].
    + apply N.ltb_lt in E. lia.
    + apply andb_true_iff in E as [_ E]. apply N.leb_le in E. lia.
    + apply andb_true_iff in E as [_ E]. apply N.leb_le in E. lia.
  - apply orb_false_iff in E as [E _]. apply orb_false_iff in E as [E _].
    now apply parse_chars_raw.
Qed.

Lemma surrogate_is_raw (c : N) :
  is_high_surrogate c || is_low_surrogate c = true ->
  N.eqb c 34 = false /\ N.eqb c 92 = false /\ N.ltb c 32 = false.
Proof.
  unfold is_high_surrogate, is_low_surrogate. intros H.
  assert (55296 <= c)%N.
  { apply orb_true_iff in H as [H|H]; apply andb_true_iff in H as [H _];
      apply N.leb_le in H; lia. }
  repeat split; [apply N.eqb_neq | apply N.eqb_neq | apply N.ltb_ge]; lia.
Qed.

Lemma quote_units_two (c c2 : N) (tl2 : jsstring) :
  quote_units (c :: c2 :: tl2)
  = if is_high_surrogate c && is_low_surrogate c2
    then c :: c2 :: quote_units tl2
    else quote_unit c ++ quote_units (c2 :: tl2).
Proof. reflexivity. Qed.

Lemma parse_chars_quote_units (s rest : jsstring) :
  parse_chars (quote_units s ++ 34%N :: rest) = Some (s, rest).
Proof.
  assert (H : forall n s, (length s <= n)%nat ->
                          parse_chars (quote_units s ++ 34%N :: rest) = Some (s, rest)).
  { clear s. induction n as [|n IH]; intros s Hlen.
    - destruct s; [reflexivity | simpl in Hlen; lia].
    - destruct s as [|c [|c2 tl2]].
      + reflexivity.
      + cbn [quote_units]. rewrite parse_chars_quote_unit. reflexivity.
      + rewrite quote_units_two.
        destruct (is_high_surrogate c && is_low_surrogate c2) eqn:E.
        * apply andb_true_iff in E as [Eh El].
          destruct (surrogate_is_raw c) as (A1 & A2 & A3); [now rewrite Eh|].
          destruct (surrogate_is_raw c2) as (B1 & B2 & B3);
            [rewrite El; apply orb_true_r|].
          cbn [app]. rewrite parse_chars_raw by assumption.
          rewrite parse_chars_raw by assumption.
          rewrite IH by (simpl in *; lia). reflexivity.
        * rewrite <- app_assoc, parse_chars_quote_unit.
          rewrite IH by (simpl in *; lia). reflexivity. }
  apply (H (length s)). lia.
Qed.

(* ----------------------------------------------------------------- *)
(** ** Values: reading what [JSON.stringify] prints *)

Lemma json_induction (P : json -> Prop) :
  P JNull -> (forall b, P (JBool b)) -> (forall x, P (JNum x)) ->
  (forall s, P (JStr s)) ->
  (forall items, Forall P items -> P (JArr items)) ->
  (forall members, Forall (fun kv => P (snd kv)) members -> P (JObj members)) ->
  forall v, P v.
Proof.
  intros HNull HBool HNum HStr HArr HObj.
  refine (fix go (v : json) : P v :=
            match v with
            | JNull => HNull
            | JBool b => HBool b
            | JNum x => HNum x
            | JStr s => HStr s
            | JArr items =>
                HArr items
                  ((fix all (l : list json) : Forall P l :=
                      match l with
                      | [] => Forall_nil _
                      | x :: l' => Forall_cons x (go x) (all l')
                      end) items)
            | JObj members =>
                HObj members
                  ((fix all (l : list (jsstring * json))
                      : Forall (fun kv => P (snd kv)) l :=
                      match l with
                      | [] => Forall_nil _
                      | kv :: l' => Forall_cons kv (go (snd kv)) (all l')
                      end) members)
            end).
Qed.

Lemma magnitude_head (d1 : N) (tl : list N) (n : Z) :
  N.ltb d1 10 = true ->
  exists c r, magnitude_toString d1 tl n = c :: r /\ is_digit c = true.
Proof.
  intros H. pose proof (is_digit_char _ H) as Hd. unfold magnitude_toString.
  destruct ((Z.of_nat (length (d1 :: tl)) <=? n) && (n <=? 21)).
  { cbn [digit_chars map app]. eauto. }
  destruct ((0 <? n) && (n <=? 21)) eqn:CB.
  { apply andb_true_iff in CB as [Hn _]. apply Z.ltb_lt in Hn.
    destruct (Z.to_nat n) eqn:E; [lia|]. cbn [firstn digit_chars map app]. eauto. }
  destruct ((-6 <? n) && (n <=? 0)).
  { exists 48%N. eexists. split; reflexivity. }
  cbn [digit_chars map app]. eauto.
Qed.

Lemma digit_facts (c : N) :
  N.eqb c 45 || is_digit c = true ->
  is_json_space c = false
  /\ N.eqb c 123 = false /\ N.eqb c 91 = false /\ N.eqb c 34 = false
  /\ N.eqb c 116 = false /\ N.eqb c 102 = false /\ N.eqb c 110 = false
  /\ N.eqb c 93 = false /\ N.eqb c 125 = false.
Proof.
  intros H.
  assert (B : (c = 45 \/ (48 <= c /\ c <= 57))%N).
  { apply orb_true_iff in H as [H|H].
    - left. now apply N.eqb_eq.
    - right. unfold is_digit in H. apply andb_true_iff in H as [H1 H2].
      apply N.leb_le in H1, H2. lia. }
  unfold is_json_space.
  repeat split; repeat (apply orb_false_iff; split); apply N.eqb_neq; lia.
Qed.

Lemma parse_value_number (f : nat) (c : N) (r : jsstring) :
  N.eqb c 45 || is_digit c = true ->
  parse_value (S f) (c :: r)
  = match parse_number (c :: r) with
    | Some (x, r') => Some (JNum x, r')
    | None => None
    end.
Proof.
  intros H.
  destruct (digit_facts _ H) as (W & E1 & E2 & E3 & E4 & E5 & E6 & _).
  cbn [parse_value skip_ws]. rewrite W, E1, E2, E3, E4, E5, E6, H. reflexivity.
Qed.

Lemma parse_number_toString (d : decimal) (rest : jsstring) :
  canonical d = true -> overflows (digits d) (point d) = false ->
  ends_number rest = true ->
  exists c r, Number_toString (Finite d) ++ rest = c :: r
              /\ (N.eqb c 45 || is_digit c = true)
              /\ parse_number (c :: r) = Some (Finite d, rest).
Proof.
  intros Hc Hov Hrest. destruct d as [neg ds n]. cbn [digits point] in Hov.
  unfold Number_toString. cbn [digits negative point].
  destruct ds as [|d1 tl].
  - unfold canonical in Hc. cbn [digits negative point] in Hc.
    apply andb_true_iff in Hc as [Hneg Hn]. apply negb_true_iff in Hneg.
    apply Z.eqb_eq in Hn. subst neg n.
    exists 48%N, rest. split; [reflexivity|]. split; [reflexivity|].
    cbn [parse_number N.eqb Pos.eqb]. unfold parse_magnitude.
    cbn [parse_int_part N.eqb Pos.eqb].
    rewrite (parse_frac_part_none _ Hrest), (parse_exp_part_none _ Hrest).
    reflexivity.
  - destruct (canonical_parts _ _ _ _ Hc) as [Hlt Hd1].
    cbn [forallb] in Hlt. apply andb_true_iff in Hlt as [Hlt1 _].
    destruct (magnitude_head d1 tl n Hlt1) as (c & r & Hm & Hdig).
    pose proof (@parse_magnitude_toString neg d1 tl n rest Hc Hov Hrest) as Hp.
    rewrite Hm in *.
    destruct neg.
    + exists 45%N, (c :: r ++ rest). split; [reflexivity|]. split; [reflexivity|].
      cbn [parse_number N.eqb Pos.eqb]. exact Hp.
    + exists c, (r ++ rest). split; [reflexivity|]. split; [now rewrite Hdig, orb_true_r|].
      cbn [parse_number].
      replace (N.eqb c 45) with false; [exact Hp|].
      symmetry. apply N.eqb_neq. unfold is_digit in Hdig.
      apply andb_true_iff in Hdig as [H1 _]. apply N.leb_le in H1. lia.
Qed.

Lemma skip_ws_head (c : N) (r : jsstring) :
  is_json_space c = false -> skip_ws (c :: r) = c :: r.
Proof. intros H. simpl. now rewrite H. Qed.

Lemma stringify_head (v : json) :
  plain v = true ->
  exists c r, JSON_stringify v = c :: r
              /\ is_json_space c = false
              /\ N.eqb c 93 = false /\ N.eqb c 125 = false.
Proof.
  intros Hp. destruct v as [|[|]|x|s|items|members].
  - exists 110%N. eexists. repeat split.
  - exists 116%N. eexists. repeat split.
  - exists 102%N. eexists. repeat split.
  - destruct x as [d| |]; try discriminate. cbn [plain finite_number] in Hp.
    apply andb_true_iff in Hp as [Hc Hov]. apply negb_true_iff in Hov.
    destruct (@parse_number_toString d [] Hc Hov eq_refl) as (c & r & E & Hd & _).
    rewrite app_nil_r in E.
    destruct (digit_facts _ Hd) as (W & _ & _ & _ & _ & _ & _ & E93 & E125).
    exists c, r. cbn [JSON_stringify]. auto.
  - exists 34%N. eexists. repeat split.
  - exists 91%N. eexists. repeat split.
  - exists 123%N. eexists. repeat split.
Qed.

Lemma join_cons (sep p : jsstring) (ps : list jsstring) :
  join sep (p :: ps) = p ++ match ps with [] => [] | _ :: _ => sep ++ join sep ps end.
Proof. destruct ps; simpl; [now rewrite app_nil_r | reflexivity]. Qed.

Lemma parse_elements_join (items : list json) :
  Forall reads_back items -> forallb plain items = true ->
  forall v0 acc fuel rest,
    reads_back v0 -> plain v0 = true ->
    (list_sum (map (fun x => S (weight x)) (v0 :: items)) <= fuel)%nat ->
    parse_elements fuel acc
      (join (js ",") (map JSON_stringify (v0 :: items)) ++ 93%N :: rest)
    = Some (JArr (rev acc ++ v0 :: items), rest).
Proof.
  induction items as [|v1 items IH]; intros Hall Hplain v0 acc fuel rest Hv0 Hp0 Hfuel.
  - cbn [map join list_sum fold_right] in *.
    destruct fuel as [|f]; [lia|].
    cbn [parse_elements].
    rewrite (Hv0 Hp0 f (93%N :: rest)) by (lia || reflexivity).
    reflexivity.
  - inversion Hall as [|? ? Hv1 Hrest]; subst.
    cbn [forallb] in Hplain. apply andb_true_iff in Hplain as [Hp1 Hplain].
    change (map JSON_stringify (v0 :: v1 :: items))
      with (JSON_stringify v0 :: map JSON_stringify (v1 :: items)).
    rewrite join_cons. cbn [map]. cbn [map list_sum fold_right] in Hfuel.
    destruct fuel as [|f]; [lia|].
    rewrite <- !app_assoc.
    cbn [parse_elements].
    rewrite (Hv0 Hp0 f) by (lia || reflexivity).
    cbn [js map String.list_ascii_of_string app skip_ws].
    change (is_json_space (Ascii.N_of_ascii ",")) with false. cbv iota.
    change (N.eqb (Ascii.N_of_ascii ",") 44) with true. cbv iota.
    change (JSON_stringify v1 :: map JSON_stringify items)
      with (map JSON_stringify (v1 :: items)).
    change [Ascii.N_of_ascii ","] with (js ",").
    rewrite (IH Hrest Hplain v1 (v0 :: acc) f rest Hv1 Hp1) by (cbn [map list_sum fold_right]; lia).
    cbn [rev]. now rewrite <- app_assoc.
Qed.

Lemma parse_members_join (members : list (jsstring * json)) :
  Forall (fun kv => reads_back (snd kv)) members ->
  forallb (fun kv => plain (snd kv)) members = true ->
  forall kv0 acc fuel rest,
    reads_back (snd kv0) -> plain (snd kv0) = true ->
    (list_sum (map (fun kv => S (weight (snd kv))) (kv0 :: members)) <= fuel)%nat ->
    parse_members fuel acc
      (join (js ",") (map member_text (kv0 :: members)) ++ 125%N :: rest)
    = Some (JObj (fold_left set_member (kv0 :: members) acc), rest).
Proof.
  assert (Hone : forall kv f acc tail,
             reads_back (snd kv) -> plain (snd kv) = true ->
             (weight (snd kv) <= f)%nat -> ends_number tail = true ->
             forall c2 r2, skip_ws tail = c2 :: r2 ->
             parse_members (S f) acc (member_text kv ++ tail)
             = if N.eqb c2 44 then parse_members f (set_member acc kv) r2
               else if N.eqb c2 125 then Some (JObj (set_member acc kv), r2)
               else None).
  { intros [k v] f acc tail Hv Hp Hw Ht c2 r2 Hskip. cbn [snd] in *.
    unfold member_text, quote. cbn [fst snd].
    cbn [app parse_members skip_ws]. 
    change (is_json_space 34) with false. cbv iota.
    change (N.eqb 34 34) with true. cbv iota.
    rewrite <- !app_assoc. cbn [app].
    rewrite parse_chars_quote_units.
    cbn [js map String.list_ascii_of_string app skip_ws].
    change (is_json_space (Ascii.N_of_ascii ":")) with false. cbv iota.
    change (N.eqb (Ascii.N_of_ascii ":") 58) with true. cbv iota.
    rewrite (Hv Hp f tail Hw Ht). rewrite Hskip. reflexivity. }
  induction members as [|kv1 members IH];
    intros Hall Hplain kv0 acc fuel rest Hv0 Hp0 Hfuel.
  - cbn [map join list_sum fold_right] in *.
    destruct fuel as [|f]; [lia|].
    rewrite (Hone kv0 f acc (125%N :: rest) Hv0 Hp0 ltac:(lia) eq_refl 125%N rest eq_refl).
    reflexivity.
  - inversion Hall as [|? ? Hv1 Hrest]; subst.
    cbn [forallb] in Hplain. apply andb_true_iff in Hplain as [Hp1 Hplain].
    change (map member_text (kv0 :: kv1 :: members))
      with (member_text kv0 :: map member_text (kv1 :: members)).
    rewrite join_cons. cbn [map]. cbn [map list_sum fold_right] in Hfuel.
    destruct fuel as [|f]; [lia|].
    rewrite <- !app_assoc.
    change (js "," ++ ?x) with (44%N :: x).
    rewrite (Hone kv0 f acc (44%N :: _) Hv0 Hp0 ltac:(lia) eq_refl 44%N _ eq_refl).
    change (N.eqb 44 44) with true. cbv iota.
    change (member_text kv1 :: map member_text members)
      with (map member_text (kv1 :: members)).
    rewrite (IH Hrest Hplain kv1 (set_member acc kv0) f rest Hv1 Hp1)
      by (cbn [map list_sum fold_right]; lia).
    reflexivity.
Qed.

Lemma obj_set_fresh (o : list (jsstring * json)) (k : jsstring) (v : json) :
  forallb (fun k' => negb (jsstring_eqb k' k)) (map fst o) = true ->
  obj_set o k v = o ++ [(k, v)].
Proof.
  induction o as [|[k' v'] o IH]; simpl; [reflexivity|].
  intros H. apply andb_true_iff in H as [H1 H2]. apply negb_true_iff in H1.
  rewrite H1. now rewrite IH.
Qed.

Lemma distinct_before (ks1 : list jsstring) (k : jsstring) (ks2 : list jsstring) :
  distinct (ks1 ++ k :: ks2) = true ->
  forallb (fun k' => negb (jsstring_eqb k' k)) ks1 = true.
Proof.
  induction ks1 as [|k1 ks1 IH]; simpl; [reflexivity|].
  intros H. apply andb_true_iff in H as [H1 H2].
  rewrite (IH H2), andb_true_r.
  apply negb_true_iff in H1. apply negb_true_iff.
  rewrite existsb_app in H1. apply orb_false_iff in H1 as [_ H1].
  simpl in H1. now apply orb_false_iff in H1 as [H1 _].
Qed.

Lemma fold_set_member_distinct (members acc : list (jsstring * json)) :
  distinct (map fst (acc ++ members)) = true ->
  fold_left set_member members acc = acc ++ members.
Proof.
  revert acc; induction members as [|kv members IH]; intros acc H; simpl.
  - now rewrite app_nil_r.
  - unfold set_member at 2. rewrite obj_set_fresh.
    + destruct kv as [k v]. cbn [fst snd].
      rewrite IH; rewrite <- app_assoc; [reflexivity | exact H].
    + rewrite map_app in H. cbn [map] in H. now apply distinct_before in H.
Qed.

(** Every plain value is read back from its text. *)
Lemma stringify_reads_back (v : json) : reads_back v.
Proof.
  induction v as [|b|x|s|items IH|members IH] using json_induction;
    intros Hp fuel rest Hw Hr;
    (destruct fuel as [|f]; [simpl in Hw; lia|]).
  - reflexivity.
  - destruct b; reflexivity.
  - destruct x as [d| |]; try discriminate. cbn [plain finite_number] in Hp.
    apply andb_true_iff in Hp as [Hc Hov]. apply negb_true_iff in Hov.
    destruct (@parse_number_toString d rest Hc Hov Hr) as (c & r & E & Hd & Hparse).
    cbn [JSON_stringify]. rewrite E, (@parse_value_number f c r Hd), Hparse. reflexivity.
  - cbn [JSON_stringify]. unfold quote. rewrite <- !app_assoc.
    cbn [app parse_value skip_ws].
    change (is_json_space 34) with false. cbv iota.
    change (N.eqb 34 123) with false. change (N.eqb 34 91) with false.
    change (N.eqb 34 34) with true. cbv iota.
    now rewrite parse_chars_quote_units.
  - destruct items as [|v0 items]; [reflexivity|].
    inversion IH as [|? ? Hv0 Hrest]; subst.
    cbn [plain forallb] in Hp. apply andb_true_iff in Hp as [Hp0 Hplain].
    cbn [weight] in Hw.
    cbn [JSON_stringify]. fold JSON_stringify.
    rewrite <- !app_assoc.
    change (js "[" ++ ?x) with (91%N :: x). change (js "]" ++ rest) with (93%N :: rest).
    cbn [app parse_value skip_ws].
    change (is_json_space 91) with false. cbv iota.
    change (N.eqb 91 123) with false. change (N.eqb 91 91) with true. cbv iota.
    destruct (@stringify_head v0 Hp0) as (c0 & r0 & E0 & W0 & N93 & _).
    assert (Hhead : exists r1,
               join (js ",") (map JSON_stringify (v0 :: items)) ++ 93%N :: rest
               = c0 :: r1).
    { cbn [map]. rewrite join_cons, E0. simpl. eauto. }
    destruct Hhead as (r1 & Hhead).
    rewrite Hhead, (@skip_ws_head c0 r1 W0), N93, <- Hhead.
    rewrite (@parse_elements_join items Hrest Hplain v0 [] f rest Hv0 Hp0) by lia.
    reflexivity.
  - destruct members as [|kv0 members]; [reflexivity|].
    inversion IH as [|? ? Hv0 Hrest]; subst.
    cbn [plain] in Hp. apply andb_true_iff in Hp as [Hkeys Hp].
    cbn [forallb] in Hp. apply andb_true_iff in Hp as [Hp0 Hplain].
    cbn [weight] in Hw.
    cbn [JSON_stringify]. fold JSON_stringify.
    change (fun kv : jsstring * json => quote (fst kv) ++ js ":" ++ JSON_stringify (snd kv))
      with member_text.
    rewrite <- !app_assoc.
    change (js "{" ++ ?x) with (123%N :: x). change (js "}" ++ rest) with (125%N :: rest).
    cbn [app parse_value skip_ws].
    change (is_json_space 123) with false. cbv iota.
    change (N.eqb 123 123) with true. cbv iota.
    assert (Hhead : exists r1,
               join (js ",") (map member_text (kv0 :: members)) ++ 125%N :: rest
               = 34%N :: r1).
    { cbn [map]. rewrite join_cons. unfold member_text at 1, quote.
      simpl. eauto. }
    destruct Hhead as (r1 & Hhead).
    rewrite Hhead. cbn [skip_ws]. change (is_json_space 34) with false. cbv iota.
    change (N.eqb 34 125) with false. cbv iota. rewrite <- Hhead.
    rewrite (@parse_members_join members Hrest Hplain kv0 [] f rest Hv0 Hp0) by lia.
    rewrite fold_set_member_distinct by exact Hkeys. reflexivity.
Qed.

Lemma join_weight {A : Type} (w : A -> nat) (t : A -> jsstring) (l : list A) :
  Forall (fun a => (w a <= length (t a))%nat) l ->
  (list_sum (map (fun a => S (w a)) l) <= S (length (join (js ",") (map t l))))%nat.
Proof.
  induction l as [|a l IH]; intros H; [simpl; lia|].
  inversion H as [|? ? Ha Hl]; subst. specialize (IH Hl).
  cbn [map]. rewrite join_cons, length_app. cbn [list_sum fold_right].
  change (fold_right Nat.add 0%nat (map (fun a => S (w a)) l))
    with (list_sum (map (fun a => S (w a)) l)).
  destruct l as [|b l]; [simpl; lia|].
  cbn [map] in *. cbv iota. rewrite length_app.
  change (length (js ",")) with 1%nat. lia.
Qed.

Lemma weight_le_length (v : json) :
  plain v = true -> (weight v <= length (JSON_stringify v))%nat.
Proof.
  induction v as [|b|x|s|items IH|members IH] using json_induction; intros Hp;
    try (destruct (@stringify_head _ Hp) as (c & r & E & _); rewrite E; simpl; lia).
  - cbn [plain] in Hp. cbn [weight JSON_stringify]. fold JSON_stringify.
    rewrite !length_app. simpl length at 1 3.
    assert (H : Forall (fun a => (weight a <= length (JSON_stringify a))%nat) items).
    { rewrite Forall_forall in *. intros a Ha. apply IH; [exact Ha|].
      rewrite forallb_forall in Hp. now apply Hp. }
    pose proof (@join_weight _ weight JSON_stringify items H). lia.
  - cbn [plain] in Hp. apply andb_true_iff in Hp as [_ Hp].
    cbn [weight JSON_stringify]. fold JSON_stringify.
    change (fun kv : jsstring * json => quote (fst kv) ++ js ":" ++ JSON_stringify (snd kv))
      with member_text.
    rewrite !length_app. simpl length at 1 3.
    assert (H : Forall (fun kv => (weight (snd kv) <= length (member_text kv))%nat) members).
    { rewrite Forall_forall in *. intros kv Hkv. unfold member_text.
      rewrite !length_app. rewrite forallb_forall in Hp.
      specialize (IH kv Hkv (Hp kv Hkv)). lia. }
    pose proof (@join_weight _ (fun kv => weight (snd kv)) member_text members H). lia.
Qed.

(** [JSON.parse(JSON.stringify(v))] is [v] for every plain value. *)
Lemma JSON_parse_stringify (v : json) :
  plain v = true -> JSON_parse (JSON_stringify v) = Some v.
Proof.
  intros Hp. unfold JSON_parse.
  rewrite <- (app_nil_r (JSON_stringify v)) at 2.
  rewrite (@stringify_reads_back v Hp (S (length (JSON_stringify v))) [])
    by (try reflexivity; pose proof (@weight_le_length v Hp); lia).
  reflexivity.
Qed.

(* ----------------------------------------------------------------- *)
(** ** The persisted record *)

Lemma traverse_map {A B : Type} (f : A -> option B) (g : B -> A) (l : list B) :
  (forall b, f (g b) = Some b) -> traverse f (map g l) = Some l.
Proof.
  intros H. induction l as [|b l IH]; simpl; [reflexivity|].
  rewrite H. simpl. rewrite IH. reflexivity.
Qed.

Lemma TaskStatus_of_name (x : TaskStatus.t) : TaskStatus_of (TaskStatus_name x) = Some x.
Proof. destruct x; reflexivity. Qed.

Lemma VerificationStatus_of_name (x : VerificationStatus.t) :
  VerificationStatus_of (VerificationStatus_name x) = Some x.
Proof. destruct x; reflexivity. Qed.

Lemma AgentType_of_name (x : AgentType) : AgentType_of (AgentType_name x) = Some x.
Proof. destruct x; reflexivity. Qed.

Lemma AgentPersonality_of_name (x : AgentPersonality) :
  AgentPersonality_of (AgentPersonality_name x) = Some x.
Proof. destruct x; reflexivity. Qed.

Lemma Role_of_name (x : ChatMessage.Role) : Role_of (Role_name x) = Some x.
Proof. destruct x; reflexivity. Qed.

Lemma ProjectDNA_of_value (d : ProjectDNA) : ProjectDNA_of (ProjectDNA_value d) = Some d.
Proof. destruct d. reflexivity. Qed.

Lemma ChatMessage_of_value (m : ChatMessage.t) :
  ChatMessage_of (ChatMessage_value m) = Some m.
Proof.
  destruct m as [i r x ts sn pe]. unfold ChatMessage_of, ChatMessage_value.
  cbn [ChatMessage.id ChatMessage.role ChatMessage.text ChatMessage.timestamp
       ChatMessage.senderName ChatMessage.personality].
  destruct sn as [sn|], pe as [pe|]; cbn -[Role_of Role_name AgentPersonality_of AgentPersonality_name];
    unfold as_enum; cbn -[Role_of Role_name AgentPersonality_of AgentPersonality_name];
    rewrite ?Role_of_name, ?AgentPersonality_of_name; reflexivity.
Qed.

Lemma MicroTask_of_value (t : MicroTask) : MicroTask_of (MicroTask_value t) = Some t.
Proof.
  destruct t as [i ti de em st vs ag co vc ch]. unfold MicroTask_of, MicroTask_value.
  cbn [id title description estimatedMinutes status verificationStatus agentType
       content visualCode chatHistory].
  pose proof (traverse_map ChatMessage_of ChatMessage_value ch ChatMessage_of_value) as Hch.
  pose proof (TaskStatus_of_name st) as Hst.
  pose proof (VerificationStatus_of_name vs) as Hvs.
  pose proof (AgentType_of_name ag) as Hag.
  remember (map ChatMessage_value ch) as hist eqn:Ehist. clear Ehist.
  remember (TaskStatus_name st) as stn eqn:E1. clear E1.
  remember (VerificationStatus_name vs) as vsn eqn:E2. clear E2.
  remember (AgentType_name ag) as agn eqn:E3. clear E3.
  destruct co as [co|], vc as [vc|];
    cbn -[TaskStatus_of VerificationStatus_of AgentType_of traverse ChatMessage_of];
    unfold as_enum, as_array;
    cbn -[TaskStatus_of VerificationStatus_of AgentType_of traverse ChatMessage_of];
    rewrite Hst; cbn -[TaskStatus_of VerificationStatus_of AgentType_of traverse ChatMessage_of];
    rewrite Hvs; cbn -[TaskStatus_of VerificationStatus_of AgentType_of traverse ChatMessage_of];
    rewrite Hag; cbn -[TaskStatus_of VerificationStatus_of AgentType_of traverse ChatMessage_of];
    rewrite Hch; reflexivity.
Qed.

Lemma Persisted_of_value (p : Persisted) : Persisted_of (Persisted_value p) = Some p.
Proof.
  destruct p as [d ts]. unfold Persisted_of, Persisted_value.
  cbn [saved_dna saved_tasks].
  change (field (js "dna") (JObj [(js "dna", ProjectDNA_value d);
                                  (js "tasks", JArr (map MicroTask_value ts))]))
    with (Some (ProjectDNA_value d)).
  change (field (js "tasks") (JObj [(js "dna", ProjectDNA_value d);
                                    (js "tasks", JArr (map MicroTask_value ts))]))
    with (Some (JArr (map MicroTask_value ts))).
  cbn [bind as_array]. rewrite ProjectDNA_of_value.
  rewrite (traverse_map MicroTask_of MicroTask_value ts MicroTask_of_value).
  reflexivity.
Qed.

Lemma plain_string_fields (kvs : list (jsstring * jsstring)) :
  forallb (fun kv => plain (snd kv)) (map (fun kv => (fst kv, JStr (snd kv))) kvs) = true.
Proof. induction kvs; simpl; auto. Qed.

Lemma plain_ChatMessage (m : ChatMessage.t) :
  finite_message m = true -> plain (ChatMessage_value m) = true.
Proof.
  destruct m as [i r x ts sn pe]. unfold finite_message, ChatMessage_value.
  cbn [ChatMessage.id ChatMessage.role ChatMessage.text ChatMessage.timestamp
       ChatMessage.senderName ChatMessage.personality].
  intros H. destruct sn as [sn|], pe as [pe|];
    cbn -[finite_number]; rewrite H; reflexivity.
Qed.

Lemma plain_MicroTask (t : MicroTask) :
  finite_task t = true -> plain (MicroTask_value t) = true.
Proof.
  destruct t as [i ti de em st vs ag co vc ch]. unfold finite_task, MicroTask_value.
  cbn [id title description estimatedMinutes status verificationStatus agentType
       content visualCode chatHistory].
  intros H. apply andb_true_iff in H as [Hem Hch].
  assert (Hhist : forallb plain (map ChatMessage_value ch) = true).
  { rewrite forallb_forall in *. intros v Hv.
    apply in_map_iff in Hv as (m & <- & Hm). apply plain_ChatMessage. now apply Hch. }
  remember (map ChatMessage_value ch) as hist eqn:Ehist. clear Ehist.
  destruct co as [co|], vc as [vc|];
    cbn -[finite_number]; rewrite Hem, Hhist; reflexivity.
Qed.

Lemma plain_Persisted (p : Persisted) :
  finite_numbers p = true -> plain (Persisted_value p) = true.
Proof.
  destruct p as [d ts]. unfold finite_numbers, Persisted_value.
  cbn [saved_dna saved_tasks]. intros H.
  assert (Hts : forallb plain (map MicroTask_value ts) = true).
  { rewrite forallb_forall in *. intros v Hv.
    apply in_map_iff in Hv as (t & <- & Ht). apply plain_MicroTask. now apply H. }
  remember (map MicroTask_value ts) as values eqn:E. clear E.
  destruct d. cbn. rewrite Hts. reflexivity.
Qed.


Example demo_huge_plan_is_read :
  typed_plan (generatePlan demo_dna (Resolved (Some demo_huge_text)))
  = Some (Resolved demo_huge_plan).
Proof. vm_compute. reflexivity. Qed.

Example demo_huge_is_stored :
  kinetic_state demo_huge = Some (serialize (persisted demo_huge))
  /\ serialize (persisted demo_huge)
     = jsq "{'dna':{'audience':'Founders','problem':'Slow starts','tone':'Direct','antiGoals':'Fluff','stakes':'High','rawContext':''},'tasks':[{'title':'Ship','description':'All of it','estimatedMinutes':null,'agentType':'CODER','id':'task-0','status':'IN_PROGRESS','verificationStatus':'PENDING','chatHistory':[],'content':'draft'}]}".
Proof. split; vm_compute; reflexivity. Qed.




(* ----------------------------------------------------------------- *)
(** ** Fences: cleanMermaid and extractCodeBlock *)

Lemma starts_with_self (p r : jsstring) : starts_with p (p ++ r) = true.
Proof. induction p as [|x p IH]; simpl; [reflexivity|]. now rewrite N.eqb_refl. Qed.

Lemma starts_with_skipn (p s : jsstring) :
  starts_with p s = true -> s = p ++ skipn (length p) s.
Proof.
  intros H. destruct (starts_with_app _ _ H) as (r & ->).
  now rewrite skipn_app, skipn_all, Nat.sub_diag.
Qed.

Lemma starts_with_head (p s : jsstring) (x c : code_unit) :
  c <> x -> starts_with (x :: p) (c :: s) = false.
Proof.
  intros H. simpl. destruct (N.eqb x c) eqn:E; [|reflexivity].
  apply N.eqb_eq in E. congruence.
Qed.

Lemma includes_spec (s p : jsstring) :
  includes s p = true <-> exists a b, s = a ++ p ++ b.
Proof.
  induction s as [|c s IH]; cbn [includes].
  - rewrite orb_false_r. split.
    + intros H. destruct (starts_with_app _ _ H) as (r & E). now exists [], r.
    + intros (a & b & E). destruct a; [|discriminate]. simpl in E. rewrite E.
      apply starts_with_self.
  - rewrite orb_true_iff, IH. split.
    + intros [H | (a & b & ->)].
      * destruct (starts_with_app _ _ H) as (r & E). now exists [], r.
      * now exists (c :: a), b.
    + intros (a & b & E). destruct a as [|x a]; simpl in E.
      * left. rewrite E. apply starts_with_self.
      * right. injection E as _ ->. now exists a, b.
Qed.

Lemma includes_none (s p : jsstring) :
  includes s p = false <-> ~ exists a b, s = a ++ p ++ b.
Proof.
  rewrite <- includes_spec. destruct (includes s p); split; congruence.
Qed.

Lemma trimStart_white (l s : jsstring) :
  forallb is_white_space l = true -> trimStart (l ++ s) = trimStart s.
Proof.
  induction l as [|c l IH]; simpl; [reflexivity|].
  intros H. apply andb_true_iff in H as [Hc Hl]. rewrite Hc. auto.
Qed.

Lemma trimStart_all_white (l : jsstring) :
  forallb is_white_space l = true -> trimStart l = [].
Proof.
  intros H. rewrite <- (app_nil_r l). now rewrite trimStart_white.
Qed.

Lemma trimStart_idem (s : jsstring) : trimStart (trimStart s) = trimStart s.
Proof.
  induction s as [|c s IH]; simpl; [reflexivity|].
  destruct (is_white_space c) eqn:W; [exact IH|]. simpl. now rewrite W.
Qed.

Lemma trim_trimStart (s : jsstring) : trim (trimStart s) = trim s.
Proof. unfold trim. now rewrite trimStart_idem. Qed.

Lemma remove_trailing_fence_absent (s : jsstring) :
  includes s FENCE = false -> remove_trailing_fence s = s.
Proof.
  induction s as [|c s IH]; [reflexivity|].
  cbn [includes remove_trailing_fence]. intros H.
  apply orb_false_iff in H as [H1 H2]. rewrite H1. cbn [andb]. now rewrite IH.
Qed.

Lemma fence_head (c : code_unit) (s : jsstring) :
  c <> BACKTICK -> starts_with FENCE (c :: s) = false.
Proof. intros H. now apply (@starts_with_head [96; 96]%N s 96%N c). Qed.

Lemma fence_self (s : jsstring) : starts_with FENCE (FENCE ++ s) = true.
Proof. apply starts_with_self. Qed.

Lemma fence_skipn (s : jsstring) : skipn (length FENCE) (FENCE ++ s) = s.
Proof. reflexivity. Qed.

Lemma fence_cons (s : jsstring) : exists c r, FENCE ++ s = c :: r /\ c = BACKTICK.
Proof. now exists 96%N, (96 :: 96 :: s)%N. Qed.

Lemma remove_trailing_fence_end (b w : jsstring) :
  ~ In BACKTICK b -> forallb is_white_space w = true ->
  remove_trailing_fence (b ++ FENCE ++ w) = b.
Proof.
  intros Hb Hw. induction b as [|c b IH].
  - cbn [app]. destruct (fence_cons w) as (c & r & E & _).
    pose proof (fence_self w) as Hs. pose proof (fence_skipn w) as Hk.
    rewrite E in *. cbn [remove_trailing_fence]. now rewrite Hs, Hk, Hw.
  - cbn [app remove_trailing_fence]. rewrite fence_head.
    + cbn [andb]. rewrite IH; [reflexivity|]. intros H. apply Hb. now right.
    + intros ->. apply Hb. now left.
Qed.

Lemma starts_with_prefix (p q s : jsstring) :
  starts_with (p ++ q) s = true -> starts_with p s = true.
Proof.
  revert s; induction p as [|x p IH]; intros s; simpl; [reflexivity|].
  destruct s as [|y s]; [discriminate|].
  intros H. apply andb_true_iff in H as [Hx Hp]. rewrite Hx. simpl. eauto.
Qed.

Lemma includes_head (s p : jsstring) :
  includes s p = false -> starts_with p s = false.
Proof.
  destruct s; cbn [includes]; intros H; now apply orb_false_iff in H as [H _].
Qed.

(** X2: a text that holds no fence is only trimmed by [cleanMermaid]. *)
Theorem cleanMermaid_unfenced (text : jsstring) :
  includes text FENCE = false -> cleanMermaid text = trim text.
Proof.
  intros H. unfold cleanMermaid, remove_leading.
  pose proof (includes_head _ _ H) as Hf.
  assert (Hm : starts_with FENCE_MERMAID text = false).
  { destruct (starts_with FENCE_MERMAID text) eqn:E; [|reflexivity].
    apply (@starts_with_prefix FENCE (js "mermaid")) in E. congruence. }
  rewrite Hm, Hf. now rewrite remove_trailing_fence_absent.
Qed.

Lemma cleanMermaid_unfenced_witness :
  includes demo_diagram FENCE = false
  /\ cleanMermaid demo_diagram = js "graph TD
A-->B".
Proof.
  assert (H : includes demo_diagram FENCE = false) by (vm_compute; reflexivity).
  split; [exact H|].
  rewrite (@cleanMermaid_unfenced demo_diagram H). vm_compute. reflexivity.
Defined.

Lemma unfence_body (body w : jsstring) :
  ~ In BACKTICK body -> forallb is_white_space w = true ->
  remove_trailing_fence (trimStart (body ++ FENCE ++ w)) = trimStart body
  /\ remove_trailing_fence (remove_leading FENCE (trimStart (body ++ FENCE ++ w)))
     = trimStart body.
Proof.
  intros Hb Hw. induction body as [|c body IH].
  - cbn [app]. destruct (fence_cons w) as (c & r & E & Ec).
    pose proof (fence_self w) as Hs. pose proof (fence_skipn w) as Hk.
    pose proof (@remove_trailing_fence_end [] w Hb Hw) as Hr. cbn [app] in Hr.
    rewrite E in *. subst c. cbn [trimStart].
    change (is_white_space BACKTICK) with false. cbv iota.
    split; [exact Hr|]. unfold remove_leading. rewrite Hs, Hk.
    now rewrite trimStart_all_white.
  - assert (Hc : c <> BACKTICK) by (intros ->; apply Hb; now left).
    assert (Hb' : ~ In BACKTICK body) by (intros H; apply Hb; now right).
    cbn [app trimStart]. destruct (is_white_space c) eqn:W; [now apply IH|].
    pose proof (@remove_trailing_fence_end (c :: body) w Hb Hw) as Hr.
    cbn [app] in Hr. unfold remove_leading. rewrite (@fence_head c _ Hc).
    now rewrite Hr.
Qed.

(** X3: a diagram between an opening fence, with the [mermaid] tag or
    followed by white space, and a closing fence that ends the text up to
    white space is returned without the fences and trimmed, by
    [cleanMermaid] and so by [generateVisual]. *)
Theorem cleanMermaid_fenced (tagged : bool) (w1 body w2 : jsstring) :
  let opening := if tagged then FENCE_MERMAID else FENCE in
  forallb is_white_space w1 = true ->
  forallb is_white_space w2 = true ->
  (tagged = false -> w1 <> []) ->
  ~ In BACKTICK body ->
  cleanMermaid (opening ++ w1 ++ body ++ FENCE ++ w2) = trim body
  /\ forall content,
       generateVisual content (Resolved (Some ((opening ++ w1 ++ body ++ FENCE ++ w2))))
       = trim body.
Proof.
  intros opening H1 H2 Hw Hb.
  assert (E : cleanMermaid (opening ++ w1 ++ body ++ FENCE ++ w2) = trim body).
  { destruct (@unfence_body body w2 Hb H2) as [Ha Hb2].
    unfold cleanMermaid, opening. destruct tagged.
    - unfold remove_leading at 2. rewrite starts_with_self.
      rewrite skipn_app, skipn_all, Nat.sub_diag. cbn [app skipn].
      rewrite (@trimStart_white w1 _ H1). rewrite Hb2. apply trim_trimStart.
    - assert (Hm : starts_with FENCE_MERMAID (FENCE ++ w1 ++ body ++ FENCE ++ w2) = false).
      { destruct w1 as [|c w1]; [now contradiction Hw|].
        cbn [forallb] in H1. apply andb_true_iff in H1 as [Hc _].
        change (starts_with FENCE_MERMAID (FENCE ++ (c :: w1) ++ body ++ FENCE ++ w2))
          with (N.eqb 109 c && starts_with (js "ermaid") (w1 ++ body ++ FENCE ++ w2)).
        destruct (N.eqb 109 c) eqn:Ec; [|reflexivity].
        apply N.eqb_eq in Ec. subst c. discriminate. }
      unfold remove_leading at 2. rewrite Hm.
      unfold remove_leading. rewrite fence_self, fence_skipn.
      rewrite (@trimStart_white w1 _ H1). rewrite Ha. apply trim_trimStart. }
  split; [exact E|]. intros content. unfold generateVisual, text_or.
  replace (truthy (opening ++ w1 ++ body ++ FENCE ++ w2)) with true; [exact E|].
  unfold opening. now destruct tagged.
Qed.

Lemma cleanMermaid_fenced_witness :
  cleanMermaid (js "```mermaid
graph TD
A-->B
```
") = js "graph TD
A-->B".
Proof.
  assert (H1 : forallb is_white_space [NEWLINE] = true) by reflexivity.
  assert (Hb : ~ In BACKTICK demo_fenced_body) by (vm_compute; intuition discriminate).
  assert (Hw : true = false -> [NEWLINE] <> []) by discriminate.
  exact (proj1 (@cleanMermaid_fenced true [NEWLINE] demo_fenced_body [NEWLINE] H1 H1 Hw Hb)).
Defined.

Lemma through_first_none (p s : jsstring) :
  through_first p s = None <-> includes s p = false.
Proof.
  induction s as [|c s IH]; cbn [through_first includes].
  - destruct (starts_with p []); simpl; split; congruence.
  - destruct (starts_with p (c :: s)); simpl; [split; congruence|].
    rewrite <- IH. destruct (through_first p s); simpl; split; congruence.
Qed.

Lemma through_first_fence (mid post : jsstring) :
  ~ In BACKTICK mid ->
  through_first FENCE (mid ++ FENCE ++ post) = Some (mid ++ FENCE).
Proof.
  intros Hm. induction mid as [|c mid IH].
  - cbn [app]. destruct (fence_cons post) as (c & r & E & _).
    pose proof (fence_self post) as Hs. rewrite E in *.
    cbn [through_first]. rewrite Hs. reflexivity.
  - cbn [app through_first]. rewrite fence_head.
    + rewrite IH; [reflexivity|]. intros H. apply Hm. now right.
    + intros ->. apply Hm. now left.
Qed.

Lemma match_fenced_between (pre mid post : jsstring) :
  ~ In BACKTICK pre -> ~ In BACKTICK mid ->
  match_fenced (pre ++ FENCE ++ mid ++ FENCE ++ post) = Some (FENCE ++ mid ++ FENCE).
Proof.
  intros Hp Hm. induction pre as [|c pre IH].
  - cbn [app]. destruct (fence_cons (mid ++ FENCE ++ post)) as (c & r & E & _).
    pose proof (fence_self (mid ++ FENCE ++ post)) as Hs.
    pose proof (fence_skipn (mid ++ FENCE ++ post)) as Hk.
    rewrite E in *. cbn [match_fenced]. rewrite Hs, Hk.
    now rewrite (@through_first_fence mid post Hm).
  - cbn [app match_fenced]. rewrite fence_head.
    + apply IH. intros H. apply Hp. now right.
    + intros ->. apply Hp. now left.
Qed.

Lemma match_fenced_none (s : jsstring) :
  match_fenced s = None
  <-> ~ exists pre mid post, s = pre ++ FENCE ++ mid ++ FENCE ++ post.
Proof.
  induction s as [|c s IH].
  - split; [|reflexivity]. intros _ (pre & mid & post & E).
    destruct pre; discriminate.
  - cbn [match_fenced]. split.
    + intros H (pre & mid & post & E). destruct pre as [|x pre].
      * cbn [app] in E. rewrite E in H. rewrite fence_self, fence_skipn in H.
        destruct (through_first FENCE (mid ++ FENCE ++ post)) eqn:T; [discriminate|].
        apply through_first_none, includes_none in T. apply T. now exists mid, post.
      * cbn [app] in E. injection E as _ Es.
        assert (Hs : match_fenced s = None).
        { destruct (starts_with FENCE (c :: s)); [|exact H].
          destruct (through_first FENCE (skipn (length FENCE) (c :: s)));
            [discriminate | exact H]. }
        apply IH in Hs. apply Hs. now exists pre, mid, post.
    + intros H.
      assert (Hs : match_fenced s = None).
      { apply IH. intros (pre & mid & post & E). apply H.
        exists (c :: pre), mid, post. now rewrite E. }
      destruct (starts_with FENCE (c :: s)) eqn:F; [|exact Hs].
      destruct (through_first FENCE (skipn (length FENCE) (c :: s))) eqn:T; [|exact Hs].
      exfalso. apply H.
      assert (Hi : includes (skipn (length FENCE) (c :: s)) FENCE = true).
      { destruct (includes _ FENCE) eqn:I; [reflexivity|].
        apply through_first_none in I. congruence. }
      apply includes_spec in Hi as (mid & post & Ei).
      exists [], mid, post. cbn [app].
      rewrite (starts_with_skipn _ _ F) at 1. now rewrite Ei.
Qed.

(** X4: [extractCodeBlock] gives [null] exactly when the text does not hold
    two fences one after the other; applying such a message changes
    nothing. *)
Theorem extractCodeBlock_null (text : jsstring) :
  (extractCodeBlock text = None
   <-> ~ exists pre mid post, text = pre ++ FENCE ++ mid ++ FENCE ++ post)
  /\ (extractCodeBlock text = None -> forall a, applyCodeBlock text a = a).
Proof.
  split.
  - rewrite <- match_fenced_none. unfold extractCodeBlock.
    destruct (match_fenced text); split; congruence.
  - intros H a. unfold applyCodeBlock. now rewrite H.
Qed.

Lemma skip_word_fence (mid : jsstring) :
  skip_word (mid ++ FENCE) = skip_word mid ++ FENCE.
Proof.
  induction mid as [|c mid IH]; [reflexivity|].
  cbn [app skip_word]. now destruct (is_word_char c).
Qed.

Lemma skip_newline_fence (s : jsstring) :
  skip_newline (s ++ FENCE) = skip_newline s ++ FENCE.
Proof. destruct s as [|c s]; [reflexivity|]. simpl. now destruct (N.eqb c NEWLINE). Qed.

Lemma skip_word_In (s : jsstring) (c : code_unit) : In c (skip_word s) -> In c s.
Proof.
  induction s as [|x s IH]; simpl; [auto|].
  destruct (is_word_char x); simpl; auto.
Qed.

Lemma skip_newline_In (s : jsstring) (c : code_unit) : In c (skip_newline s) -> In c s.
Proof.
  destruct s as [|x s]; simpl; [auto|]. destruct (N.eqb x NEWLINE); simpl; auto.
Qed.

Lemma remove_final_fence_end (b : jsstring) :
  ~ In BACKTICK b -> remove_final_fence (b ++ FENCE) = b.
Proof.
  intros Hb. induction b as [|c b IH]; [reflexivity|].
  cbn [app remove_final_fence]. rewrite fence_head.
  - cbn [andb]. rewrite IH; [reflexivity|]. intros H. apply Hb. now right.
  - intros ->. apply Hb. now left.
Qed.

(** What a fenced block gives: the text between the first fence and the
    next one, without the word characters that follow the opening fence and
    without one line feed after them, trimmed. *)
Lemma extractCodeBlock_between (pre mid post : jsstring) :
  ~ In BACKTICK pre -> ~ In BACKTICK mid ->
  extractCodeBlock (pre ++ FENCE ++ mid ++ FENCE ++ post)
  = Some (trim (skip_newline (skip_word mid))).
Proof.
  intros Hp Hm. unfold extractCodeBlock.
  rewrite (@match_fenced_between pre mid post Hp Hm).
  destruct (fence_cons (mid ++ FENCE)) as (c & r & E & _).
  pose proof (fence_self (mid ++ FENCE)) as Hs.
  pose proof (fence_skipn (mid ++ FENCE)) as Hk.
  rewrite E in *. cbn [remove_opening_fence]. rewrite Hs, Hk.
  rewrite skip_word_fence, skip_newline_fence, remove_final_fence_end; [reflexivity|].
  intros H. apply Hm. now apply skip_word_In, skip_newline_In.
Qed.

Lemma skip_word_all (w rest : jsstring) :
  forallb is_word_char w = true ->
  match rest with [] => True | c :: _ => is_word_char c = false end ->
  skip_word (w ++ rest) = rest.
Proof.
  intros Hw Hr. induction w as [|c w IH]; cbn [app].
  - destruct rest as [|c rest]; [reflexivity|]. simpl. now rewrite Hr.
  - cbn [forallb] in Hw. apply andb_true_iff in Hw as [Hc Hw].
    cbn [skip_word]. rewrite Hc. auto.
Qed.

Lemma word_char_not_backtick (w : jsstring) :
  forallb is_word_char w = true -> ~ In BACKTICK w.
Proof.
  intros H Hin. rewrite forallb_forall in H. apply H in Hin. discriminate.
Qed.

(** X5: A block written as a fence, a language tag, a line feed, the code and a
    closing fence gives the code, trimmed; applying it puts that code in the
    editor and shows the editor. *)
Theorem extractCodeBlock_block (pre lang body post : jsstring) :
  ~ In BACKTICK pre ->
  forallb is_word_char lang = true ->
  ~ In BACKTICK body ->
  extractCodeBlock (pre ++ FENCE ++ lang ++ NEWLINE :: body ++ FENCE ++ post)
  = Some (trim body)
  /\ forall a,
       trim body <> [] ->
       applyCodeBlock (pre ++ FENCE ++ lang ++ NEWLINE :: body ++ FENCE ++ post) a
       = setViewMode EDIT (setEditorContent (trim body) a).
Proof.
  intros Hp Hl Hb.
  assert (Hm : ~ In BACKTICK (lang ++ NEWLINE :: body)).
  { intros H. apply in_app_or in H as [H | [H | H]].
    - now apply (word_char_not_backtick _ Hl).
    - discriminate.
    - contradiction. }
  assert (E : extractCodeBlock (pre ++ FENCE ++ lang ++ NEWLINE :: body ++ FENCE ++ post)
              = Some (trim body)).
  { pose proof (@extractCodeBlock_between pre (lang ++ NEWLINE :: body) post Hp Hm) as H.
    rewrite <- app_assoc in H. cbn [app] in H. rewrite H.
    rewrite (@skip_word_all lang (NEWLINE :: body) Hl); [reflexivity|reflexivity]. }
  split; [exact E|]. intros a Hne. unfold applyCodeBlock. rewrite E.
  apply truthy_true in Hne. now rewrite Hne.
Qed.


Lemma extractCodeBlock_block_witness :
  extractCodeBlock (js "Try this: ```js
let x = 1;
``` and run it.") = Some (js "let x = 1;").
Proof.
  assert (Hp : ~ In BACKTICK demo_reply_pre) by (vm_compute; intuition discriminate).
  assert (Hl : forallb is_word_char (js "js") = true) by reflexivity.
  assert (Hb : ~ In BACKTICK demo_reply_code) by (vm_compute; intuition discriminate).
  exact (proj1 (@extractCodeBlock_block demo_reply_pre (js "js") demo_reply_code
                  (js " and run it.") Hp Hl Hb)).
Defined.

(** X6: A block written on one line loses the word characters that follow
    its opening fence: they are read as the language tag. *)
Theorem extractCodeBlock_inline (pre word rest post : jsstring) :
  ~ In BACKTICK pre ->
  forallb is_word_char word = true ->
  ~ In BACKTICK rest ->
  match rest with
  | [] => True
  | c :: _ => is_word_char c = false /\ c <> NEWLINE
  end ->
  extractCodeBlock (pre ++ FENCE ++ word ++ rest ++ FENCE ++ post) = Some (trim rest).
Proof.
  intros Hp Hw Hr Hhead.
  assert (Hm : ~ In BACKTICK (word ++ rest)).
  { intros H. apply in_app_or in H as [H | H]; [|contradiction].
    now apply (word_char_not_backtick _ Hw). }
  pose proof (@extractCodeBlock_between pre (word ++ rest) post Hp Hm) as H.
  rewrite <- app_assoc in H. rewrite H.
  rewrite (@skip_word_all word rest Hw).
  - destruct rest as [|c rest]; [reflexivity|]. destruct Hhead as [_ Hn].
    cbn [skip_newline]. destruct (N.eqb c NEWLINE) eqn:E; [|reflexivity].
    apply N.eqb_eq in E. contradiction.
  - destruct rest; [exact I|]. apply Hhead.
Qed.


Lemma extractCodeBlock_inline_witness :
  extractCodeBlock (js "Use ```let x = 1``` here") = Some (js "x = 1").
Proof.
  assert (Hp : ~ In BACKTICK (js "Use ")) by (vm_compute; intuition discriminate).
  assert (Hw : forallb is_word_char (js "let") = true) by reflexivity.
  assert (Hr : ~ In BACKTICK demo_inline_rest) by (vm_compute; intuition discriminate).
  assert (Hh : match demo_inline_rest with
               | [] => True
               | c :: _ => is_word_char c = false /\ c <> NEWLINE
               end) by (split; [reflexivity|discriminate]).
  exact (@extractCodeBlock_inline (js "Use ") (js "let") demo_inline_rest (js " here")
           Hp Hw Hr Hh).
Defined.

(* ----------------------------------------------------------------- *)
(** ** cleanJson on braces in the wrong order *)

Lemma substring_swap (s : jsstring) (a b : Z) : substring s a b = substring s b a.
Proof. unfold substring. cbv zeta. now rewrite Z.min_comm, Z.max_comm. Qed.

(** X7: when the last ['}'] of the cleaned text comes before its first ['{']
    and there is no ['['], [cleanJson] returns what lies between the two,
    the braces left out: [substring] swaps its arguments. *)
Theorem cleanJson_reversed (text pre mid post : jsstring) :
  text <> [] ->
  strip_fences text = pre ++ RBRACE :: mid ++ LBRACE :: post ->
  ~ In LBRACE pre -> ~ In LBRACE mid -> ~ In RBRACE mid -> ~ In RBRACE post ->
  ~ In LBRACKET (strip_fences text) ->
  cleanJson text = mid.
Proof.
  intros Hne Hshape Hp Hm1 Hm2 Hpost Hb.
  unfold cleanJson. apply truthy_true in Hne. rewrite Hne. simpl negb. cbv iota.
  assert (Hbr : indexOf LBRACKET (strip_fences text) = -1)
    by (now apply indexOf_from_absent).
  rewrite Hbr. rewrite Hshape.
  assert (Hfirst : indexOf LBRACE (pre ++ RBRACE :: mid ++ LBRACE :: post)
                   = Z.of_nat (length pre) + 1 + Z.of_nat (length mid)).
  { unfold indexOf.
    replace (pre ++ RBRACE :: mid ++ LBRACE :: post)
      with ((pre ++ RBRACE :: mid) ++ LBRACE :: post) by (now rewrite <- app_assoc).
    rewrite indexOf_from_found.
    - rewrite length_app. simpl length. lia.
    - intros H. apply in_app_or in H as [H | [H | H]]; [auto | discriminate | auto]. }
  assert (Hlast : lastIndexOf RBRACE (pre ++ RBRACE :: mid ++ LBRACE :: post)
                  = Z.of_nat (length pre)).
  { unfold lastIndexOf. rewrite lastIndexOf_from_found; [lia|].
    intros H. apply in_app_or in H as [H | [H | H]]; [auto | discriminate | auto]. }
  rewrite Hfirst, Hlast.
  replace (Z.of_nat (length pre) + 1 + Z.of_nat (length mid) =? -1) with false
    by (symmetry; apply Z.eqb_neq; lia).
  replace (Z.of_nat (length pre) =? -1) with false by (symmetry; apply Z.eqb_neq; lia).
  cbn [negb andb orb Z.eqb]. rewrite substring_swap.
  replace (pre ++ RBRACE :: mid ++ LBRACE :: post)
    with ((pre ++ [RBRACE]) ++ mid ++ LBRACE :: post)
    by (rewrite <- app_assoc; reflexivity).
  replace (Z.of_nat (length pre) + 1) with (Z.of_nat (length (pre ++ [RBRACE])))
    by (rewrite length_app; simpl length; lia).
  replace (Z.of_nat (length pre) + 1 + Z.of_nat (length mid))
    with (Z.of_nat (length (pre ++ [RBRACE])) + Z.of_nat (length mid))
    by (rewrite length_app; simpl length; lia).
  apply substring_middle.
Qed.

Lemma cleanJson_reversed_witness :
  demo_reversed <> []
  /\ cleanJson demo_reversed = js " and ".
Proof.
  assert (H0 : demo_reversed <> []) by discriminate.
  assert (H1 : strip_fences demo_reversed
               = js "done" ++ RBRACE :: js " and " ++ LBRACE :: js "open")
    by (vm_compute; reflexivity).
  assert (H2 : ~ In LBRACE (js "done")) by (vm_compute; intuition discriminate).
  assert (H3 : ~ In LBRACE (js " and ")) by (vm_compute; intuition discriminate).
  assert (H4 : ~ In RBRACE (js " and ")) by (vm_compute; intuition discriminate).
  assert (H5 : ~ In RBRACE (js "open")) by (vm_compute; intuition discriminate).
  assert (H6 : ~ In LBRACKET (strip_fences demo_reversed))
    by (rewrite H1; vm_compute; intuition discriminate).
  split; [exact H0|].
  exact (@cleanJson_reversed demo_reversed (js "done") (js " and ") (js "open")
           H0 H1 H2 H3 H4 H5 H6).
Defined.

(* ----------------------------------------------------------------- *)
(** ** The interview *)

Lemma includes_join (sep q : jsstring) (qs : list jsstring) :
  In q qs -> includes (join sep qs) q = true.
Proof.
  intros Hin. apply includes_spec. induction qs as [|p ps IH]; [contradiction|].
  rewrite join_cons. destruct Hin as [-> | Hin].
  - now exists [], (match ps with [] => [] | _ :: _ => sep ++ join sep ps end).
  - destruct (IH Hin) as (a & b & E). destruct ps as [|p' ps']; [contradiction|].
    exists (p ++ sep ++ a), b. rewrite E. now rewrite <- !app_assoc.
Qed.

Lemma fallback_question (n : nat) :
  In (nth (n mod length FALLBACK_QUESTIONS)%nat FALLBACK_QUESTIONS []) FALLBACK_QUESTIONS
  /\ nth (n mod length FALLBACK_QUESTIONS)%nat FALLBACK_QUESTIONS [] <> [].
Proof.
  assert (H : (n mod length FALLBACK_QUESTIONS < 4)%nat)
    by (apply Nat.mod_upper_bound; discriminate).
  destruct (n mod length FALLBACK_QUESTIONS)%nat as [|[|[|[|k]]]];
    [| | | |lia]; (split; [simpl; tauto | discriminate]).
Qed.

(** X8: the follow-up question is never empty, and it is one of the four stock
    questions or the trimmed answer of the service, which then occurs
    nowhere in the questions already asked. *)
Theorem generateFollowUp_question (history : list QA) (response : outcome Response) :
  generateFollowUp history response <> []
  /\ (In (generateFollowUp history response) FALLBACK_QUESTIONS
      \/ (exists t, response = Resolved (Some t)
                    /\ generateFollowUp history response = trim t)
         /\ includes (join (js " | ") (map question history))
                     (generateFollowUp history response) = false
         /\ ~ In (generateFollowUp history response) (map question history)).
Proof.
  destruct (fallback_question (length history)) as [Hin Hne].
  unfold generateFollowUp. destruct response as [[t|]|e]; [|now auto|now auto].
  destruct (truthy (trim t)) eqn:T; cbn [negb orb]; [|now auto].
  destruct (includes _ (trim t)) eqn:I; [now auto|].
  split; [now apply truthy_true|]. right. split; [now exists t|]. split; [exact I|].
  intros H. apply (includes_join (js " | ")) in H. congruence.
Qed.




Lemma generateFollowUp_not_empty (history : list QA) (response : outcome Response) :
  generateFollowUp history response <> [].
Proof.
  destruct (fallback_question (length history)) as [_ Hne].
  unfold generateFollowUp. destruct response as [[t|]|e]; auto.
  destruct (truthy (trim t)) eqn:T; cbn [negb orb]; auto.
  destruct (includes _ (trim t)); auto. now apply truthy_true.
Qed.

(** X10: with [generateFollowUp] as the follow-up service, the question shown
    and every question of the transcript are never empty, whatever the
    service answers and whatever the user types. *)
Theorem interview_questions_not_empty (responses : list QA -> outcome Response)
    (synthesis : list QA -> jsstring -> outcome json) (raw : jsstring)
    (answers : list jsstring) :
  let o := fst (interview (followUp_of responses) synthesis raw answers
                          Onboarding_initial) in
  Onboarding.currentQ o <> []
  /\ forall h, In h (Onboarding.history o) -> question h <> [].
Proof.
  cbn zeta.
  assert (H : forall o,
             Onboarding.currentQ o <> [] ->
             (forall h, In h (Onboarding.history o) -> question h <> []) ->
             let o' := fst (interview (followUp_of responses) synthesis raw answers o) in
             Onboarding.currentQ o' <> []
             /\ forall h, In h (Onboarding.history o') -> question h <> []).
  { induction answers as [|a answers IH]; intros o Hq Hh; cbn zeta.
    - cbn [interview fst]. auto.
    - cbn [interview]. unfold handleNext.
      cbn [Onboarding.answer Onboarding.history Onboarding.currentQ].
      destruct (truthy (trim a)); cbn [negb].
      + assert (Hh' : forall h,
                   In h (Onboarding.history o ++ [mkQA (Onboarding.currentQ o) a]) ->
                   question h <> []).
        { intros h Hin. apply in_app_or in Hin as [Hin | [<- | []]]; auto. }
        destruct (_ <? 3)%nat.
        * apply IH; cbn [Onboarding.currentQ Onboarding.history]; auto.
          unfold followUp_of. apply generateFollowUp_not_empty.
        * cbn [fst Onboarding.currentQ Onboarding.history]. split; [discriminate | auto].
      + apply (IH (Onboarding.mk (Onboarding.history o) (Onboarding.currentQ o) a
                                 (Onboarding.loading o))); auto. }
  apply H; [discriminate | intros h []].
Qed.

(* ----------------------------------------------------------------- *)
(** ** Drafting *)

Lemma filter_Boolean_truthy (l : list (option jsstring)) :
  Forall (fun s => s <> []) (filter_Boolean l).
Proof.
  induction l as [|[s|] l IH]; simpl; auto.
  destruct (truthy s) eqn:T; auto. constructor; auto. now apply truthy_true.
Qed.

Lemma filter_Boolean_nil (l : list (option jsstring)) :
  filter_Boolean l = [] <-> forall s, In (Some s) l -> s = [].
Proof.
  induction l as [|[s|] l IH]; simpl.
  - split; [intros _ s [] | reflexivity].
  - destruct (truthy s) eqn:T.
    + split; [discriminate|]. intros H. specialize (H s (or_introl eq_refl)).
      subst s. discriminate.
    + rewrite IH. split.
      * intros H s' [[= <-] | Hin]; [|now apply H].
        destruct s; [reflexivity | discriminate].
      * intros H s' Hin. apply H. now right.
  - rewrite IH. split.
    + intros H s [Hs | Hin]; [discriminate | now apply H].
    + intros H s Hin. apply H. now right.
Qed.

Lemma join_nil (sep : jsstring) (l : list jsstring) :
  Forall (fun s => s <> []) l -> (join sep l = [] <-> l = []).
Proof.
  intros H. destruct H as [|p ps Hp Hps]; [tauto|].
  rewrite join_cons. split; [|discriminate].
  intros E. apply app_eq_nil in E as [E _]. contradiction.
Qed.

Lemma source_link_some (c : GroundingChunk) (s : jsstring) :
  source_link c = Some s -> s <> [].
Proof.
  unfold source_link. destruct (web c) as [w|]; [|discriminate].
  destruct (Web.uri w) as [u|]; [|discriminate].
  destruct (truthy u); [|discriminate]. intros [= <-]. discriminate.
Qed.


Lemma draftTaskContent_not_empty (task : MicroTask) (dna : ProjectDNA)
    (previousContext : jsstring) (response : outcome GroundedResponse) :
  draftTaskContent task dna previousContext response <> [].
Proof.
  unfold draftTaskContent. destruct response as [r|e]; [|discriminate].
  destruct (truthy (text_or (response_text r) [])) eqn:T; cbn [negb]; [|discriminate].
  apply truthy_true in T.
  destruct (groundingChunks r) as [chunks|]; [|exact T].
  destruct (is_researcher (agentType task)); [|exact T].
  destruct (truthy _); [|exact T].
  intros E. apply app_eq_nil in E as [E _]. contradiction.
Qed.

(** X11: [draftTaskContent] never gives the empty string.  When the service
    answers with a text, the draft is that text, followed for a researcher
    by the sources section exactly when some chunk gives a link; for the
    other agents it is the text alone. *)
Theorem draftTaskContent_result (task : MicroTask) (dna : ProjectDNA)
    (previousContext : jsstring) (response : outcome GroundedResponse) :
  draftTaskContent task dna previousContext response <> []
  /\ forall r t,
       response = Resolved r -> response_text r = Some t -> t <> [] ->
       (agentType task <> RESEARCHER ->
        draftTaskContent task dna previousContext response = t)
       /\ (groundingChunks r = None ->
           draftTaskContent task dna previousContext response = t)
       /\ forall chunks,
            agentType task = RESEARCHER -> groundingChunks r = Some chunks ->
            draftTaskContent task dna previousContext response
            = if existsb has_link chunks
              then t ++ SOURCES_HEADER
                     ++ join [NEWLINE] (filter_Boolean (map source_link chunks))
              else t.
Proof.
  split; [apply draftTaskContent_not_empty|].
  intros r t -> Ht Hne. apply truthy_true in Hne.
    assert (Htext : text_or (response_text r) [] = t).
    { unfold text_or. rewrite Ht. now rewrite Hne. }
    unfold draftTaskContent. rewrite Htext, Hne. cbn [negb].
    split; [|split].
    + intros Ha. destruct (groundingChunks r); [|reflexivity].
      destruct (agentType task); [contradiction | | |]; reflexivity.
    + intros ->. reflexivity.
    + intros chunks -> ->. cbn [is_researcher].
      set (links := filter_Boolean (map source_link chunks)).
      assert (Hl : truthy (join [NEWLINE] links) = existsb has_link chunks).
      { pose proof (@join_nil [NEWLINE] links (filter_Boolean_truthy _)) as Hj.
        pose proof (filter_Boolean_nil (map source_link chunks)) as Hf. fold links in Hf.
        destruct (existsb has_link chunks) eqn:X.
        - apply truthy_true. intros E. apply (proj1 Hj) in E.
          pose proof (proj1 Hf E) as E'.
          apply existsb_exists in X as (c & Hc & Hh). unfold has_link in Hh.
          destruct (source_link c) as [s|] eqn:S; [|discriminate].
          apply (source_link_some c) in S as Hs. apply Hs, E'.
          rewrite <- S. now apply in_map.
        - destruct (truthy (join [NEWLINE] links)) eqn:T; [|reflexivity].
          apply truthy_true in T. exfalso. apply T, (proj2 Hj), (proj2 Hf).
          intros s Hin. apply in_map_iff in Hin as (c & Hs & Hc).
          assert (Hh : has_link c = true) by (unfold has_link; now rewrite Hs).
          assert (existsb has_link chunks = true)
            by (apply existsb_exists; now exists c).
          congruence. }
      now rewrite Hl.
Qed.




Lemma draftTaskContent_result_witness :
  draftTaskContent demo_research_task demo_dna [] (Resolved demo_grounded)
  = js "Five competitors.

### Sources
[Pricing](https://a.example/p)
[undefined](https://b.example)".
Proof.
  assert (Ht : js "Five competitors." <> []) by discriminate.
  rewrite (proj2 (proj2 (proj2 (@draftTaskContent_result demo_research_task demo_dna []
                                   (Resolved demo_grounded))
                                (demo_grounded) (js "Five competitors.")
                                eq_refl eq_refl Ht))
                 demo_chunks eq_refl eq_refl).
  vm_compute. reflexivity.
Defined.

(** What [enterTask] gives, case by case. *)
Lemma enterTask_drafted (taskId : jsstring) (a : App) (task : MicroTask) (d : jsstring) :
  find (fun t => jsstring_eqb (id t) taskId) (entered_list a (tasks a)) = Some task ->
  no_content task = true ->
  enterTask taskId (tasks a) (Resolved d) a
  = mkApp WORKING (dna a)
      (map (fun t => if jsstring_eqb (id t) taskId
                     then with_status TaskStatus.IN_PROGRESS (with_content d t)
                     else t)
           (entered_list a (tasks a)))
      (Some taskId) d EDIT false (showMissionBrief a) true (kinetic_state a) (alerts a).
Proof.
  unfold entered_list, enterTask. cbv zeta. intros Hf Hn. rewrite Hf, Hn.
  destruct (has_current a); reflexivity.
Qed.

Lemma enterTask_opened (taskId : jsstring) (a : App) (task : MicroTask)
    (draft : outcome jsstring) :
  find (fun t => jsstring_eqb (id t) taskId) (entered_list a (tasks a)) = Some task ->
  no_content task = false ->
  enterTask taskId (tasks a) draft a
  = mkApp WORKING (dna a) (entered_list a (tasks a)) (Some taskId)
      (content_or_empty task) EDIT (isGenerating a) (showMissionBrief a) true
      (kinetic_state a) (alerts a).
Proof.
  unfold entered_list, enterTask. cbv zeta. intros Hf Hn. rewrite Hf, Hn.
  destruct (has_current a); reflexivity.
Qed.

Lemma enterTask_failed (taskId : jsstring) (a : App) (task : MicroTask) (e : Error) :
  find (fun t => jsstring_eqb (id t) taskId) (entered_list a (tasks a)) = Some task ->
  no_content task = true ->
  enterTask taskId (tasks a) (Rejected e) a
  = mkApp WORKING (dna a) (entered_list a (tasks a)) (Some taskId) DRAFT_ERROR EDIT
      false (showMissionBrief a) true (kinetic_state a) (alerts a).
Proof.
  unfold entered_list, enterTask. cbv zeta. intros Hf Hn. rewrite Hf, Hn.
  destruct (has_current a); reflexivity.
Qed.

Lemma enterTask_absent (taskId : jsstring) (a : App) (draft : outcome jsstring) :
  find (fun t => jsstring_eqb (id t) taskId) (entered_list a (tasks a)) = None ->
  enterTask taskId (tasks a) draft a = setTasks (entered_list a (tasks a)) a.
Proof.
  unfold entered_list, enterTask. cbv zeta. intros Hf. rewrite Hf.
  destruct (has_current a); [reflexivity|]. now destruct a.
Qed.

Lemma find_map_id (f : MicroTask -> MicroTask) (taskId : jsstring) (ts : list MicroTask) :
  (forall t, id (f t) = id t) ->
  find (fun t => jsstring_eqb (id t) taskId) (map f ts)
  = option_map f (find (fun t => jsstring_eqb (id t) taskId) ts).
Proof.
  intros Hid. induction ts as [|t ts IH]; simpl; [reflexivity|].
  rewrite Hid. destruct (jsstring_eqb (id t) taskId); [reflexivity | exact IH].
Qed.

(** X12: entering a listed task that has no content, with the draft that
    [draftTaskContent] gives: the draft is never empty, it is in the editor
    and in the task, which is IN_PROGRESS, and entering the task again asks
    for no draft. *)
Theorem enterTask_drafts_once (taskId : jsstring) (response : outcome GroundedResponse)
    (a : App) (task : MicroTask) :
  find (fun t => jsstring_eqb (id t) taskId) (entered_list a (tasks a)) = Some task ->
  no_content task = true ->
  let d := draftTaskContent task (dna a) (previousWork (entered_list a (tasks a)))
             response in
  let a' := enterTask_drafting taskId (tasks a) response a in
  d <> []
  /\ editorContent a' = d
  /\ appState a' = WORKING
  /\ currentTaskId a' = Some taskId
  /\ isGenerating a' = false
  /\ (forall t, In t (tasks a') -> id t = taskId ->
                content t = Some d /\ status t = TaskStatus.IN_PROGRESS)
  /\ (exists t, In t (tasks a') /\ id t = taskId)
  /\ forall draft1 draft2,
       enterTask taskId (tasks a') draft1 a' = enterTask taskId (tasks a') draft2 a'.
Proof.
  intros Hf Hn d a'.
  assert (Hd : d <> []) by (unfold d; apply draftTaskContent_not_empty).
  set (f := fun t => if jsstring_eqb (id t) taskId
                     then with_status TaskStatus.IN_PROGRESS (with_content d t)
                     else t).
  assert (Hid : forall t, id (f t) = id t).
  { intros t. unfold f. now destruct (jsstring_eqb (id t) taskId). }
  assert (Ea : a' = mkApp WORKING (dna a) (map f (entered_list a (tasks a)))
                      (Some taskId) d EDIT false (showMissionBrief a) true
                      (kinetic_state a) (alerts a)).
  { unfold a', enterTask_drafting. rewrite Hf. exact (@enterTask_drafted taskId a task d Hf Hn). }
  pose proof (find_some _ _ Hf) as [Hin Heq]. cbv beta in Heq.
  apply jsstring_eqb_eq in Heq.
  rewrite Ea. cbn [editorContent appState currentTaskId isGenerating tasks].
  split; [exact Hd|]. do 4 (split; [reflexivity|]).
  split; [|split].
  - intros t Ht Hi. apply in_map_iff in Ht as (t0 & <- & _). unfold f in *.
    destruct (jsstring_eqb (id t0) taskId) eqn:E; [split; reflexivity|].
    apply jsstring_eqb_neq in E. contradiction.
  - exists (f task). split; [now apply in_map | now rewrite Hid].
  - set (b := mkApp _ _ _ _ _ _ _ _ _ _ _).
    assert (Hl : entered_list b (tasks b) = map f (entered_list a (tasks a))).
    { assert (Htb : tasks b = map f (entered_list a (tasks a))) by reflexivity.
      unfold entered_list at 1. rewrite Htb.
      destruct (has_current b); [|reflexivity].
      unfold flush. rewrite <- (map_id (map f (entered_list a (tasks a)))) at 2.
      apply map_ext_in. intros t Ht. apply in_map_iff in Ht as (t0 & <- & _).
      unfold is_current, b. cbn [currentTaskId editorContent]. rewrite Hid. unfold f.
      destruct (jsstring_eqb (id t0) taskId); reflexivity. }
    assert (Hfb : find (fun t => jsstring_eqb (id t) taskId) (entered_list b (tasks b))
                  = Some (f task)).
    { rewrite Hl, (find_map_id f taskId _ Hid), Hf. reflexivity. }
    assert (Hnb : no_content (f task) = false).
    { unfold f. rewrite Heq, jsstring_eqb_refl. unfold no_content. cbn [content with_status with_content].
      apply truthy_true in Hd. now rewrite Hd. }
    intros d1 d2.
    change (map f (entered_list a (tasks a))) with (tasks b).
    rewrite (@enterTask_opened taskId b (f task) d1 Hfb Hnb).
    now rewrite (@enterTask_opened taskId b (f task) d2 Hfb Hnb).
Qed.

(* ----------------------------------------------------------------- *)
(** ** Interventions *)

(** X13: [generateIntervention] interrupts exactly when the answer, once
    cleaned, parses as an object whose [shouldInterrupt] is truthy; it then
    carries the [message] and [agentPersona] of that object.  A failed call,
    no text, a text that does not parse, [null] and every other value give
    [null]; so does the answer [NULL] that the instruction asks for. *)
Theorem generateIntervention_interrupts (currentContent : jsstring) (dna : ProjectDNA)
    (response : outcome Response) (i : Intervention) :
  (generateIntervention currentContent dna response = Some i
   <-> exists t o flag,
         response = Resolved (Some t) /\ t <> []
         /\ JSON_parse (cleanJson t) = Some (JObj o)
         /\ obj_get (js "shouldInterrupt") o = Some flag
         /\ ToBoolean (Some flag) = true
         /\ i = mkIntervention (obj_get (js "message") o)
                               (obj_get (js "agentPersona") o))
  /\ generateIntervention currentContent dna (Resolved (Some (js "NULL"))) = None
  /\ generateIntervention currentContent dna (Resolved (Some (js "null"))) = None.
Proof.
  split; [|split; reflexivity]. unfold generateIntervention. split.
  - destruct response as [[t|]|e]; cbn [text_or truthy negb]; try discriminate.
    destruct (truthy t) eqn:T; cbn [truthy negb]; [|discriminate].
    rewrite T. cbn [negb].
    destruct (JSON_parse (cleanJson t)) as [result|] eqn:P; [|discriminate].
    destruct result as [|b|x|s|items|o]; cbn [get_property ToBoolean negb];
      try discriminate.
    destruct (obj_get (js "shouldInterrupt") (o)) as [flag|] eqn:G;
      [|cbn [ToBoolean negb]; discriminate].
    destruct (ToBoolean (Some flag)) eqn:B; cbn [negb]; [|discriminate].
    intros [= <-]. exists t, o, flag. repeat split; auto. now apply truthy_true.
  - intros (t & o & flag & -> & Hne & P & G & B & ->).
    apply truthy_true in Hne.
    assert (Ht : text_or (Some t) [] = t) by (cbn [text_or]; now rewrite Hne).
    rewrite Ht, Hne. cbn [negb]. rewrite P.
    cbn [get_property]. rewrite G, B. reflexivity.
Qed.

(* ----------------------------------------------------------------- *)
(** ** The chat *)

Lemma chatWithAgent_not_empty (message : jsstring) (task : MicroTask)
    (currentContent : jsstring) (dna : ProjectDNA) (personality : AgentPersonality)
    (response : outcome Response) :
  chatWithAgent message task currentContent dna personality response <> [].
Proof.
  unfold chatWithAgent, text_or. destruct response as [[t|]|e]; try discriminate.
  destruct (truthy t) eqn:T; [now apply truthy_true | discriminate].
Qed.

Lemma is_current_with_message (a : App) (msg : ChatMessage.t) (t : MicroTask) :
  is_current a (with_message msg t) = is_current a t.
Proof. reflexivity. Qed.

Lemma post_post (a : App) (m1 m2 : ChatMessage.t) (ts : list MicroTask) :
  post a m2 (post a m1 ts)
  = map (fun t => if is_current a t
                  then mkTask (id t) (title t) (description t) (estimatedMinutes t)
                              (status t) (verificationStatus t) (agentType t)
                              (content t) (visualCode t)
                              (chatHistory t ++ [m1; m2])
                  else t) ts.
Proof.
  unfold post. rewrite map_map. apply map_ext. intros t.
  destruct (is_current a t) eqn:E.
  - rewrite is_current_with_message, E. unfold with_message. cbn.
    now rewrite <- app_assoc.
  - now rewrite E.
Qed.

(** X14: [handleChatSubmit] with the reply of [chatWithAgent]: a blank input, no
    current task or a pointer that names no task changes nothing; otherwise
    the message of the user and then the reply, which is never empty, are
    appended to the chat of the current task, the input is cleared, and no
    other cell and no other task changes. *)
Theorem handleChatSubmit_appends (uuid1 uuid2 : jsstring) (now1 now2 : Z)
    (response : outcome Response) (a : App) (p : Panel) :
  let s' := handleChatSubmit uuid1 uuid2 now1 now2 (reply_of a p response) (a, p) in
  (truthy (trim (chatInput p)) = false \/ has_current a = false
   \/ find (is_current a) (tasks a) = None -> s' = (a, p))
  /\ forall task,
       truthy (trim (chatInput p)) = true -> has_current a = true ->
       find (is_current a) (tasks a) = Some task ->
       let reply :=
         chatWithAgent (chatInput p) task (editorContent a) (dna a) DEFAULT response in
       let userMsg :=
         ChatMessage.mk uuid1 ChatMessage.user (chatInput p) (of_Z now1)
                        (Some (js "You")) None in
       let aiMsg :=
         ChatMessage.mk uuid2 ChatMessage.ai reply (of_Z now2)
                        (Some (AgentType_name (agentType task))) (Some DEFAULT) in
       reply <> []
       /\ fst s'
          = setTasks
              (map (fun t =>
                      if is_current a t
                      then mkTask (id t) (title t) (description t)
                                  (estimatedMinutes t) (status t)
                                  (verificationStatus t) (agentType t) (content t)
                                  (visualCode t)
                                  (chatHistory t ++ [userMsg; aiMsg])
                      else t)
                   (tasks a))
              a
       /\ snd s' = mkPanel [] false (showChat p) (showToast p).
Proof.
  cbn zeta. unfold handleChatSubmit. split.
  - intros [H | [H | H]].
    + now rewrite H.
    + rewrite H. now rewrite orb_true_r.
    + rewrite H. now destruct (_ || _).
  - intros task Hi Hc Hf. rewrite Hi, Hc, Hf. cbn [negb orb fst snd].
    split; [apply chatWithAgent_not_empty|]. split; [|reflexivity].
    unfold reply_of. cbn [tasks setTasks]. rewrite post_post. reflexivity.
Qed.


Lemma handleChatSubmit_appends_witness :
  map (fun t => length (chatHistory t))
      (tasks (fst (handleChatSubmit (js "m-1") (js "m-2") 1700000000000 1700000004000
                     (reply_of demo_entered demo_panel (Resolved None))
                     (demo_entered, demo_panel))))
  = [0; 2]%nat.
Proof.
  assert (Hi : truthy (trim (chatInput demo_panel)) = true) by reflexivity.
  assert (Hc : has_current demo_entered = true) by (vm_compute; reflexivity).
  assert (Hf : find (is_current demo_entered) (tasks demo_entered) = Some demo_second_task)
    by (vm_compute; reflexivity).
  rewrite (proj1 (proj2 (proj2 (@handleChatSubmit_appends (js "m-1") (js "m-2")
                                  1700000000000 1700000004000 (Resolved None)
                                  demo_entered demo_panel)
                               demo_second_task Hi Hc Hf))).
  vm_compute. reflexivity.
Defined.

(* ----------------------------------------------------------------- *)
(** ** Tasks kept in place *)

Lemma same_task_refl (t : MicroTask) : same_task t t.
Proof. unfold same_task. repeat split; auto. exists []. now rewrite app_nil_r. Qed.

Lemma same_task_trans (t1 t2 t3 : MicroTask) :
  same_task t1 t2 -> same_task t2 t3 -> same_task t1 t3.
Proof.
  unfold same_task.
  intros (A1 & A2 & A3 & A4 & A5 & A6 & A7 & As & Ac & m1 & A8)
         (B1 & B2 & B3 & B4 & B5 & B6 & B7 & Bs & Bc & m2 & B8).
  repeat split; try congruence.
  - destruct Bs as [Bs | Bs]; [rewrite Bs; exact As | now right].
  - auto.
  - exists (m1 ++ m2). rewrite B8, A8. now rewrite app_assoc.
Qed.

Lemma kept_refl (ts : list MicroTask) : kept ts ts.
Proof. induction ts; constructor; auto using same_task_refl. Qed.

Lemma kept_trans (ts1 ts2 ts3 : list MicroTask) :
  kept ts1 ts2 -> kept ts2 ts3 -> kept ts1 ts3.
Proof.
  unfold kept. intros H. revert ts3.
  induction H as [|t1 t2 l1 l2 Ht Hl IH]; intros ts3 H3; inversion H3; subst.
  - constructor.
  - constructor; [eapply same_task_trans; eauto | now apply IH].
Qed.

Lemma kept_map (f : MicroTask -> MicroTask) (ts : list MicroTask) :
  (forall t, same_task t (f t)) -> kept ts (map f ts).
Proof. intros H. induction ts; simpl; constructor; auto. Qed.

Lemma same_task_with_content (c : jsstring) (t : MicroTask) :
  same_task t (with_content c t).
Proof.
  unfold same_task. cbn. repeat split; auto; [discriminate|].
  exists []. now rewrite app_nil_r.
Qed.

Lemma same_task_in_progress (t : MicroTask) :
  same_task t (with_status TaskStatus.IN_PROGRESS t).
Proof. unfold same_task. cbn. repeat split; auto. exists []. now rewrite app_nil_r. Qed.

Lemma same_task_completed (t : MicroTask) :
  same_task t (with_status TaskStatus.COMPLETED t).
Proof. unfold same_task. cbn. repeat split; auto. exists []. now rewrite app_nil_r. Qed.

Lemma same_task_with_message (msg : ChatMessage.t) (t : MicroTask) :
  same_task t (with_message msg t).
Proof. unfold same_task. cbn. repeat split; auto. now exists [msg]. Qed.

Lemma kept_flush (a : App) (ts : list MicroTask) : kept ts (flush a ts).
Proof.
  apply kept_map. intros t.
  destruct (is_current a t); auto using same_task_refl, same_task_with_content.
Qed.

Lemma kept_post (a : App) (msg : ChatMessage.t) (ts : list MicroTask) :
  kept ts (post a msg ts).
Proof.
  apply kept_map. intros t.
  destruct (is_current a t); auto using same_task_refl, same_task_with_message.
Qed.

Lemma kept_entered_list (a : App) (ts : list MicroTask) : kept ts (entered_list a ts).
Proof. unfold entered_list. destruct (has_current a); auto using kept_refl, kept_flush. Qed.

Lemma kept_enterTask (taskId : jsstring) (draft : outcome jsstring) (a : App) :
  kept (tasks a) (tasks (enterTask taskId (tasks a) draft a)).
Proof.
  destruct (find (fun t => jsstring_eqb (id t) taskId) (entered_list a (tasks a)))
    as [task|] eqn:Hf.
  - destruct (no_content task) eqn:Hn.
    + destruct draft as [d|e].
      * rewrite (@enterTask_drafted taskId a task d Hf Hn). cbn [tasks].
        eapply kept_trans; [apply kept_entered_list|].
        apply kept_map. intros t. destruct (jsstring_eqb (id t) taskId).
        -- eapply same_task_trans;
             [apply same_task_with_content | apply same_task_in_progress].
        -- apply same_task_refl.
      * rewrite (@enterTask_failed taskId a task e Hf Hn). apply kept_entered_list.
    + rewrite (@enterTask_opened taskId a task draft Hf Hn). apply kept_entered_list.
  - rewrite (@enterTask_absent taskId a draft Hf). apply kept_entered_list.
Qed.

Lemma kept_complete (a : App) : kept (tasks a) (tasks (complete_current a)).
Proof.
  cbn. apply kept_map. intros t. destruct (is_current a t).
  - eapply same_task_trans; [apply same_task_with_content | apply same_task_completed].
  - apply same_task_refl.
Qed.

(** X15: apart from a launch that succeeds and a reset that is confirmed, no
    handler adds, removes or reorders a task, changes its id, title,
    description, estimate, verification status, agent or visual code, sets
    its status back to PENDING, removes its content or takes a message out
    of its chat: the chat, the interventions, applying a code block and the
    autosave timer included. *)
Theorem tasks_kept_in_place :
  (forall e a,
      kept (tasks a) (tasks (handle e a))
      \/ (exists plan uuid draft, e = Launch (Resolved plan) uuid draft)
      \/ e = Reset true)
  /\ (forall uuid1 uuid2 now1 now2 reply a p,
        kept (tasks a)
             (tasks (fst (handleChatSubmit uuid1 uuid2 now1 now2 reply (a, p)))))
  /\ (forall armed combo now uuid response a p a' p',
        intervene armed combo now uuid response (a, p) = Some (a', p') ->
        kept (tasks a) (tasks a'))
  /\ (forall text a, tasks (applyCodeBlock text a) = tasks a)
  /\ (forall armed a, kept (tasks a) (tasks (autosave_fired armed a))).
Proof.
  split; [|split; [|split; [|split]]].
  - intros e a. destruct e as [| d | plan uuid draft | taskId draft | v | | |
                               | confirmed]; cbn [handle].
    + left. apply kept_refl.
    + left. apply kept_refl.
    + destruct plan as [ds|err]; [right; left; eauto|]. left. apply kept_refl.
    + left. apply kept_enterTask.
    + left. apply kept_refl.
    + left. unfold autosave. destruct (appState a); try apply kept_refl.
      destruct (has_current a); [apply kept_flush | apply kept_refl].
    + left. unfold handleExitTask.
      destruct (has_current a); [apply kept_flush | apply kept_refl].
    + left. unfold handleCompleteTask.
      destruct (has_current a); [apply kept_complete | apply kept_refl].
    + destruct confirmed; [now right; right | left; apply kept_refl].
  - intros uuid1 uuid2 now1 now2 reply a p. unfold handleChatSubmit.
    destruct (_ || _); [apply kept_refl|].
    destruct (find (is_current a) (tasks a)) as [task|]; [|apply kept_refl].
    cbn [fst]. destruct (reply task) as [r|e]; cbn [tasks setTasks].
    + eapply kept_trans; apply kept_post.
    + apply kept_post.
  - intros armed combo now uuid response a p a' p'. unfold intervene.
    destruct (intervention_due armed combo); [|intros [= <- <-]; apply kept_refl].
    destruct (generateIntervention _ _ _) as [i|]; [|intros [= <- <-]; apply kept_refl].
    destruct (as_string (message i)) as [m|]; [|discriminate].
    destruct (as_string (agentPersona i)) as [name|]; [|discriminate].
    cbn [bind]. destruct (AgentPersonality_of name) as [pe|]; [|discriminate].
    cbn [bind]. intros [= <- <-]. apply kept_post.
  - intros text a. unfold applyCodeBlock.
    destruct (extractCodeBlock text) as [code|]; [|reflexivity].
    now destruct (truthy code).
  - intros armed a. apply kept_flush.
Qed.

(* ----------------------------------------------------------------- *)
(** ** What holds of every state of a session *)

Lemma AppState_eqb_eq (x y : AppState) : AppState_eqb x y = true <-> x = y.
Proof. destruct x, y; simpl; split; congruence. Qed.

Lemma settled_with_content (c : jsstring) (t : MicroTask) :
  settled t -> settled (with_content c t).
Proof. auto. Qed.

Lemma settled_flush (a : App) (ts : list MicroTask) :
  Forall settled ts -> Forall settled (flush a ts).
Proof.
  intros H. unfold flush. apply Forall_map. eapply Forall_impl; [|exact H].
  intros t Ht. now destruct (is_current a t).
Qed.

Lemma settled_entered_list (a : App) (ts : list MicroTask) :
  Forall settled ts -> Forall settled (entered_list a ts).
Proof. unfold entered_list. destruct (has_current a); auto using settled_flush. Qed.

Lemma settled_materialize (uuid : nat -> jsstring) (plan : list Descriptor.t) (i : nat) :
  Forall settled (materialize uuid i plan).
Proof.
  revert i; induction plan as [|p plan IH]; intros i; simpl; constructor; auto.
  split; [now left | reflexivity].
Qed.

Lemma listed_map (f : MicroTask -> MicroTask) (ts : list MicroTask) (c : jsstring) :
  (forall t, id (f t) = id t) ->
  (exists t, In t ts /\ Some c = Some (id t)) ->
  exists t, In t (map f ts) /\ Some c = Some (id t).
Proof.
  intros Hid (t & Hin & E). exists (f t). split; [now apply in_map|]. now rewrite Hid.
Qed.

(** What [enterTask] on the list of the state gives satisfies the two
    conditions on tasks whenever the list it starts from is settled. *)
Lemma enterTask_invariant (taskId : jsstring) (draft : outcome jsstring) (a : App) :
  Forall settled (tasks a) -> isGenerating a = false ->
  let a' := enterTask taskId (tasks a) draft a in
  Forall settled (tasks a')
  /\ isGenerating a' = false
  /\ (appState a' = appState a /\ currentTaskId a' = currentTaskId a
      /\ find (fun t => jsstring_eqb (id t) taskId) (entered_list a (tasks a)) = None
      \/ appState a' = WORKING
         /\ exists t, In t (tasks a') /\ currentTaskId a' = Some (id t)).
Proof.
  intros Hs Hg. cbn zeta.
  pose proof (settled_entered_list a Hs) as HL.
  destruct (find (fun t => jsstring_eqb (id t) taskId) (entered_list a (tasks a)))
    as [task|] eqn:Hf.
  - pose proof (find_some _ _ Hf) as [Hin Heq]. cbv beta in Heq.
    apply jsstring_eqb_eq in Heq.
    destruct (no_content task) eqn:Hn.
    + destruct draft as [d|e].
      * rewrite (@enterTask_drafted taskId a task d Hf Hn).
        cbn [tasks isGenerating appState currentTaskId].
        split; [|split; [reflexivity|right; split; [reflexivity|]]].
        -- apply Forall_map. eapply Forall_impl; [|exact HL].
           intros t [Ht Hv]. destruct (jsstring_eqb (id t) taskId); [|now split].
           split; [right; now left | exact Hv].
        -- set (f := fun t => if jsstring_eqb (id t) taskId
                              then with_status TaskStatus.IN_PROGRESS (with_content d t)
                              else t).
           exists (f task). split; [now apply in_map|].
           unfold f. rewrite Heq, jsstring_eqb_refl. cbn. now rewrite Heq.
      * rewrite (@enterTask_failed taskId a task e Hf Hn).
        cbn [tasks isGenerating appState currentTaskId].
        split; [exact HL|]. split; [reflexivity|]. right. split; [reflexivity|].
        exists task. split; [exact Hin | now rewrite Heq].
    + rewrite (@enterTask_opened taskId a task draft Hf Hn).
      cbn [tasks isGenerating appState currentTaskId].
      split; [exact HL|]. split; [exact Hg|]. right. split; [reflexivity|].
      exists task. split; [exact Hin | now rewrite Heq].
  - rewrite (@enterTask_absent taskId a draft Hf).
    cbn [tasks isGenerating appState currentTaskId setTasks].
    split; [exact HL|]. split; [exact Hg|]. left. auto.
Qed.

Lemma listed_flush (a : App) (ts : list MicroTask) (c : option jsstring) :
  (exists t, In t ts /\ c = Some (id t)) ->
  exists t, In t (flush a ts) /\ c = Some (id t).
Proof.
  intros (t & Hin & E).
  exists (if is_current a t then with_content (editorContent a) t else t).
  split; [unfold flush; apply in_map_iff; now exists t|].
  now destruct (is_current a t).
Qed.

Lemma session_invariant_initial : session_invariant (initial None).
Proof. constructor; cbn; auto; discriminate. Qed.

Ltac settle :=
  cbn; auto; try discriminate;
  try (let H := fresh in intros [H | H]; discriminate).

Lemma session_invariant_step (e : Event) (a : App) :
  session_invariant a -> offered e a = true -> session_invariant (handle e a).
Proof.
  intros [I1 I2 I3 I4 I5] Ho.
  destruct e as [| d | plan uuid draft | taskId draft | v | | | | confirmed];
    cbn [handle offered] in *.
  - apply AppState_eqb_eq in Ho. constructor; settle.
  - apply andb_true_iff in Ho as [Ho _]. apply AppState_eqb_eq in Ho.
    constructor; settle.
  - apply andb_true_iff in Ho as [Ho _]. apply AppState_eqb_eq in Ho.
    assert (Ht : tasks a = []) by auto.
    unfold launch, handleLaunch. destruct plan as [ds|err].
    + destruct (materialize uuid 0 ds) as [|first rest] eqn:Em.
      * constructor; settle.
      * set (a0 := setIsGenerating false _).
        assert (Et : tasks a0 = first :: rest) by reflexivity.
        assert (Hs0 : Forall settled (tasks a0)).
        { rewrite Et, <- Em. apply settled_materialize. }
        pose proof (@enterTask_invariant (id first) draft a0 Hs0 eq_refl) as H.
        cbn zeta in H. destruct H as (Hs & Hg & Hcase).
        assert (Hfound : find (fun t => jsstring_eqb (id t) (id first))
                              (entered_list a0 (tasks a0)) <> None).
        { rewrite Et. unfold entered_list.
          assert (Hx : forall f : MicroTask -> MicroTask,
                     (forall t, id (f t) = id t) ->
                     find (fun t => jsstring_eqb (id t) (id first))
                          (map f (first :: rest)) <> None).
          { intros f Hid. cbn [map find]. rewrite Hid, jsstring_eqb_refl. discriminate. }
          destruct (has_current a0).
          - apply Hx. intros t. now destruct (is_current a0 t).
          - rewrite <- (map_id (first :: rest)). now apply Hx. }
        destruct Hcase as [(_ & _ & Hnone) | (Hw & Hl)]; [contradiction|].
        constructor; auto; rewrite Hw; settle.
    + constructor; settle.
  - apply andb_true_iff in Ho as [Ho _]. apply AppState_eqb_eq in Ho.
    pose proof (@enterTask_invariant taskId draft a I4 I5) as H.
    cbn zeta in H. destruct H as (Hs & Hg & Hcase).
    destruct Hcase as [(Ha & Hc & _) | (Hw & Hl)].
    + constructor; auto; rewrite Ha, Ho; settle.
    + constructor; auto; rewrite Hw; settle.
  - constructor; settle.
  - unfold autosave.
    destruct (appState a) eqn:Ea; try solve [constructor; rewrite ?Ea; settle].
    destruct (has_current a); [|solve [constructor; rewrite ?Ea; settle]].
    constructor.
    + cbn. rewrite Ea. discriminate.
    + intros _. cbn. apply listed_flush. auto.
    + cbn. rewrite Ea. settle.
    + cbn. now apply settled_flush.
    + exact I5.
  - unfold handleExitTask.
    constructor.
    + cbn. discriminate.
    + cbn. discriminate.
    + cbn. settle.
    + destruct (has_current a); cbn; auto using settled_flush.
    + destruct (has_current a); cbn; auto.
  - unfold handleCompleteTask. destruct (has_current a); [|constructor; now auto].
    constructor.
    + cbn. discriminate.
    + cbn. discriminate.
    + cbn. settle.
    + cbn. apply Forall_map. eapply Forall_impl; [|exact I4].
      intros t [Ht Hv]. destruct (is_current a t); [|now split].
      split; [right; now right | exact Hv].
    + exact I5.
  - destruct confirmed; [|constructor; now auto].
    constructor; settle.
Qed.

Lemma reachable_invariant (a : App) : reachable a -> session_invariant a.
Proof.
  induction 1 as [|e a Ha IH Ho];
    [apply session_invariant_initial | now apply session_invariant_step].
Qed.

(** X16: in every state of a session each task is PENDING, IN_PROGRESS or
    COMPLETED and its verification status is PENDING: the statuses DRAFTING
    and READY and the other verification statuses are never given. *)
Theorem reachable_statuses (a : App) (t : MicroTask) :
  reachable a -> In t (tasks a) ->
  (status t = TaskStatus.PENDING \/ status t = TaskStatus.IN_PROGRESS
   \/ status t = TaskStatus.COMPLETED)
  /\ verificationStatus t = VerificationStatus.PENDING.
Proof.
  intros Ha Hin. apply reachable_invariant in Ha as [_ _ _ H _].
  rewrite Forall_forall in H. now apply H.
Qed.


(* ----------------------------------------------------------------- *)
(** ** The velocity loop *)


Lemma slice_last_length {A : Type} (n : nat) (l : list A) :
  (length (slice_last n l) <= n)%nat.
Proof. unfold slice_last. rewrite length_skipn. lia. Qed.

Lemma slice_last_Forall {A : Type} (P : A -> Prop) (n : nat) (l : list A) :
  Forall P l -> Forall P (slice_last n l).
Proof.
  intros H. unfold slice_last. rewrite <- (firstn_skipn (length l - n) l) in H.
  now apply Forall_app in H as [_ H].
Qed.

Lemma flow_run_app (es : list FlowEvent) (e : FlowEvent) (f : Flow) :
  flow_run (es ++ [e]) f = flow_step (flow_run es f) e.
Proof. unfold flow_run. now rewrite fold_left_app. Qed.

(** X18: along any sequence of keystrokes and ticks, the flow indicator is on
    exactly when the streak is above 15; and a run of [n] keystrokes from
    rest leaves a streak of [n], so that the indicator comes on with the
    sixteenth keystroke. *)
Theorem flow_follows_streak :
  (forall es,
      flowState (flow_run es Flow_initial) = true
      <-> (15 < combo (flow_run es Flow_initial))%nat)
  /\ (forall times f,
        combo f = 0%nat -> flowState f = false ->
        combo (flow_run (map Keystroke times) f) = length times
        /\ flowState (flow_run (map Keystroke times) f) = (15 <? length times)%nat).
Proof.
  split.
  - intros es. induction es as [|e es IH] using rev_ind.
    + cbn. split; [discriminate | lia].
    + rewrite flow_run_app. set (f := flow_run es Flow_initial) in *.
      destruct e as [now | stamp now]; cbn [flow_step].
      * unfold handleKeystroke. cbn [flowState combo].
        destruct (Nat.ltb_spec 15 (S (combo f))) as [H | H].
        -- split; auto.
        -- rewrite IH. lia.
      * unfold tick. cbn [flowState combo].
        destruct (3000 <? now - lastKeystrokeRef f); [|exact IH].
        split; [discriminate | lia].
  - intros times. induction times as [|t times IH] using rev_ind; intros f Hc Hf.
    + cbn. now rewrite Hc, Hf.
    + rewrite map_app. cbn [map]. rewrite flow_run_app. cbn [flow_step].
      destruct (IH f Hc Hf) as [Ec Ef]. unfold handleKeystroke.
      cbn [combo flowState]. rewrite Ec, Ef, length_app. cbn [length].
      replace (length times + 1)%nat with (S (length times)) by lia.
      split; [reflexivity|].
      destruct (Nat.ltb_spec 15 (S (length times))) as [H | H]; [reflexivity|].
      destruct (Nat.ltb_spec 15 (length times)); [lia | reflexivity].
Qed.

Lemma tick_points (stamp now : Z) (f : Flow) :
  (length (velocityData f) <= 50)%nat -> Forall in_range (velocityData f) ->
  (length (velocityData (tick stamp now f)) <= 50)%nat
  /\ Forall in_range (velocityData (tick stamp now f)).
Proof.
  intros Hl Hr. unfold tick. cbn [velocityData]. split.
  - apply slice_last_length.
  - apply slice_last_Forall. apply Forall_app. split; [exact Hr|].
    constructor; [|constructor]. unfold in_range. cbn [score]. lia.
Qed.

(** X19: the series given to the chart always has between one and fifty
    points, each with a score from 0 to 100, whatever the keystrokes and
    ticks have been. *)
Theorem chart_series_bounded (es : list FlowEvent) :
  let series := safeData (velocityData (flow_run es Flow_initial)) in
  (1 <= length series <= 50)%nat
  /\ forall p, In p series -> 0 <= score p <= 100.
Proof.
  cbn zeta.
  assert (H : (length (velocityData (flow_run es Flow_initial)) <= 50)%nat
              /\ Forall in_range (velocityData (flow_run es Flow_initial))).
  { induction es as [|e es IH] using rev_ind.
    - cbn. split; [lia | constructor].
    - rewrite flow_run_app. destruct IH as [Hl Hr].
      destruct e as [now | stamp now]; cbn [flow_step].
      + now split.
      + now apply tick_points. }
  destruct H as [Hl Hr].
  destruct (velocityData (flow_run es Flow_initial)) as [|p ps] eqn:E; cbn [safeData].
  - split; [cbn; lia|]. intros p [<- | [<- | []]]; cbn; lia.
  - split; [cbn [length] in *; lia|]. rewrite Forall_forall in Hr. exact Hr.
Qed.

(* ----------------------------------------------------------------- *)
(** ** Saving *)

Lemma flush_idem (a : App) (ts : list MicroTask) :
  flush a (flush a ts) = flush a ts.
Proof.
  unfold flush. rewrite map_map. apply map_ext. intros t.
  destruct (is_current a t) eqn:E; [|now rewrite E].
  change (is_current a (with_content (editorContent a) t)) with (is_current a t).
  now rewrite E.
Qed.

Lemma save_current_idem (a : App) : save_current (save_current a) = save_current a.
Proof.
  unfold save_current, persist. cbn.
  assert (H : flush (setTasks (flush a (tasks a))
                       (localStorage_set
                          (Some (serialize (mkPersisted (dna a) (flush a (tasks a))))) a))
                    (flush a (tasks a))
              = flush a (tasks a)) by exact (flush_idem a (tasks a)).
  unfold flush in *. cbn in *. now rewrite H.
Qed.

(** X20: saving twice is saving once: the autosave is idempotent, and leaving or
    completing a task just after an autosave gives the same state, record
    included, as leaving or completing it directly. *)
Theorem autosave_idempotent (a : App) :
  autosave (autosave a) = autosave a
  /\ handleExitTask (autosave a) = handleExitTask a
  /\ handleCompleteTask (autosave a) = handleCompleteTask a.
Proof.
  unfold autosave, handleExitTask, handleCompleteTask.
  destruct (appState a) eqn:Ea; try (rewrite Ea; now auto).
  destruct (has_current a) eqn:Hc; [|rewrite Ea, Hc; now auto].
  assert (Hc' : has_current (save_current a) = true) by exact Hc.
  assert (Ea' : appState (save_current a) = WORKING) by exact Ea.
  rewrite Ea', Hc', save_current_idem. split; [reflexivity|]. split; [reflexivity|].
  f_equal. unfold complete_current, persist.
  assert (Hm : map (fun t => if is_current (save_current a) t
                             then with_status TaskStatus.COMPLETED
                                    (with_content (editorContent (save_current a)) t)
                             else t) (tasks (save_current a))
               = map (fun t => if is_current a t
                               then with_status TaskStatus.COMPLETED
                                      (with_content (editorContent a) t)
                               else t) (tasks a)).
  { cbn [tasks save_current setTasks]. unfold flush. rewrite map_map.
    apply map_ext. intros t. change (is_current (save_current a)) with (is_current a).
    change (editorContent (save_current a)) with (editorContent a).
    destruct (is_current a t) eqn:E; [|now rewrite E].
    change (is_current a (with_content (editorContent a) t)) with (is_current a t).
    now rewrite E. }
  rewrite Hm. reflexivity.
Qed.

Lemma deserialize_serialize (p : Persisted) :
  finite_numbers p = true -> deserialize (serialize p) = Some p.
Proof.
  intros H. unfold deserialize, serialize.
  rewrite (@JSON_parse_stringify _ (@plain_Persisted _ H)). cbn [bind].
  apply Persisted_of_value.
Qed.

Lemma map_eq_In {A B : Type} (f g : A -> B) (l : list A) :
  map f l = map g l -> forall x, In x l -> f x = g x.
Proof.
  induction l as [|y l IH]; simpl; [tauto|].
  intros [= Hy Hl] x [<- | Hx]; auto.
Qed.

(** X21: the autosave timer writes the record of the render that set it.  The
    list in memory is updated from the list of the moment, so when nothing
    has changed since the timer was set the callback is the plain autosave;
    but a chat message posted in between stays in memory and is missing from
    the record written, which reads back as the list of before. *)
Theorem autosave_fired_record (armed a : App) :
  kinetic_state (autosave_fired armed a)
  = Some (serialize (mkPersisted (dna armed) (flush armed (tasks armed))))
  /\ tasks (autosave_fired armed a) = flush armed (tasks a)
  /\ (autosave_armed a = true -> autosave_fired a a = autosave a)
  /\ forall msg t,
       In t (tasks armed) -> is_current armed t = true ->
       a = setTasks (post armed msg (tasks armed)) armed ->
       tasks (autosave_fired armed a) <> flush armed (tasks armed)
       /\ (finite_numbers (mkPersisted (dna armed) (flush armed (tasks armed))) = true ->
           bind (kinetic_state (autosave_fired armed a)) deserialize
           = Some (mkPersisted (dna armed) (flush armed (tasks armed)))).
Proof.
  split; [reflexivity|]. split; [reflexivity|]. split.
  - unfold autosave_armed, autosave. intros H. apply andb_true_iff in H as [Hw Hc].
    apply AppState_eqb_eq in Hw. now rewrite Hw, Hc.
  - intros msg t Hin Hcur ->. split.
    + cbn [autosave_fired tasks setTasks localStorage_set]. unfold flush, post.
      rewrite map_map. intros E.
      pose proof (@map_eq_In _ _ _ _ _ E t Hin) as Ht. cbv beta in Ht.
      rewrite Hcur in Ht.
      change (is_current armed (with_message msg t)) with (is_current armed t) in Ht.
      rewrite Hcur in Ht. apply (f_equal (fun x => length (chatHistory x))) in Ht.
      cbn in Ht. rewrite length_app in Ht. cbn in Ht. lia.
    + intros Hfin. cbn [autosave_fired kinetic_state setTasks localStorage_set bind].
      now apply deserialize_serialize.
Qed.



Lemma autosave_fired_record_witness :
  In demo_second_task (tasks demo_entered)
  /\ is_current demo_entered demo_second_task = true
  /\ map (fun t => length (chatHistory t))
         (tasks (autosave_fired demo_entered demo_chatted)) = [0; 1]%nat
  /\ option_map (fun p => map (fun t => length (chatHistory t)) (saved_tasks p))
       (bind (kinetic_state (autosave_fired demo_entered demo_chatted)) deserialize)
     = Some [0; 0]%nat.
Proof.
  assert (Hin : In demo_second_task (tasks demo_entered))
    by (apply (nth_error_In _ 1); vm_compute; reflexivity).
  assert (Hcur : is_current demo_entered demo_second_task = true)
    by (vm_compute; reflexivity).
  assert (Hfin : finite_numbers (mkPersisted (dna demo_entered)
                                   (flush demo_entered (tasks demo_entered))) = true)
    by (vm_compute; reflexivity).
  split; [exact Hin|]. split; [exact Hcur|]. split; [vm_compute; reflexivity|].
  rewrite (proj2 (proj2 (proj2 (proj2 (@autosave_fired_record demo_entered demo_chatted)))
                    demo_chat_message demo_second_task Hin Hcur eq_refl)
                 Hfin).
  vm_compute. reflexivity.
Defined.


(* ----------------------------------------------------------------- *)
(** ** The audio engine *)

Lemma audio_run_app (xs : list AudioEvent) (x : AudioEvent) (e : AudioEngine) :
  audio_run (xs ++ [x]) e = audio_step (audio_run xs e) x.
Proof. unfold audio_run. now rewrite fold_left_app. Qed.


Lemma one_source_step (e : AudioEngine) (x : AudioEvent) :
  one_source e -> one_source (audio_step e x).
Proof.
  unfold one_source. intros H. destruct x; cbn [audio_step].
  - unfold playFocusNoise. destruct (isPlaying e) eqn:P; [now rewrite P|].
    destruct H as [Hn Hs]. cbn. rewrite Hs. eauto.
  - unfold stop. destruct (isPlaying e) eqn:P; cbn [negb orb].
    + destruct H as [Hc H]. rewrite Hc. cbn. rewrite ?P. auto.
    + now rewrite P.
  - unfold stop_timeout. destruct (fading e) as [|k]; [exact H|]. cbn.
    split; [reflexivity|]. destruct (isPlaying e).
    + destruct H as (_ & n & -> & ->). cbn. now rewrite Nat.eqb_refl.
    + destruct H as [-> ->]. reflexivity.
Qed.

Lemma one_source_run (xs : list AudioEvent) : one_source (audio_run xs sonicCortex).
Proof.
  induction xs as [|x xs IH] using rev_ind; [now split|].
  rewrite audio_run_app. now apply one_source_step.
Qed.

(** X22: whatever the calls and timers have been, at most one noise source
    sounds, and none when the engine is not playing.  But a call of
    [playFocusNoise] made after [stop] and before the timer of [stop] runs
    is lost: the engine ends silent and not playing.  So it is when the
    user leaves a task and enters one again within the delay, or switches
    the audio off and on again, although the audio is then enabled in the
    Working view. *)
Theorem audio_play_lost (xs : list AudioEvent) :
  let e := audio_run xs sonicCortex in
  (length (sounding e) <= 1)%nat
  /\ (isPlaying e = false -> sounding e = [])
  /\ (isPlaying e = true ->
      let e' := stop_timeout (playFocusNoise (stop e)) in
      isPlaying e' = false /\ sounding e' = [] /\ noiseNode e' = None
      /\ forall dashboard working,
           appState dashboard = DASHBOARD ->
           appState working = WORKING -> audioEnabled working = true ->
           stop_timeout (audio_effect working (audio_effect dashboard e)) = e'
           /\ stop_timeout
                (audio_effect (toggleAudio (toggleAudio working))
                   (audio_effect (toggleAudio working) e)) = e').
Proof.
  cbn zeta. pose proof (one_source_run xs) as H.
  set (e := audio_run xs sonicCortex) in *. unfold one_source in H.
  split; [|split].
  - destruct (isPlaying e); [destruct H as (_ & n & _ & ->) | destruct H as [_ ->]];
      cbn; lia.
  - intros P. rewrite P in H. apply H.
  - intros P. rewrite P in H. destruct H as (Hc & n & Hn & Hs).
    assert (Es : stop e = mkAudio (ctx e) (noiseNode e) (isPlaying e) (sounding e)
                                  (created e) (S (fading e))).
    { unfold stop. now rewrite P, Hc. }
    assert (Ep : playFocusNoise (stop e) = stop e).
    { rewrite Es. unfold playFocusNoise. cbn [isPlaying]. now rewrite P. }
    rewrite Ep, Es. unfold stop_timeout. cbn [fading noiseNode sounding isPlaying].
    rewrite Hn, Hs. cbn [filter]. rewrite Nat.eqb_refl. cbn.
    split; [reflexivity|]. split; [reflexivity|]. split; [reflexivity|].
    intros dashboard working Hd Hw Ha. unfold audio_effect, toggleAudio.
    cbn [appState audioEnabled setAudioEnabled].
    rewrite Hd, Hw, Ha. cbn [AppState_eqb andb negb]. rewrite Ep, Es.
    cbn [fading noiseNode sounding isPlaying]. rewrite Hn, Hs. cbn [filter].
    now rewrite Nat.eqb_refl.
Qed.

Lemma audio_play_lost_witness :
  isPlaying (audio_run [Play] sonicCortex) = true
  /\ sounding (audio_run [Play; Stop; Play; StopTimeout] sonicCortex) = [].
Proof.
  assert (P : isPlaying (audio_run [Play] sonicCortex) = true) by reflexivity.
  split; [exact P|].
  exact (proj1 (proj2 (proj2 (proj2 (audio_play_lost [Play])) P))).
Defined.

(* ----------------------------------------------------------------- *)
(** ** The properties on the sample session *)

Lemma demo_entered_reachable : reachable demo_entered.
Proof.
  apply reachable_step.
  - apply reachable_run; [constructor | vm_compute; reflexivity].
  - vm_compute; reflexivity.
Qed.

Lemma reachable_statuses_witness :
  reachable demo_entered
  /\ In demo_second_task (tasks demo_entered)
  /\ verificationStatus demo_second_task = VerificationStatus.PENDING.
Proof.
  assert (Hin : In demo_second_task (tasks demo_entered))
    by (apply (nth_error_In _ 1); vm_compute; reflexivity).
  split; [exact demo_entered_reachable|]. split; [exact Hin|].
  exact (proj2 (@reachable_statuses demo_entered demo_second_task
                  demo_entered_reachable Hin)).
Defined.


Lemma enterTask_drafts_once_witness :
  find (fun t => jsstring_eqb (id t) (demo_uuid 1))
       (entered_list demo_dashboard (tasks demo_dashboard)) = Some demo_pending_task
  /\ no_content demo_pending_task = true
  /\ editorContent (enterTask_drafting (demo_uuid 1) (tasks demo_dashboard)
                      (Resolved demo_grounded) demo_dashboard)
     = js "Five competitors.".
Proof.
  assert (Hf : find (fun t => jsstring_eqb (id t) (demo_uuid 1))
                    (entered_list demo_dashboard (tasks demo_dashboard))
               = Some demo_pending_task) by (vm_compute; reflexivity).
  assert (Hn : no_content demo_pending_task = true) by reflexivity.
  split; [exact Hf|]. split; [exact Hn|].
  rewrite (proj1 (proj2 (@enterTask_drafts_once (demo_uuid 1) (Resolved demo_grounded)
                           demo_dashboard demo_pending_task Hf Hn))).
  vm_compute. reflexivity.
Defined.

Lemma flow_follows_streak_witness :
  flowState (flow_run (map Keystroke (repeat 0 15)) Flow_initial) = false
  /\ flowState (flow_run (map Keystroke (repeat 0 16)) Flow_initial) = true.
Proof.
  split.
  - exact (proj2 (proj2 flow_follows_streak (repeat 0 15) Flow_initial eq_refl eq_refl)).
  - exact (proj2 (proj2 flow_follows_streak (repeat 0 16) Flow_initial eq_refl eq_refl)).
Defined.

Lemma generateIntervention_interrupts_witness :
  generateIntervention [] demo_dna (Resolved (Some demo_intervention_text))
  = Some (mkIntervention (Some (JStr (js "Too generic.")))
                         (Some (JStr (js "SKEPTIC")))).
Proof.
  apply (proj1 (@generateIntervention_interrupts [] demo_dna
                  (Resolved (Some demo_intervention_text)) _)).
  exists demo_intervention_text,
         [(js "shouldInterrupt", JBool true); (js "message", JStr (js "Too generic."));
          (js "agentPersona", JStr (js "SKEPTIC"))],
         (JBool true).
  split; [reflexivity|]. split; [discriminate|].
  split; [vm_compute; reflexivity|]. repeat split.
Defined.

(* ----------------------------------------------------------------- *)
(** ** The moves of the view and the writes of the storage *)

(** [enterTask] either finds no task and only flushes the editor, or opens
    the Working view on the task; it never writes the storage. *)
Lemma enterTask_shape (taskId : jsstring) (draft : outcome jsstring) (a : App) :
  (find (fun t => jsstring_eqb (id t) taskId) (entered_list a (tasks a)) = None
   /\ enterTask taskId (tasks a) draft a = setTasks (entered_list a (tasks a)) a)
  \/ (find (fun t => jsstring_eqb (id t) taskId) (entered_list a (tasks a)) <> None
      /\ exists ts c g,
           enterTask taskId (tasks a) draft a
           = mkApp WORKING (dna a) ts (Some taskId) c EDIT g (showMissionBrief a) true
                   (kinetic_state a) (alerts a)).
Proof.
  destruct (find (fun t => jsstring_eqb (id t) taskId) (entered_list a (tasks a)))
    as [task|] eqn:Hf.
  - right. split; [discriminate|]. destruct (no_content task) eqn:Hn.
    + destruct draft as [d|e].
      * rewrite (@enterTask_drafted taskId a task d Hf Hn). eauto.
      * rewrite (@enterTask_failed taskId a task e Hf Hn). eauto.
    + rewrite (@enterTask_opened taskId a task draft Hf Hn). eauto.
  - left. split; [reflexivity|]. now apply enterTask_absent.
Qed.

Lemma find_listed (taskId : jsstring) (a : App) :
  existsb (fun t => jsstring_eqb (id t) taskId) (tasks a) = true ->
  find (fun t => jsstring_eqb (id t) taskId) (entered_list a (tasks a)) <> None.
Proof.
  intros H.
  assert (Hx : forall f : MicroTask -> MicroTask,
             (forall t, id (f t) = id t) ->
             find (fun t => jsstring_eqb (id t) taskId) (map f (tasks a)) <> None).
  { intros f Hid. rewrite (find_map_id f taskId _ Hid).
    apply existsb_exists in H as (t & Hin & Ht).
    destruct (find _ (tasks a)) eqn:E; [discriminate|].
    apply (find_none _ _ E) in Hin. cbv beta in Hin. congruence. }
  unfold entered_list. destruct (has_current a).
  - apply Hx. intros t. now destruct (is_current a t).
  - rewrite <- (map_id (tasks a)). now apply Hx.
Qed.

(** X23: every event that a screen offers moves the view along
    IDLE -> DNA_EXTRACTION -> (DASHBOARD or WORKING), DASHBOARD <-> WORKING and
    DASHBOARD -> IDLE, or leaves it where it is; and opening a task offered
    on the Dashboard always gives the Working view with the pointer on that
    task. *)
Theorem view_moves (e : Event) (a : App) :
  offered e a = true ->
  view_move (appState a) (appState (handle e a)) = true
  /\ (appState a = IDLE -> appState (handle e a) = DNA_EXTRACTION)
  /\ forall taskId draft,
       e = Enter taskId draft ->
       appState (handle e a) = WORKING /\ currentTaskId (handle e a) = Some taskId.
Proof.
  intros Ho.
  destruct e as [| d | plan uuid draft | taskId draft | v | | | | confirmed];
    cbn [handle offered] in *.
  - apply AppState_eqb_eq in Ho. rewrite Ho. cbn.
    repeat split; try reflexivity; discriminate.
  - apply andb_true_iff in Ho as [Ho _]. apply AppState_eqb_eq in Ho. rewrite Ho.
    cbn. rewrite Ho. repeat split; try reflexivity; discriminate.
  - apply andb_true_iff in Ho as [Ho _]. apply AppState_eqb_eq in Ho. rewrite Ho.
    split; [|split; discriminate].
    unfold launch, handleLaunch.
    destruct plan as [ds|err]; [|cbn; now rewrite Ho].
    destruct (materialize uuid 0 ds) as [|first rest]; [reflexivity|].
    set (a0 := setIsGenerating false _).
    destruct (@enterTask_shape (id first) draft a0) as [[_ E] | (_ & ts & c & g & E)].
    + rewrite E. cbn. now rewrite Ho.
    + now rewrite E.
  - apply andb_true_iff in Ho as [Ho Hex]. apply AppState_eqb_eq in Ho. rewrite Ho.
    destruct (@enterTask_shape taskId draft a) as [[Hn _] | (_ & ts & c & g & E)].
    + now apply find_listed in Hex.
    + rewrite E. cbn. split; [reflexivity|]. split; [discriminate|].
      intros taskId' draft' [= <- <-]. auto.
  - cbn. split; [|split; [|discriminate]].
    + apply orb_true_iff in Ho as [Ho | Ho]; apply AppState_eqb_eq in Ho; now rewrite Ho.
    + intros Hi. rewrite Hi in Ho. discriminate.
  - assert (Ea : appState (autosave a) = appState a).
    { unfold autosave. destruct (appState a) eqn:E; auto.
      now destruct (has_current a). }
    rewrite Ea. split; [|split; [|discriminate]].
    + apply orb_true_iff in Ho as [Ho | Ho]; apply AppState_eqb_eq in Ho; now rewrite Ho.
    + intros Hi. rewrite Hi in Ho. discriminate.
  - cbn. split; [|split; [|discriminate]].
    + apply orb_true_iff in Ho as [Ho | Ho]; apply AppState_eqb_eq in Ho; now rewrite Ho.
    + intros Hi. rewrite Hi in Ho. discriminate.
  - assert (Ea : appState (handleCompleteTask a) = appState a
                 \/ appState (handleCompleteTask a) = DASHBOARD).
    { unfold handleCompleteTask. destruct (has_current a); auto. }
    split; [|split; [|discriminate]].
    + apply orb_true_iff in Ho as [Ho | Ho]; apply AppState_eqb_eq in Ho;
        destruct Ea as [-> | ->]; now rewrite Ho.
    + intros Hi. rewrite Hi in Ho. discriminate.
  - apply AppState_eqb_eq in Ho. rewrite Ho.
    destruct confirmed; cbn; rewrite ?Ho; repeat split; try reflexivity; discriminate.
Qed.

Lemma view_moves_witness :
  offered demo_second demo_dashboard = true
  /\ appState demo_dashboard = DASHBOARD
  /\ appState (handle demo_second demo_dashboard) = WORKING.
Proof.
  assert (Ho : offered demo_second demo_dashboard = true) by (vm_compute; reflexivity).
  split; [exact Ho|]. split; [vm_compute; reflexivity|].
  exact (proj1 (proj2 (proj2 (@view_moves demo_second demo_dashboard Ho))
                  (demo_uuid 1) (Resolved (js "draft B")) eq_refl)).
Defined.


(* ----------------------------------------------------------------- *)
(** ** The intervention callback *)



